(** * StellarSwap MCP server: tool dispatch, mock fallbacks and their properties

    A shallow embedding of [src/index.ts] (the combined server),
    [src/soroswap-client.ts] and [src/defindex-client.ts].

    - JavaScript numbers are IEEE-754 binary64 values: Rocq's primitive
      [float], whose operations are specified by [SpecFloat].
    - [parseFloat], [Number.prototype.toString] and
      [Number.prototype.toFixed] are written out over the exact value
      [m * 2^e] of a double, following ECMA-262.
    - Exceptions and rejected promises are the [Throw] case of [result];
      [try]/[catch] is [try_catch].
    - The network (the Soroswap and DeFindex HTTP APIs and Horizon) is a
      record of oracles, each answering with data of the declared
      TypeScript type or failing. *)

From Stdlib Require Import ZArith List String Ascii Bool Lia Floats.
From Stdlib Require Import DecimalString DecimalFacts DecimalPos DecimalN.
Import ListNotations.
Open Scope string_scope.

(* Decimal literals such as 0.12 denote the nearest double, as in JavaScript. *)
Set Warnings "-inexact-float".

(** ** JavaScript numbers *)

Module JSNumber.

Definition number := float.

(** [ratio_to_number s n d]: the double nearest to [(-1)^s * n / d]
    (ties to even), as IEEE-754 division of the two integers computes it. *)
Definition ratio_to_number (s : bool) (n d : positive) : number :=
  SF2Prim (SFdiv prec emax (S754_finite s n 0) (S754_finite false d 0)).

(** The double written [(-1)^s * n * 10^e10]. Exponents far outside the
    range of a double are settled without building the power of ten. *)
Definition decimal_to_number (s : bool) (n : N) (e10 : Z) : number :=
  match n with
  | N0 => if s then neg_zero else zero
  | Npos p =>
      let digits := Z.of_nat (Decimal.nb_digits (Pos.to_uint p)) in
      if (400 <? e10 + digits)%Z then (if s then neg_infinity else infinity)
      else if (e10 + digits <? -400)%Z then (if s then neg_zero else zero)
      else match e10 with
           | Z0 => ratio_to_number s p 1
           | Zpos k => ratio_to_number s (p * 10 ^ k) 1
           | Zneg k => ratio_to_number s p (10 ^ k)
           end
  end.

(** *** parseFloat (ECMA-262 19.2.4)

    Strings are byte strings: the UTF-8 encoding of the JavaScript
    string. [parseFloat] skips the leading white space and line
    terminators of ECMA-262 12.2 and 12.3: the ASCII ones are one byte
    each, and beyond ASCII they are U+00A0 (two bytes) and U+1680,
    U+2000 to U+200A, U+2028, U+2029, U+202F, U+205F, U+3000 and U+FEFF
    (three bytes). *)

Definition is_white_space (c : ascii) : bool :=
  match nat_of_ascii c with
  | 9 | 10 | 11 | 12 | 13 | 32 => true
  | _ => false
  end.

(** U+00A0 is the bytes C2 A0. *)
Definition is_white_space2 (c1 c2 : ascii) : bool :=
  ((N_of_ascii c1 =? 194) && (N_of_ascii c2 =? 160))%N.

(** U+1680 is E1 9A 80; U+2000 to U+200A are E2 80 80 to E2 80 8A;
    U+2028, U+2029 and U+202F are E2 80 A8, E2 80 A9 and E2 80 AF;
    U+205F is E2 81 9F; U+3000 is E3 80 80; U+FEFF is EF BB BF. *)
Definition is_white_space3 (c1 c2 c3 : ascii) : bool :=
  let b1 := N_of_ascii c1 in
  let b2 := N_of_ascii c2 in
  let b3 := N_of_ascii c3 in
  (((b1 =? 225) && (b2 =? 154) && (b3 =? 128))
   || ((b1 =? 226) && (b2 =? 128)
       && (((128 <=? b3) && (b3 <=? 138))
           || (b3 =? 168) || (b3 =? 169) || (b3 =? 175)))
   || ((b1 =? 226) && (b2 =? 129) && (b3 =? 159))
   || ((b1 =? 227) && (b2 =? 128) && (b3 =? 128))
   || ((b1 =? 239) && (b2 =? 187) && (b3 =? 191)))%N.

Fixpoint trim_start (s : string) : string :=
  match s with
  | String c r =>
      if is_white_space c then trim_start r
      else
        match r with
        | String c2 r2 =>
            if is_white_space2 c c2 then trim_start r2
            else
              match r2 with
              | String c3 r3 =>
                  if is_white_space3 c c2 c3 then trim_start r3 else s
              | EmptyString => s
              end
        | EmptyString => s
        end
  | EmptyString => s
  end.

Definition digit_of_ascii (c : ascii) : option N :=
  let n := N_of_ascii c in
  if ((48 <=? n) && (n <=? 57))%N then Some (n - 48)%N else None.

(** Reads the longest run of decimal digits at the head of [s]: the
    accumulated value, the number of digits read, and the rest. *)
Fixpoint read_digits (s : string) (acc : N) (cnt : nat) : N * nat * string :=
  match s with
  | String c r =>
      match digit_of_ascii c with
      | Some d => read_digits r (acc * 10 + d)%N (S cnt)
      | None => (acc, cnt, s)
      end
  | EmptyString => (acc, cnt, s)
  end.

Definition read_sign (s : string) : bool * string :=
  match s with
  | String "+" r => (false, r)
  | String "-" r => (true, r)
  | _ => (false, s)
  end.

(** The value of an [ExponentPart] at the head of [s], 0 when there is
    none (an [e] that no digit follows is not part of the literal). *)
Definition read_exponent (s : string) : Z :=
  match s with
  | String c r =>
      if (Ascii.eqb c "e" || Ascii.eqb c "E")%bool then
        let '(neg, r') := read_sign r in
        let '(v, cnt, _) := read_digits r' 0%N 0 in
        match cnt with
        | O => 0%Z
        | S _ => if neg then (- Z.of_N v)%Z else Z.of_N v
        end
      else 0%Z
  | EmptyString => 0%Z
  end.

Definition parseFloat (input : string) : number :=
  let '(neg, s) := read_sign (trim_start input) in
  if String.prefix "Infinity" s then (if neg then neg_infinity else infinity)
  else
    let '(ip, ni, r1) := read_digits s 0%N 0 in
    match r1 with
    | String "." r2 =>
        let '(mant, n_all, r3) := read_digits r2 ip ni in
        match n_all with
        | O => nan
        | S _ =>
            decimal_to_number neg mant
              (read_exponent r3 - Z.of_nat (n_all - ni))
        end
    | _ =>
        match ni with
        | O => nan
        | S _ => decimal_to_number neg ip (read_exponent r1)
        end
    end.

(** *** Number.prototype.toString and toFixed (ECMA-262 6.1.6.1.20, 21.1.3.3) *)

Definition digits_of_pos (p : positive) : string :=
  NilEmpty.string_of_uint (Pos.to_uint p).

Definition digits_of_N (n : N) : string :=
  NilEmpty.string_of_uint (N.to_uint n).

Fixpoint zeros (n : nat) : string :=
  match n with
  | O => ""
  | S k => String "0" (zeros k)
  end.

Fixpoint take (n : nat) (s : string) : string :=
  match n, s with
  | S k, String c r => String c (take k r)
  | _, _ => ""
  end.

Fixpoint drop (n : nat) (s : string) : string :=
  match n, s with
  | S k, String _ r => drop k r
  | _, _ => s
  end.

Definition pos_part (z : Z) : Z := Z.max z 0.
Definition neg_part (z : Z) : Z := Z.max (- z) 0.

Section Shortest.

Local Open Scope Z_scope.

(** The finite double [m * 2^e], [m] its integral significand. *)
Variables (m : positive) (e : Z).

(** The reals that round to [m * 2^e] lie between the midpoints to its
    two neighbours; in units of [2^(e-2)] these are [lo4] and [hi4]. The
    lower neighbour is twice as close at a power of two. *)
Definition lo4 : Z :=
  if (Pos.eqb m 4503599627370496 && (-1074 <? e)%Z)%bool
  then 4 * Zpos m - 1 else 4 * Zpos m - 2.
Definition hi4 : Z := 4 * Zpos m + 2.
Definition mid_included : bool := Z.even (Zpos m).

(** [digits_at q]: the integer [s] with [s * 10^q] rounding to the
    double and nearest to it (an even [s] on a tie), if there is one. *)
Definition digits_at (q : Z) : option positive :=
  let scale := 2 ^ pos_part (e - 2) * 10 ^ neg_part q in
  let unit := 10 ^ pos_part q * 2 ^ neg_part (e - 2) in
  let A := lo4 * scale in
  let B := hi4 * scale in
  let X := 4 * Zpos m * scale in
  let s_min := if mid_included then (A + unit - 1) / unit else A / unit + 1 in
  let s_max := if mid_included then B / unit else (B + unit - 1) / unit - 1 in
  if s_min <=? s_max then
    let f := X / unit in
    let r2 := 2 * (X - f * unit) in
    let c := if r2 <? unit then f
             else if unit <? r2 then f + 1
             else if Z.even f then f else f + 1 in
    Some (Z.to_pos (Z.max s_min (Z.min s_max c)))
  else None.

(** The shortest digit string: the largest [q] that admits one. *)
Fixpoint shortest_from (fuel : nat) (q : Z) : positive * Z :=
  match fuel with
  | O => (m, e)
  | S fuel' =>
      match digits_at q with
      | Some s => (s, q)
      | None => shortest_from fuel' (q - 1)
      end
  end.

(** The search starts above every candidate: the upper midpoint is below
    [2^mag], so [10^q] with [q] beyond [mag * log10 2] is too large. It
    ends within 17 digits of there. *)
Definition q_start : Z :=
  let mag := Zpos (digits2_pos m) + e in
  (if 0 <=? mag then mag * 30103 / 100000 else mag * 30102 / 100000) + 1.

Definition shortest : positive * Z := shortest_from 64 q_start.

End Shortest.

(** The decimal rendering of the digits [s] (with [k] characters) scaled
    by [10^(n-k)]. *)
Definition format_digits (s : string) (n : Z) : string :=
  let k := Z.of_nat (String.length s) in
  if ((k <=? n)%Z && (n <=? 21)%Z)%bool then
    s ++ zeros (Z.to_nat (n - k))
  else if ((0 <? n)%Z && (n <=? 21)%Z)%bool then
    take (Z.to_nat n) s ++ "." ++ drop (Z.to_nat n) s
  else if ((-6 <? n)%Z && (n <=? 0)%Z)%bool then
    "0." ++ zeros (Z.to_nat (- n)) ++ s
  else
    let ex := (n - 1)%Z in
    let sign := if (ex <? 0)%Z then "-" else "+" in
    let mag := digits_of_N (Z.abs_N ex) in
    match s with
    | String d EmptyString => String d ("e" ++ sign ++ mag)
    | String d rest => String d ("." ++ rest ++ "e" ++ sign ++ mag)
    | EmptyString => ""
    end.

Definition toString_finite (m : positive) (e : Z) : string :=
  let '(s, q) := shortest m e in
  let ds := digits_of_pos s in
  format_digits ds (Z.of_nat (String.length ds) + q).

Definition toString (x : number) : string :=
  match Prim2SF x with
  | S754_nan => "NaN"
  | S754_zero _ => "0"
  | S754_infinity false => "Infinity"
  | S754_infinity true => "-Infinity"
  | S754_finite false m e => toString_finite m e
  | S754_finite true m e => "-" ++ toString_finite m e
  end.

(** [fixed_int m e f]: the integer [n] with [n / 10^f] nearest to
    [m * 2^e], the larger one when two are as near. *)
Definition fixed_int (m : positive) (e : Z) (f : nat) : N :=
  let p := (Zpos m * 10 ^ Z.of_nat f)%Z in
  match e with
  | Zneg k => Z.to_N ((2 * p + 2 ^ Zpos k) / 2 ^ (Zpos k + 1))
  | _ => Z.to_N (p * 2 ^ e)
  end.

Definition format_fixed (n : N) (f : nat) : string :=
  let ds := digits_of_N n in
  match f with
  | O => ds
  | S _ =>
      let k := String.length ds in
      let padded := zeros (S f - k) ++ ds in
      let k' := String.length padded in
      take (k' - f) padded ++ "." ++ drop (k' - f) padded
  end.

Definition ten_pow_21 : number := 1e21%float.

Definition toFixed (x : number) (f : nat) : string :=
  match Prim2SF x with
  | S754_nan => "NaN"
  | S754_zero _ => format_fixed 0 f
  | S754_infinity _ => toString x
  | S754_finite s m e =>
      if (abs x <? ten_pow_21)%float
      then (if s then "-" else "") ++ format_fixed (fixed_int m e f) f
      else toString x
  end.

End JSNumber.

(** ** JSON documents and [JSON.stringify(v, null, 2)] *)

Module JSON.

Import JSNumber.

(** JavaScript values that the handlers hand to [JSON.stringify]:
    objects keep their properties in insertion order. *)
#[local] Unset Elimination Schemes.

Inductive value : Type :=
| Undefined
| Null
| Bool (b : bool)
| Num (x : number)
| Str (s : string)
| Arr (items : list value)
| Obj (fields : list (string * value)).

#[local] Set Elimination Schemes.

(** Induction that reaches the items of an array and the property values
    of an object. *)
Fixpoint value_ind (P : value -> Prop)
  (HU : P Undefined) (HN : P Null) (HB : forall b, P (Bool b))
  (HX : forall x, P (Num x)) (HS : forall s, P (Str s))
  (HA : forall items, Forall P items -> P (Arr items))
  (HO : forall fields, Forall (fun kv => P (snd kv)) fields -> P (Obj fields))
  (v : value) {struct v} : P v :=
  match v with
  | Undefined => HU
  | Null => HN
  | Bool b => HB b
  | Num x => HX x
  | Str s => HS s
  | Arr items =>
      HA items
        ((fix go (l : list value) : Forall P l :=
            match l with
            | [] => Forall_nil P
            | x :: r =>
                Forall_cons x (value_ind P HU HN HB HX HS HA HO x) (go r)
            end) items)
  | Obj fields =>
      HO fields
        ((fix go (l : list (string * value))
            : Forall (fun kv => P (snd kv)) l :=
            match l with
            | [] => Forall_nil _
            | kv :: r =>
                Forall_cons kv
                  (value_ind P HU HN HB HX HS HA HO (snd kv)) (go r)
            end) fields)
  end.

Definition dquote : ascii := "034"%char.
Definition backslash : ascii := "092"%char.
Definition newline : ascii := "010"%char.
Definition nl : string := String newline "".

Definition hex_digit (n : N) : ascii :=
  ascii_of_N (if (n <? 10)%N then 48 + n else 87 + n).

(** [QuoteJSONString] on one character. *)
Definition escape_char (c : ascii) : string :=
  let n := N_of_ascii c in
  match n with
  | 8%N => String backslash "b"
  | 9%N => String backslash "t"
  | 10%N => String backslash "n"
  | 12%N => String backslash "f"
  | 13%N => String backslash "r"
  | 34%N => String backslash (String dquote "")
  | 92%N => String backslash (String backslash "")
  | _ =>
      if (n <? 32)%N then
        String backslash
          (String "u" (String "0" (String "0"
             (String (hex_digit (n / 16)) (String (hex_digit (n mod 16)) "")))))
      else String c ""
  end.

Fixpoint escape (s : string) : string :=
  match s with
  | EmptyString => ""
  | String c r => escape_char c ++ escape r
  end.

Definition quote (s : string) : string :=
  String dquote (escape s ++ String dquote "").

Definition gap : string := "  ".

(** [x1 sep x2 sep ... xn] *)
Fixpoint join (sep : string) (l : list string) : string :=
  match l with
  | [] => ""
  | [x] => x
  | x :: r => x ++ sep ++ join sep r
  end.

Definition wrap (open close indent : string) (parts : list string) : string :=
  match parts with
  | [] => open ++ close
  | _ =>
      let inner := indent ++ gap in
      open ++ nl ++ inner ++ join ("," ++ nl ++ inner) parts
           ++ nl ++ indent ++ close
  end.

Definition member (key text : string) : string := quote key ++ ": " ++ text.

(** [SerializeJSONProperty]: [None] is the result [undefined]. A property
    whose value serialises to [undefined] is left out of its object; in an
    array it is written [null]. *)
Fixpoint serialize (indent : string) (v : value) : option string :=
  match v with
  | Undefined => None
  | Null => Some "null"
  | Bool b => Some (if b then "true" else "false")
  | Num x => Some (if is_finite x then toString x else "null")
  | Str s => Some (quote s)
  | Arr items =>
      Some (wrap "[" "]" indent
              (map (fun item =>
                      match serialize (indent ++ gap) item with
                      | Some text => text
                      | None => "null"
                      end) items))
  | Obj fields =>
      Some (wrap "{" "}" indent
              (flat_map (fun kv =>
                           match serialize (indent ++ gap) (snd kv) with
                           | Some text => [member (fst kv) text]
                           | None => []
                           end) fields))
  end.

(** [JSON.stringify(v, null, 2)] for an object or array [v]. *)
Definition stringify (v : value) : string :=
  match serialize "" v with
  | Some text => text
  | None => "undefined"
  end.

(** *** The JSON grammar (RFC 8259) *)

Definition is_digit (c : ascii) : bool :=
  let n := N_of_ascii c in ((48 <=? n) && (n <=? 57))%N.

Definition is_hex (c : ascii) : bool :=
  let n := N_of_ascii c in
  (((48 <=? n) && (n <=? 57)) || ((97 <=? n) && (n <=? 102))
   || ((65 <=? n) && (n <=? 70)))%N.

Fixpoint all_digits (s : string) : bool :=
  match s with
  | EmptyString => true
  | String c r => is_digit c && all_digits r
  end.

Definition is_ws_char (c : ascii) : bool :=
  let n := N_of_ascii c in
  ((n =? 32) || (n =? 9) || (n =? 10) || (n =? 13))%N.

Fixpoint json_ws (s : string) : bool :=
  match s with
  | EmptyString => true
  | String c r => is_ws_char c && json_ws r
  end.

(** int = zero / ( digit1-9 *DIGIT ) *)
Definition json_int (s : string) : bool :=
  match s with
  | EmptyString => false
  | String c r =>
      if Ascii.eqb c "0" then String.eqb r "" else is_digit c && all_digits r
  end.

(** frac = decimal-point 1*DIGIT, or nothing *)
Definition json_frac (s : string) : bool :=
  match s with
  | EmptyString => true
  | String c r =>
      Ascii.eqb c "." && negb (String.eqb r "") && all_digits r
  end.

(** exp = e [ minus / plus ] 1*DIGIT, or nothing *)
Definition json_exp (s : string) : bool :=
  match s with
  | EmptyString => true
  | String c r =>
      (Ascii.eqb c "e" || Ascii.eqb c "E") &&
      match r with
      | String sg d =>
          if (Ascii.eqb sg "+" || Ascii.eqb sg "-")%bool
          then negb (String.eqb d "") && all_digits d
          else all_digits r
      | EmptyString => false
      end
  end.

(** number = [ minus ] int [ frac ] [ exp ] *)
Inductive json_number : string -> Prop :=
| jn_parts (neg : bool) (i f e : string) :
    json_int i = true -> json_frac f = true -> json_exp e = true ->
    json_number ((if neg then "-" else "") ++ i ++ f ++ e).

Definition escapable : list ascii :=
  [dquote; backslash; "/"; "b"; "f"; "n"; "r"; "t"]%char.

Inductive json_chars : string -> Prop :=
| jc_nil : json_chars ""
| jc_plain c s :
    (32 <= N_of_ascii c)%N -> c <> dquote -> c <> backslash ->
    json_chars s -> json_chars (String c s)
| jc_escape c s :
    In c escapable -> json_chars s ->
    json_chars (String backslash (String c s))
| jc_unicode h1 h2 h3 h4 s :
    is_hex h1 = true -> is_hex h2 = true ->
    is_hex h3 = true -> is_hex h4 = true -> json_chars s ->
    json_chars
      (String backslash
         (String "u" (String h1 (String h2 (String h3 (String h4 s)))))).

Inductive json_string : string -> Prop :=
| js_quoted body :
    json_chars body -> json_string (String dquote (body ++ String dquote "")).

Inductive json_value : string -> Prop :=
| jv_null : json_value "null"
| jv_true : json_value "true"
| jv_false : json_value "false"
| jv_number s : json_number s -> json_value s
| jv_string s : json_string s -> json_value s
| jv_array_empty w : json_ws w = true -> json_value ("[" ++ w ++ "]")
| jv_array body : json_elements body -> json_value ("[" ++ body ++ "]")
| jv_object_empty w : json_ws w = true -> json_value ("{" ++ w ++ "}")
| jv_object body : json_members body -> json_value ("{" ++ body ++ "}")
with json_elements : string -> Prop :=
| je_last w1 v w2 :
    json_ws w1 = true -> json_value v -> json_ws w2 = true ->
    json_elements (w1 ++ v ++ w2)
| je_more w1 v w2 rest :
    json_ws w1 = true -> json_value v -> json_ws w2 = true ->
    json_elements rest ->
    json_elements (w1 ++ v ++ w2 ++ "," ++ rest)
with json_members : string -> Prop :=
| jm_last w1 k w2 w3 v w4 :
    json_ws w1 = true -> json_string k -> json_ws w2 = true ->
    json_ws w3 = true -> json_value v -> json_ws w4 = true ->
    json_members (w1 ++ k ++ w2 ++ ":" ++ w3 ++ v ++ w4)
| jm_more w1 k w2 w3 v w4 rest :
    json_ws w1 = true -> json_string k -> json_ws w2 = true ->
    json_ws w3 = true -> json_value v -> json_ws w4 = true ->
    json_members rest ->
    json_members (w1 ++ k ++ w2 ++ ":" ++ w3 ++ v ++ w4 ++ "," ++ rest).

(** JSON-text = ws value ws *)
Inductive json_text : string -> Prop :=
| jt_value w1 v w2 :
    json_ws w1 = true -> json_value v -> json_ws w2 = true ->
    json_text (w1 ++ v ++ w2).

End JSON.

(** ** Exceptions

    A thrown value is an [Error] carrying its message, or something else;
    an async function that rejects is a function that throws. *)

Inductive thrown : Type :=
| Error (message : string)
| NotAnError.

Inductive result (A : Type) : Type :=
| Ok (a : A)
| Throw (e : thrown).

Arguments Ok {A} a.
Arguments Throw {A} e.

Definition bind {A B : Type} (r : result A) (k : A -> result B) : result B :=
  match r with
  | Ok a => k a
  | Throw e => Throw e
  end.

(** [try { body } catch (error) { handler(error) }] *)
Definition try_catch {A : Type} (body : result A) (handler : thrown -> result A)
  : result A :=
  match body with
  | Ok a => Ok a
  | Throw e => handler e
  end.

Notation "x <- c1 ;; c2" := (bind c1 (fun x => c2))
  (at level 61, c1 at next level, right associativity).

(** [error instanceof Error ? error.message : 'Unknown error'] *)
Definition error_message (e : thrown) : string :=
  match e with
  | Error message => message
  | NotAnError => "Unknown error"
  end.

(** ** JavaScript idioms shared by the clients and the server *)

Module JS.

Import JSNumber.

(** A [string] argument that the caller may have left [undefined]. *)
Definition truthy (s : option string) : bool :=
  match s with
  | Some (String _ _) => true
  | _ => false
  end.

(** [s || fallback] *)
Definition or_default (s : option string) (fallback : string) : string :=
  match s with
  | Some (String c r) => String c r
  | _ => fallback
  end.

(** [parseFloat(s)] when [s] may be [undefined], which reads as the
    string ["undefined"]. *)
Definition parseFloat_arg (s : option string) : number :=
  parseFloat (match s with Some t => t | None => "undefined" end).

(** [a === b] for a string [a] and a possibly undefined [b]. *)
Definition strict_eq (a : string) (b : option string) : bool :=
  match b with
  | Some t => String.eqb a t
  | None => false
  end.

(** [a === b] when either side may be [undefined]. *)
Definition strict_eq_opt (a b : option string) : bool :=
  match a, b with
  | Some s, Some t => String.eqb s t
  | None, None => true
  | _, _ => false
  end.

(** A parameter with a default value: [undefined] takes the default. *)
Definition default_param (s : option string) (d : string) : string :=
  match s with
  | Some t => t
  | None => d
  end.

(** [array.length] as a number. *)
Definition number_of_nat (n : nat) : number :=
  decimal_to_number false (N.of_nat n) 0.

End JS.

(** ** Horizon: the account record that [loadAccount] resolves to *)

Module Horizon.

Record BalanceLine : Type := {
  asset_type : string;
  balance : string;
  liquidity_pool_id : option string;
  asset_code : option string;
  asset_issuer : option string
}.

End Horizon.

(** ** src/soroswap-client.ts *)

Module Soroswap.

Import JSNumber JS.
Local Open Scope float_scope.

(** [address] is a [string] in the interface; the quote echoes the caller's
    [tokenIn] and [tokenOut] there, which an unvalidated request may leave
    undefined. *)
Record SoroswapToken : Type := {
  address : option string;
  symbol : string;
  name : string;
  decimals : number;
  icon : option string
}.

Record SoroswapPair : Type := {
  pairAddress : string;
  token0 : SoroswapToken;
  token1 : SoroswapToken;
  reserve0 : string;
  reserve1 : string;
  totalSupply : string;
  fee : string;
  volume24h : option string;
  tvl : option string;
  apr : option string
}.

Record SoroswapQuote : Type := {
  tokenIn : SoroswapToken;
  tokenOut : SoroswapToken;
  amountIn : option string;
  amountOut : string;
  priceImpact : string;
  route : list (option string);
  slippage : string;
  quote_fee : string;
  minimumReceived : string;
  gasEstimate : option string
}.

(** The elements of the [any[]] that [getUserPositions] resolves to. *)
Record Position : Type := {
  pos_pairAddress : option string;
  pos_token0 : option string;
  pos_token1 : option string;
  lpTokenBalance : option string;
  shareOfPool : option string;
  token0Amount : option string;
  token1Amount : option string;
  value : option string;
  pnl : option string;
  pnlPercent : option string
}.

(** What the client reaches over the network: the Soroswap API through
    axios (a failed request, a timeout or a non-2xx status throws) and
    Horizon. [api_pairs] answers with [response.data.pairs]. *)
Record Backend : Type := {
  api_pairs : option string -> result (option (list SoroswapPair));
  api_quote :
    option string -> option string -> option string -> string ->
    result SoroswapQuote;
  loadAccount : option string -> result (list Horizon.BalanceLine)
}.

Definition XLM : SoroswapToken :=
  {| address := Some "native"; symbol := "XLM"; name := "Stellar Lumens";
     decimals := 7; icon := None |}.

Definition mockPairs : list SoroswapPair :=
  [ {| pairAddress := "CDLZFC3SYJYDZT7K67VZ75HPJVIEUVNIXF47ZG2FB2RMQQAHHAGHJMUOB";
       token0 := XLM;
       token1 :=
         {| address :=
              Some "CAQCFVLOBK5GIULPNZRGATJJMIZL5BSP7X5YJNU4TKDGSR3RCNBFIW7A";
            symbol := "USDC"; name := "USD Coin"; decimals := 6;
            icon := None |};
       reserve0 := "1000000.0000000";
       reserve1 := "120000.000000";
       totalSupply := "346410.1610000";
       fee := "0.3";
       volume24h := Some "125000";
       tvl := Some "240000";
       apr := Some "12.5" |};
    {| pairAddress := "CAZNWAY5GKNZUY5QFPZJQY7JXDLWNXKXFKQ3KBQPG7QJLCZ7XQMDMCGL";
       token0 := XLM;
       token1 :=
         {| address :=
              Some "CAQCFVLOBK5GIULPNZRGATJJMIZL5BSP7X5YJNU4TKDGSR3RCNBFIW7A";
            symbol := "AQUA"; name := "Aqua Token"; decimals := 7;
            icon := None |};
       reserve0 := "800000.0000000";
       reserve1 := "2500000.0000000";
       totalSupply := "1414213.5620000";
       fee := "0.3";
       volume24h := Some "85000";
       tvl := Some "170000";
       apr := Some "18.2" |} ].

(** The predicate of the [filter] in [getMockTokenPairs]. *)
Definition pair_matches (token : option string) (pair : SoroswapPair) : bool :=
  strict_eq (symbol (token0 pair)) token
  || strict_eq (symbol (token1 pair)) token
  || strict_eq_opt (address (token0 pair)) token
  || strict_eq_opt (address (token1 pair)) token.

Definition getMockTokenPairs (token : option string) : list SoroswapPair :=
  if truthy token then filter (pair_matches token) mockPairs else mockPairs.

Definition getMockSwapQuote
  (tokenIn tokenOut amountIn : option string) (slippage : string)
  : SoroswapQuote :=
  {| tokenIn :=
       {| address := tokenIn; symbol := "XLM"; name := "Stellar Lumens";
          decimals := 7; icon := None |};
     tokenOut :=
       {| address := tokenOut; symbol := "USDC"; name := "USD Coin";
          decimals := 6; icon := None |};
     amountIn := amountIn;
     amountOut := toFixed (parseFloat_arg amountIn * 0.12 * 0.997) 6%nat;
     priceImpact := "0.1";
     route := [tokenIn; tokenOut];
     slippage := slippage;
     quote_fee := "0.3";
     minimumReceived :=
       toFixed
         (parseFloat_arg amountIn * 0.12 * 0.997
          * (1 - parseFloat slippage / 100)) 6%nat;
     gasEstimate := Some "0.001" |}.

Definition getMockUserPositions (userAddress : option string) : list Position :=
  [ {| pos_pairAddress :=
         Some "CDLZFC3SYJYDZT7K67VZ75HPJVIEUVNIXF47ZG2FB2RMQQAHHAGHJMUOB";
       pos_token0 := Some "XLM";
       pos_token1 := Some "USDC";
       lpTokenBalance := Some "1000.0000000";
       shareOfPool := Some "0.01";
       token0Amount := Some "8333.3333333";
       token1Amount := Some "1000.000000";
       value := Some "2000.00";
       pnl := Some "100.00";
       pnlPercent := Some "5.0" |} ].

Section Client.

Variable net : Backend.

Definition getTokenPairs (token : option string) : result (list SoroswapPair) :=
  try_catch
    (pairs <- api_pairs net (if truthy token then token else None) ;;
     Ok (match pairs with
         | Some l => l
         | None => []
         end))
    (fun _ => Ok (getMockTokenPairs token)).

Definition getSwapQuote
  (tokenIn tokenOut amountIn slippage : option string) : result SoroswapQuote :=
  let slippage := default_param slippage "0.5" in
  try_catch
    (api_quote net tokenIn tokenOut amountIn slippage)
    (fun _ => Ok (getMockSwapQuote tokenIn tokenOut amountIn slippage)).

Definition getUserPositions (userAddress : option string)
  : result (list Position) :=
  try_catch
    (balances <- loadAccount net userAddress ;;
     let lpPositions :=
       filter (fun b =>
                 String.eqb (Horizon.asset_type b) "liquidity_pool_shares")
              balances in
     Ok (map (fun position =>
                {| pos_pairAddress := Horizon.liquidity_pool_id position;
                   pos_token0 := None;
                   pos_token1 := None;
                   lpTokenBalance := Some (Horizon.balance position);
                   shareOfPool := None;
                   token0Amount := None;
                   token1Amount := None;
                   value := None;
                   pnl := None;
                   pnlPercent := None |})
             lpPositions))
    (fun _ => Ok (getMockUserPositions userAddress)).

End Client.

End Soroswap.

(** ** src/defindex-client.ts *)

Module Defindex.

Import JSNumber JS.
Local Open Scope float_scope.

Inductive RiskLevel : Type := low | medium | high.

Definition risk_string (r : RiskLevel) : string :=
  match r with
  | low => "low"
  | medium => "medium"
  | high => "high"
  end.

Record FeeStructure : Type := {
  managementFee : string;
  performanceFee : string
}.

(** The [performance] object, keyed ['7d'], ['30d'], ['90d'] and ['1y']. *)
Record Performance : Type := {
  perf_7d : string;
  perf_30d : string;
  perf_90d : string;
  perf_1y : string
}.

Record DefindexVault : Type := {
  address : string;
  name : string;
  symbol : string;
  totalAssets : string;
  totalSupply : string;
  apy : string;
  strategy : string;
  riskLevel : RiskLevel;
  underlyingTokens : list string;
  underlyingProtocols : list string;
  feeStructure : FeeStructure;
  performance : option Performance
}.

Record DefindexPosition : Type := {
  pos_vaultAddress : string;
  pos_vaultName : string;
  shares : string;
  underlyingValue : string;
  entryPrice : string;
  currentPrice : string;
  pnl : string;
  pnlPercent : string;
  depositedAt : string
}.

Record DefindexAllocation : Type := {
  vaultAddress : string;
  vaultName : string;
  allocation : string;
  amount : string;
  expectedApy : string;
  alloc_riskLevel : RiskLevel
}.

(** The object under [optimization] that [optimizeYieldAllocation]
    resolves to. *)
Record Optimization : Type := {
  totalAmount : option string;
  riskTolerance : option string;
  timeHorizon : string;
  recommendedAllocation : list DefindexAllocation;
  expectedPortfolioApy : string;
  diversificationScore : string
}.

Record Fees : Type := {
  depositFee : string;
  fee_management : string;
  fee_performance : string
}.

(** The object under [calculation] that [calculateVaultDeposit] resolves
    to. *)
Record Calculation : Type := {
  calc_vaultAddress : option string;
  depositAmount : option string;
  timeframe : string;
  expectedShares : string;
  projectedValue : string;
  projectedYield : string;
  fees : Fees
}.

Record Backend : Type := {
  api_vaults :
    option string -> option string -> result (option (list DefindexVault));
  api_vault : option string -> result (option DefindexVault);
  api_calculate :
    option string -> option string -> string -> result Calculation;
  api_positions : option string -> result (option (list DefindexPosition));
  api_optimize : option string -> option string -> string -> result Optimization;
  loadAccount : option string -> result (list Horizon.BalanceLine)
}.

Definition mockVaults : list DefindexVault :=
  [ {| address := "CBQHNAXSI55GX2GN6D67GK7BHKQKQHX4J5DYKEN6PKVP7DTCMMY7XAQD";
       name := "Stellar Stable Yield Vault";
       symbol := "SSYV";
       totalAssets := "1000000.0000000";
       totalSupply := "950000.0000000";
       apy := "8.5";
       strategy := "USDC-XLM Liquidity Mining on Soroswap";
       riskLevel := low;
       underlyingTokens := ["USDC"; "XLM"];
       underlyingProtocols := ["Soroswap"];
       feeStructure := {| managementFee := "1.0"; performanceFee := "10.0" |};
       performance :=
         Some {| perf_7d := "0.15"; perf_30d := "0.68"; perf_90d := "2.1";
                 perf_1y := "8.5" |} |};
    {| address := "CDLZFC3SYJYDZT7K67VZ75HPJVIEUVNIXF47ZG2FB2RMQQAHHAGHJMUOB";
       name := "Balanced Growth Vault";
       symbol := "BGV";
       totalAssets := "500000.0000000";
       totalSupply := "480000.0000000";
       apy := "15.2";
       strategy := "Multi-Protocol Yield Farming";
       riskLevel := medium;
       underlyingTokens := ["XLM"; "USDC"; "AQUA"];
       underlyingProtocols := ["Soroswap"; "Stellar DEX"];
       feeStructure := {| managementFee := "1.5"; performanceFee := "15.0" |};
       performance :=
         Some {| perf_7d := "0.25"; perf_30d := "1.2"; perf_90d := "3.8";
                 perf_1y := "15.2" |} |};
    {| address := "CAZNWAY5GKNZUY5QFPZJQY7JXDLWNXKXFKQ3KBQPG7QJLCZ7XQMDMCGL";
       name := "High Yield Vault";
       symbol := "HYV";
       totalAssets := "250000.0000000";
       totalSupply := "230000.0000000";
       apy := "25.7";
       strategy := "Leveraged Yield Farming";
       riskLevel := high;
       underlyingTokens := ["XLM"; "AQUA"];
       underlyingProtocols := ["Soroswap"; "Lending Protocol"];
       feeStructure := {| managementFee := "2.0"; performanceFee := "20.0" |};
       performance :=
         Some {| perf_7d := "0.45"; perf_30d := "2.0"; perf_90d := "6.4";
                 perf_1y := "25.7" |} |} ].

Definition getMockVaults (riskLevel' minApy : option string)
  : list DefindexVault :=
  let filteredVaults := mockVaults in
  let filteredVaults :=
    if truthy riskLevel'
    then filter (fun vault => strict_eq (risk_string (riskLevel vault)) riskLevel')
                filteredVaults
    else filteredVaults in
  let filteredVaults :=
    if truthy minApy
    then filter (fun vault => parseFloat_arg minApy <=? parseFloat (apy vault))
                filteredVaults
    else filteredVaults in
  filteredVaults.

(** [mockVaults.find(...) || mockVaults[0]]; [None] is [undefined]. *)
Definition getMockVaultDetails (vaultAddress' : option string)
  : option DefindexVault :=
  let mockVaults := getMockVaults None None in
  match find (fun vault => strict_eq (address vault) vaultAddress') mockVaults with
  | Some vault => Some vault
  | None => nth_error mockVaults 0
  end.

Definition apyMultiplier (timeframe' : string) : number :=
  if String.eqb timeframe' "1y" then 1
  else if String.eqb timeframe' "6m" then 0.5 else 0.25.

(** Reading a property of [undefined] throws a [TypeError]. *)
Definition getMockDepositCalculation
  (vaultAddress' depositAmount' : option string) (timeframe' : string)
  : result Calculation :=
  match getMockVaultDetails vaultAddress' with
  | None =>
      Throw (Error "Cannot read properties of undefined (reading 'apy')")
  | Some vault =>
      let apyMultiplier := apyMultiplier timeframe' in
      Ok {| calc_vaultAddress := vaultAddress';
            depositAmount := depositAmount';
            timeframe := timeframe';
            expectedShares := toString (parseFloat_arg depositAmount' * 0.95);
            projectedValue :=
              toString
                (parseFloat_arg depositAmount'
                 * (1 + parseFloat (apy vault) / 100 * apyMultiplier));
            projectedYield :=
              toString
                (parseFloat_arg depositAmount' * parseFloat (apy vault) / 100
                 * apyMultiplier);
            fees :=
              {| depositFee := "0";
                 fee_management :=
                   toString
                     (parseFloat_arg depositAmount'
                      * parseFloat (managementFee (feeStructure vault)) / 100);
                 fee_performance :=
                   toString
                     (parseFloat_arg depositAmount' * parseFloat (apy vault)
                      / 100
                      * parseFloat (performanceFee (feeStructure vault))
                      / 100) |} |}
  end.

Definition getMockUserPositions (userAddress : option string)
  : list DefindexPosition :=
  [ {| pos_vaultAddress :=
         "CBQHNAXSI55GX2GN6D67GK7BHKQKQHX4J5DYKEN6PKVP7DTCMMY7XAQD";
       pos_vaultName := "Stellar Stable Yield Vault";
       shares := "5000.0000000";
       underlyingValue := "5200.0000000";
       entryPrice := "1.0000000";
       currentPrice := "1.0400000";
       pnl := "200.0000000";
       pnlPercent := "4.0";
       depositedAt := "2024-01-01T00:00:00Z" |};
    {| pos_vaultAddress :=
         "CDLZFC3SYJYDZT7K67VZ75HPJVIEUVNIXF47ZG2FB2RMQQAHHAGHJMUOB";
       pos_vaultName := "Balanced Growth Vault";
       shares := "4500.0000000";
       underlyingValue := "4800.0000000";
       entryPrice := "1.0000000";
       currentPrice := "1.0667000";
       pnl := "300.0000000";
       pnlPercent := "6.67";
       depositedAt := "2024-01-15T00:00:00Z" |} ].

(** One [allocations.push({...})]. *)
Definition allot (totalAmount' : option string) (vault_address vault_name : string)
  (percent : string) (fraction : number) (apy' : string) (risk : RiskLevel)
  : DefindexAllocation :=
  {| vaultAddress := vault_address;
     vaultName := vault_name;
     allocation := percent;
     amount := toString (parseFloat_arg totalAmount' * fraction);
     expectedApy := apy';
     alloc_riskLevel := risk |}.

Definition stable_address : string :=
  "CBQHNAXSI55GX2GN6D67GK7BHKQKQHX4J5DYKEN6PKVP7DTCMMY7XAQD".
Definition balanced_address : string :=
  "CDLZFC3SYJYDZT7K67VZ75HPJVIEUVNIXF47ZG2FB2RMQQAHHAGHJMUOB".
Definition high_yield_address : string :=
  "CAZNWAY5GKNZUY5QFPZJQY7JXDLWNXKXFKQ3KBQPG7QJLCZ7XQMDMCGL".

Definition getMockOptimization
  (totalAmount' riskTolerance' : option string) (timeHorizon' : string)
  : Optimization :=
  let allocations :=
    if strict_eq "conservative" riskTolerance' then
      [ allot totalAmount' stable_address "Stellar Stable Yield Vault"
          "70" 0.7 "8.5" low;
        allot totalAmount' balanced_address "Balanced Growth Vault"
          "30" 0.3 "15.2" medium ]
    else if strict_eq "moderate" riskTolerance' then
      [ allot totalAmount' stable_address "Stellar Stable Yield Vault"
          "50" 0.5 "8.5" low;
        allot totalAmount' balanced_address "Balanced Growth Vault"
          "50" 0.5 "15.2" medium ]
    else (* aggressive *)
      [ allot totalAmount' stable_address "Stellar Stable Yield Vault"
          "30" 0.3 "8.5" low;
        allot totalAmount' balanced_address "Balanced Growth Vault"
          "40" 0.4 "15.2" medium;
        allot totalAmount' high_yield_address "High Yield Vault"
          "30" 0.3 "25.7" high ] in
  let expectedPortfolioApy :=
    fold_left
      (fun sum allocation' =>
         sum + parseFloat (allocation allocation') / 100
               * parseFloat (expectedApy allocation'))
      allocations 0 in
  {| totalAmount := totalAmount';
     riskTolerance := riskTolerance';
     timeHorizon := timeHorizon';
     recommendedAllocation := allocations;
     expectedPortfolioApy := toFixed expectedPortfolioApy 2%nat;
     diversificationScore := "85" |}.

Section Client.

Variable net : Backend.

(** [new Date().toISOString()] at the time of the call. *)
Variable now : string.

Definition param (s : option string) : option string :=
  if truthy s then s else None.

Definition getAvailableVaults (riskLevel' minApy : option string)
  : result (list DefindexVault) :=
  try_catch
    (vaults <- api_vaults net (param riskLevel') (param minApy) ;;
     Ok (match vaults with
         | Some l => l
         | None => []
         end))
    (fun _ => Ok (getMockVaults riskLevel' minApy)).

Definition getVaultDetails (vaultAddress' : option string)
  : result (option DefindexVault) :=
  try_catch
    (api_vault net vaultAddress')
    (fun _ => Ok (getMockVaultDetails vaultAddress')).

Definition calculateVaultDeposit
  (vaultAddress' depositAmount' timeframe' : option string)
  : result Calculation :=
  let timeframe' := default_param timeframe' "1y" in
  try_catch
    (api_calculate net vaultAddress' depositAmount' timeframe')
    (fun _ => getMockDepositCalculation vaultAddress' depositAmount' timeframe').

Definition getUserPositions (userAddress : option string)
  : result (list DefindexPosition) :=
  try_catch
    (positions <- api_positions net userAddress ;;
     Ok (match positions with
         | Some l => l
         | None => []
         end))
    (fun _ =>
       try_catch
         (balances <- loadAccount net userAddress ;;
          let vaultPositions :=
            filter (fun b =>
                      String.eqb (Horizon.asset_type b) "credit_alphanum4"
                      || String.eqb (Horizon.asset_type b) "credit_alphanum12")
                   balances in
          Ok (map (fun position =>
                     {| pos_vaultAddress :=
                          or_default (Horizon.asset_issuer position) "unknown";
                        pos_vaultName :=
                          match Horizon.asset_code position with
                          | Some code => code
                          | None => "undefined"
                          end ++ " Vault";
                        shares := Horizon.balance position;
                        underlyingValue := Horizon.balance position;
                        entryPrice := "1.0";
                        currentPrice := "1.0";
                        pnl := "0";
                        pnlPercent := "0";
                        depositedAt := now |})
                  vaultPositions))
         (fun _ => Ok (getMockUserPositions userAddress))).

Definition optimizeYieldAllocation
  (totalAmount' riskTolerance' timeHorizon' : option string)
  : result Optimization :=
  let timeHorizon' := default_param timeHorizon' "1y" in
  try_catch
    (api_optimize net totalAmount' riskTolerance' timeHorizon')
    (fun _ => Ok (getMockOptimization totalAmount' riskTolerance' timeHorizon')).

End Client.

End Defindex.

(** ** src/index.ts: the combined server *)

Module Server.

Import JSNumber JS JSON.
Local Open Scope float_scope.

(** *** The tool catalog ([ListToolsRequestSchema]) *)

Inductive ParamType : Type := TString | TBoolean.

Record Property : Type := {
  prop_name : string;
  prop_type : ParamType;
  prop_enum : list string;
  prop_description : string;
  prop_default : option value
}.

Record Tool : Type := {
  tool_name : string;
  description : string;
  properties : list Property;
  required : list string
}.

Definition prop (n : string) (d : string) : Property :=
  {| prop_name := n; prop_type := TString; prop_enum := [];
     prop_description := d; prop_default := None |}.

Definition prop_with_default (n : string) (d : string) (v : string) : Property :=
  {| prop_name := n; prop_type := TString; prop_enum := [];
     prop_description := d; prop_default := Some (Str v) |}.

Definition prop_enumerated (n : string) (e : list string) (d : string) : Property :=
  {| prop_name := n; prop_type := TString; prop_enum := e;
     prop_description := d; prop_default := None |}.

(** [s] between double quotes. *)
Definition quoted (s : string) : string :=
  String dquote (s ++ String dquote "").

Definition tools : list Tool :=
  [ {| tool_name := "soroswap_get_token_pairs";
       description := "Get available trading pairs on Soroswap";
       properties := [ prop "token" "Optional token address to filter pairs" ];
       required := [] |};
    {| tool_name := "soroswap_get_swap_quote";
       description := "Get a quote for swapping tokens on Soroswap";
       properties :=
         [ prop "tokenIn" "Input token address";
           prop "tokenOut" "Output token address";
           prop "amountIn" "Amount to swap in";
           prop_with_default "slippage"
             ("Slippage tolerance (e.g., " ++ quoted "0.5" ++ " for 0.5%)")
             "0.5" ];
       required := ["tokenIn"; "tokenOut"; "amountIn"] |};
    {| tool_name := "soroswap_get_liquidity_pools";
       description := "Get Soroswap liquidity pool information";
       properties :=
         [ prop "pairAddress" "Optional pair address to get specific pool info" ];
       required := [] |};
    {| tool_name := "soroswap_get_token_price";
       description := "Get current token price from Soroswap";
       properties :=
         [ prop "tokenAddress" "Token address to get price for";
           prop_with_default "baseCurrency" "Base currency (USD, XLM, etc.)"
             "USD" ];
       required := ["tokenAddress"] |};
    {| tool_name := "defindex_get_vaults";
       description := "Get available DeFindex yield vaults";
       properties :=
         [ prop_enumerated "riskLevel" ["low"; "medium"; "high"]
             "Filter by risk level";
           prop "minApy" "Minimum APY percentage" ];
       required := [] |};
    {| tool_name := "defindex_get_vault_details";
       description := "Get detailed information about a DeFindex vault";
       properties := [ prop "vaultAddress" "Vault contract address" ];
       required := ["vaultAddress"] |};
    {| tool_name := "defindex_optimize_allocation";
       description := "Get optimal yield allocation across DeFindex vaults";
       properties :=
         [ prop "totalAmount" "Total amount to allocate";
           prop_enumerated "riskTolerance"
             ["conservative"; "moderate"; "aggressive"] "Risk tolerance level";
           prop_with_default "timeHorizon"
             ("Investment time horizon (e.g., " ++ quoted "6m" ++ ", "
              ++ quoted "1y" ++ ", " ++ quoted "2y" ++ ")")
             "1y" ];
       required := ["totalAmount"; "riskTolerance"] |};
    {| tool_name := "combined_portfolio_analysis";
       description :=
         "Analyze portfolio across both Soroswap and DeFindex positions";
       properties :=
         [ prop "userAddress" "User wallet address";
           {| prop_name := "includeRecommendations"; prop_type := TBoolean;
              prop_enum := [];
              prop_description := "Include optimization recommendations";
              prop_default := Some (Bool true) |} ];
       required := ["userAddress"] |} ].

(** The names a client may invoke. *)
Definition tool_names : list string := map tool_name tools.

(** *** Requests and results *)

(** [request.params.arguments], read at the types the input schemas
    declare; [None] is a property the caller left out. *)
Record Arguments : Type := {
  token : option string;
  tokenIn : option string;
  tokenOut : option string;
  amountIn : option string;
  slippage : option string;
  pairAddress : option string;
  tokenAddress : option string;
  baseCurrency : option string;
  riskLevel : option string;
  minApy : option string;
  vaultAddress : option string;
  totalAmount : option string;
  riskTolerance : option string;
  timeHorizon : option string;
  userAddress : option string;
  includeRecommendations : option bool
}.

(** [args?.field]: [args] itself may be undefined. *)
Definition arg {A : Type} (args : option Arguments)
  (field : Arguments -> option A) : option A :=
  match args with
  | Some a => field a
  | None => None
  end.

Record Content : Type := {
  type : string;
  text : string
}.

(** [isError] is [None] where the handler returns no such property. *)
Record ToolResult : Type := {
  content : list Content;
  isError : option bool
}.

(** What the process reads from its surroundings: the environment variable
    and the clock. *)
Record Env : Type := {
  STELLAR_NETWORK : option string;
  now : string
}.

Record Network : Type := {
  soroswap : Soroswap.Backend;
  defindex : Defindex.Backend
}.

(** *** Records as the objects [JSON.stringify] sees *)

Definition opt_str (s : option string) : value :=
  match s with
  | Some t => Str t
  | None => Undefined
  end.

Definition token_value (t : Soroswap.SoroswapToken) : value :=
  Obj [ ("address", opt_str (Soroswap.address t));
        ("symbol", Str (Soroswap.symbol t));
        ("name", Str (Soroswap.name t));
        ("decimals", Num (Soroswap.decimals t));
        ("icon", opt_str (Soroswap.icon t)) ].

Definition pair_value (p : Soroswap.SoroswapPair) : value :=
  Obj [ ("pairAddress", Str (Soroswap.pairAddress p));
        ("token0", token_value (Soroswap.token0 p));
        ("token1", token_value (Soroswap.token1 p));
        ("reserve0", Str (Soroswap.reserve0 p));
        ("reserve1", Str (Soroswap.reserve1 p));
        ("totalSupply", Str (Soroswap.totalSupply p));
        ("fee", Str (Soroswap.fee p));
        ("volume24h", opt_str (Soroswap.volume24h p));
        ("tvl", opt_str (Soroswap.tvl p));
        ("apr", opt_str (Soroswap.apr p)) ].

Definition quote_value (q : Soroswap.SoroswapQuote) : value :=
  Obj [ ("tokenIn", token_value (Soroswap.tokenIn q));
        ("tokenOut", token_value (Soroswap.tokenOut q));
        ("amountIn", opt_str (Soroswap.amountIn q));
        ("amountOut", Str (Soroswap.amountOut q));
        ("priceImpact", Str (Soroswap.priceImpact q));
        ("route", Arr (map opt_str (Soroswap.route q)));
        ("slippage", Str (Soroswap.slippage q));
        ("fee", Str (Soroswap.quote_fee q));
        ("minimumReceived", Str (Soroswap.minimumReceived q));
        ("gasEstimate", opt_str (Soroswap.gasEstimate q)) ].

Definition soroswap_position_value (p : Soroswap.Position) : value :=
  Obj [ ("pairAddress", opt_str (Soroswap.pos_pairAddress p));
        ("token0", opt_str (Soroswap.pos_token0 p));
        ("token1", opt_str (Soroswap.pos_token1 p));
        ("lpTokenBalance", opt_str (Soroswap.lpTokenBalance p));
        ("shareOfPool", opt_str (Soroswap.shareOfPool p));
        ("token0Amount", opt_str (Soroswap.token0Amount p));
        ("token1Amount", opt_str (Soroswap.token1Amount p));
        ("value", opt_str (Soroswap.value p));
        ("pnl", opt_str (Soroswap.pnl p));
        ("pnlPercent", opt_str (Soroswap.pnlPercent p)) ].

Definition vault_value (v : Defindex.DefindexVault) : value :=
  Obj [ ("address", Str (Defindex.address v));
        ("name", Str (Defindex.name v));
        ("symbol", Str (Defindex.symbol v));
        ("totalAssets", Str (Defindex.totalAssets v));
        ("totalSupply", Str (Defindex.totalSupply v));
        ("apy", Str (Defindex.apy v));
        ("strategy", Str (Defindex.strategy v));
        ("riskLevel", Str (Defindex.risk_string (Defindex.riskLevel v)));
        ("underlyingTokens", Arr (map Str (Defindex.underlyingTokens v)));
        ("underlyingProtocols", Arr (map Str (Defindex.underlyingProtocols v)));
        ("feeStructure",
          Obj [ ("managementFee",
                  Str (Defindex.managementFee (Defindex.feeStructure v)));
                ("performanceFee",
                  Str (Defindex.performanceFee (Defindex.feeStructure v))) ]);
        ("performance",
          match Defindex.performance v with
          | Some p =>
              Obj [ ("7d", Str (Defindex.perf_7d p));
                    ("30d", Str (Defindex.perf_30d p));
                    ("90d", Str (Defindex.perf_90d p));
                    ("1y", Str (Defindex.perf_1y p)) ]
          | None => Undefined
          end) ].

Definition defindex_position_value (p : Defindex.DefindexPosition) : value :=
  Obj [ ("vaultAddress", Str (Defindex.pos_vaultAddress p));
        ("vaultName", Str (Defindex.pos_vaultName p));
        ("shares", Str (Defindex.shares p));
        ("underlyingValue", Str (Defindex.underlyingValue p));
        ("entryPrice", Str (Defindex.entryPrice p));
        ("currentPrice", Str (Defindex.currentPrice p));
        ("pnl", Str (Defindex.pnl p));
        ("pnlPercent", Str (Defindex.pnlPercent p));
        ("depositedAt", Str (Defindex.depositedAt p)) ].

(** The object that every [catch] of a handler serialises. *)
Definition failure_value (what : string) (error : thrown) : value :=
  Obj [ ("error", Str what);
        ("details", Str (error_message error));
        ("fallback", Str "Using mock data due to API unavailability") ].

(** *** The handlers *)

Record Pool : Type := {
  pool_address : string;
  pool_token0 : string;
  pool_token1 : string;
  pool_reserve0 : string;
  pool_reserve1 : string;
  pool_totalSupply : string;
  pool_apr : string;
  pool_volume24h : string;
  pool_fees24h : string
}.

Definition pool_value (p : Pool) : value :=
  Obj [ ("address", Str (pool_address p));
        ("token0", Str (pool_token0 p));
        ("token1", Str (pool_token1 p));
        ("reserve0", Str (pool_reserve0 p));
        ("reserve1", Str (pool_reserve1 p));
        ("totalSupply", Str (pool_totalSupply p));
        ("apr", Str (pool_apr p));
        ("volume24h", Str (pool_volume24h p));
        ("fees24h", Str (pool_fees24h p)) ].

Definition mockPools : list Pool :=
  [ {| pool_address := "0x123...abc"; pool_token0 := "XLM";
       pool_token1 := "USDC"; pool_reserve0 := "1000000";
       pool_reserve1 := "500000"; pool_totalSupply := "707106";
       pool_apr := "12.5"; pool_volume24h := "125000";
       pool_fees24h := "375" |};
    {| pool_address := "0x456...def"; pool_token0 := "XLM";
       pool_token1 := "AQUA"; pool_reserve0 := "800000";
       pool_reserve1 := "200000"; pool_totalSupply := "400000";
       pool_apr := "18.2"; pool_volume24h := "85000";
       pool_fees24h := "255" |} ].

(** The properties every object inherits from [Object.prototype]: all but
    [__proto__] are functions. *)
Definition inherited_functions : list string :=
  [ "constructor"; "__defineGetter__"; "__defineSetter__"; "hasOwnProperty";
    "__lookupGetter__"; "__lookupSetter__"; "isPrototypeOf";
    "propertyIsEnumerable"; "toString"; "valueOf"; "toLocaleString" ].

(** [mockPrices[tokenAddress] || 0] for the literal
    [{ XLM: 0.12, USDC: 1.00, AQUA: 0.08 }]. A function serialises to
    [undefined], [Object.prototype] to an empty object. *)
Definition mock_price (tokenAddress' : option string) : value :=
  match tokenAddress' with
  | None => Num 0
  | Some key =>
      if String.eqb key "XLM" then Num 0.12
      else if String.eqb key "USDC" then Num 1.00
      else if String.eqb key "AQUA" then Num 0.08
      else if String.eqb key "__proto__" then Obj []
      else if existsb (String.eqb key) inherited_functions then Undefined
      else Num 0
  end.

Section Handlers.

Variable env : Env.
Variable net : Network.

Definition network_name : string := or_default (STELLAR_NETWORK env) "testnet".

Definition getSoroswapTokenPairs (token' : option string) : result string :=
  try_catch
    (pairs <- Soroswap.getTokenPairs (soroswap net) token' ;;
     let totalTvl :=
       fold_left
         (fun sum pair => sum + parseFloat (or_default (Soroswap.tvl pair) "0"))
         pairs 0 in
     Ok (stringify
           (Obj [ ("pairs", Arr (map pair_value pairs));
                  ("total", Num (number_of_nat (List.length pairs)));
                  ("totalTvl", Str (toString totalTvl));
                  ("network", Str network_name);
                  ("timestamp", Str (now env)) ])))
    (fun error =>
       Ok (stringify (failure_value "Failed to fetch Soroswap token pairs" error))).

Definition getSoroswapSwapQuote
  (tokenIn' tokenOut' amountIn' : option string) (slippage' : string)
  : result string :=
  try_catch
    (quote <- Soroswap.getSwapQuote (soroswap net) tokenIn' tokenOut' amountIn'
                (Some slippage') ;;
     Ok (stringify
           (Obj [ ("quote", quote_value quote);
                  ("network", Str network_name);
                  ("timestamp", Str (now env)) ])))
    (fun error =>
       Ok (stringify (failure_value "Failed to fetch Soroswap swap quote" error))).

Definition getSoroswapLiquidityPools (pairAddress' : option string)
  : result string :=
  let result :=
    if truthy pairAddress'
    then match find (fun pool => strict_eq (pool_address pool) pairAddress')
                    mockPools with
         | Some pool => pool_value pool
         | None => Undefined
         end
    else Arr (map pool_value mockPools) in
  Ok (stringify
        (Obj [ ("pools", result);
               ("message",
                 Str "Mock data - In production, this would fetch from Soroswap contracts") ])).

Definition getSoroswapTokenPrice
  (tokenAddress' : option string) (baseCurrency' : string) : result string :=
  let price := mock_price tokenAddress' in
  Ok (stringify
        (Obj [ ("token", opt_str tokenAddress');
               ("price", price);
               ("baseCurrency", Str baseCurrency');
               ("change24h", Str "2.5");
               ("volume24h", Str "125000");
               ("timestamp", Str (now env));
               ("message",
                 Str "Mock data - In production, this would fetch from price oracles") ])).

Definition getDefindexVaults (riskLevel' minApy' : option string)
  : result string :=
  try_catch
    (vaults <- Defindex.getAvailableVaults (defindex net) riskLevel' minApy' ;;
     let totalTvl :=
       fold_left
         (fun sum vault => sum + parseFloat (Defindex.totalAssets vault))
         vaults 0 in
     Ok (stringify
           (Obj [ ("vaults", Arr (map vault_value vaults));
                  ("total", Num (number_of_nat (List.length vaults)));
                  ("totalTvl", Str (toString totalTvl));
                  ("network", Str network_name);
                  ("timestamp", Str (now env)) ])))
    (fun error =>
       Ok (stringify (failure_value "Failed to fetch DeFindex vaults" error))).

Definition getDefindexVaultDetails (vaultAddress' : option string)
  : result string :=
  let mockVault :=
    Obj [ ("address", opt_str vaultAddress');
          ("name", Str "Stable Yield Vault");
          ("symbol", Str "SYV");
          ("totalAssets", Str "1000000");
          ("totalSupply", Str "950000");
          ("apy", Str "8.5");
          ("strategy", Str "USDC-XLM Liquidity Mining");
          ("riskLevel", Str "low");
          ("underlyingTokens", Arr [Str "USDC"; Str "XLM"]);
          ("underlyingProtocols", Arr [Str "Soroswap"]);
          ("feeStructure",
            Obj [ ("managementFee", Str "1.0");
                  ("performanceFee", Str "10.0") ]);
          ("performance",
            Obj [ ("7d", Str "0.15"); ("30d", Str "0.68");
                  ("90d", Str "2.1"); ("1y", Str "8.5") ]) ] in
  Ok (stringify
        (Obj [ ("vault", mockVault);
               ("message",
                 Str "Mock data - In production, this would fetch from DeFindex vault contract") ])).

(** The two entries of [recommendedAllocation] that the combined server
    writes itself (it does not call the DeFindex client here). *)
Definition inline_allocation (totalAmount' riskTolerance' : option string)
  : list value :=
  let conservative := strict_eq "conservative" riskTolerance' in
  [ Obj [ ("vaultAddress", Str "0xabc123...");
          ("vaultName", Str "Stable Yield Vault");
          ("allocation", Str (if conservative then "70" else "50"));
          ("amount",
            Str (toString (parseFloat_arg totalAmount'
                           * (if conservative then 0.7 else 0.5))));
          ("expectedApy", Str "8.5");
          ("riskLevel", Str "low") ];
    Obj [ ("vaultAddress", Str "0xdef456...");
          ("vaultName", Str "Balanced Growth Vault");
          ("allocation", Str (if conservative then "30" else "50"));
          ("amount",
            Str (toString (parseFloat_arg totalAmount'
                           * (if conservative then 0.3 else 0.5))));
          ("expectedApy", Str "15.2");
          ("riskLevel", Str "medium") ] ].

Definition optimizeDefindexAllocation
  (totalAmount' riskTolerance' : option string) (timeHorizon' : string)
  : result string :=
  let mockOptimization :=
    Obj [ ("totalAmount", opt_str totalAmount');
          ("riskTolerance", opt_str riskTolerance');
          ("timeHorizon", Str timeHorizon');
          ("recommendedAllocation",
            Arr (inline_allocation totalAmount' riskTolerance'));
          ("expectedPortfolioApy",
            Str (if strict_eq "conservative" riskTolerance'
                 then "10.51" else "11.85"));
          ("diversificationScore", Str "85") ] in
  Ok (stringify
        (Obj [ ("optimization", mockOptimization);
               ("message",
                 Str "Mock data - In production, this would use advanced optimization algorithms") ])).

(** The [summary] object of the combined analysis. *)
Record Summary : Type := {
  totalValue : string;
  soroswapValue : string;
  defindexValue : string;
  totalPnl : string;
  totalPnlPercent : string
}.

Definition summarize
  (soroswapPositions : list Soroswap.Position)
  (defindexPositions : list Defindex.DefindexPosition) : Summary :=
  let soroswapValue :=
    fold_left
      (fun sum pos => sum + parseFloat (or_default (Soroswap.value pos) "0"))
      soroswapPositions 0 in
  let defindexValue :=
    fold_left
      (fun sum pos => sum + parseFloat (Defindex.underlyingValue pos))
      defindexPositions 0 in
  let totalValue := soroswapValue + defindexValue in
  let soroswapPnl :=
    fold_left
      (fun sum pos => sum + parseFloat (or_default (Soroswap.pnl pos) "0"))
      soroswapPositions 0 in
  let defindexPnl :=
    fold_left
      (fun sum pos => sum + parseFloat (Defindex.pnl pos))
      defindexPositions 0 in
  let totalPnl := soroswapPnl + defindexPnl in
  {| totalValue := toString totalValue;
     soroswapValue := toString soroswapValue;
     defindexValue := toString defindexValue;
     totalPnl := toString totalPnl;
     totalPnlPercent :=
       if 0 <? totalValue
       then toFixed (totalPnl / totalValue * 100) 2%nat
       else "0" |}.

Definition summary_value (s : Summary) : value :=
  Obj [ ("totalValue", Str (totalValue s));
        ("soroswapValue", Str (soroswapValue s));
        ("defindexValue", Str (defindexValue s));
        ("totalPnl", Str (totalPnl s));
        ("totalPnlPercent", Str (totalPnlPercent s)) ].

Definition recommendations : value :=
  Arr [ Obj [ ("type", Str "rebalancing");
              ("description",
                Str "Consider rebalancing towards more DeFindex positions for better yield");
              ("impact", Str "Potential 2.5% APY increase") ];
        Obj [ ("type", Str "diversification");
              ("description",
                Str "Add exposure to high-yield DeFindex vault for better returns");
              ("impact", Str "Improved risk-adjusted returns") ] ].

(** The [analysis] object; [recommendations] is added last when asked
    for. *)
Definition analysis_value (userAddress' : option string)
  (includeRecommendations' : bool)
  (soroswapPositions : list Soroswap.Position)
  (defindexPositions : list Defindex.DefindexPosition) : value :=
  Obj ([ ("userAddress", opt_str userAddress');
         ("summary",
           summary_value (summarize soroswapPositions defindexPositions));
         ("soroswapPositions",
           Arr (map soroswap_position_value soroswapPositions));
         ("defindexPositions",
           Arr (map defindex_position_value defindexPositions));
         ("riskMetrics",
           Obj [ ("portfolioRisk", Str "medium");
                 ("diversificationScore", Str "78");
                 ("concentrationRisk", Str "low") ]) ]
       ++ (if includeRecommendations'
           then [ ("recommendations", recommendations) ]
           else []))%list.

(** [Promise.all] of the two fetches rejects as soon as one of them
    does. *)
Definition getCombinedPortfolioAnalysis
  (userAddress' : option string) (includeRecommendations' : bool)
  : result string :=
  try_catch
    (soroswapPositions <- Soroswap.getUserPositions (soroswap net) userAddress' ;;
     defindexPositions <-
       Defindex.getUserPositions (defindex net) (now env) userAddress' ;;
     Ok (stringify
           (Obj [ ("analysis",
                    analysis_value userAddress' includeRecommendations'
                      soroswapPositions defindexPositions);
                  ("network", Str network_name);
                  ("timestamp", Str (now env)) ])))
    (fun error =>
       Ok (stringify
             (failure_value "Failed to fetch combined portfolio analysis" error))).

(** *** The dispatcher ([CallToolRequestSchema]) *)

Definition text_result (t : string) : ToolResult :=
  {| content := [ {| type := "text"; text := t |} ]; isError := None |}.

Definition error_result (error : thrown) : ToolResult :=
  {| content := [ {| type := "text"; text := "Error: " ++ error_message error |} ];
     isError := Some true |}.

(** The [switch] on the tool name, inside the [try]. *)
Definition dispatch (name : string) (args : option Arguments) : result string :=
  if String.eqb name "soroswap_get_token_pairs" then
    getSoroswapTokenPairs (arg args token)
  else if String.eqb name "soroswap_get_swap_quote" then
    getSoroswapSwapQuote (arg args tokenIn) (arg args tokenOut)
      (arg args amountIn) (or_default (arg args slippage) "0.5")
  else if String.eqb name "soroswap_get_liquidity_pools" then
    getSoroswapLiquidityPools (arg args pairAddress)
  else if String.eqb name "soroswap_get_token_price" then
    getSoroswapTokenPrice (arg args tokenAddress)
      (or_default (arg args baseCurrency) "USD")
  else if String.eqb name "defindex_get_vaults" then
    getDefindexVaults (arg args riskLevel) (arg args minApy)
  else if String.eqb name "defindex_get_vault_details" then
    getDefindexVaultDetails (arg args vaultAddress)
  else if String.eqb name "defindex_optimize_allocation" then
    optimizeDefindexAllocation (arg args totalAmount) (arg args riskTolerance)
      (or_default (arg args timeHorizon) "1y")
  else if String.eqb name "combined_portfolio_analysis" then
    getCombinedPortfolioAnalysis (arg args userAddress)
      (match arg args includeRecommendations with
       | Some false => false
       | _ => true
       end)
  else Throw (Error ("Unknown tool: " ++ name)).

(** [invoke]: the handler of a tool call. *)
Definition invoke (name : string) (args : option Arguments) : result ToolResult :=
  try_catch
    (t <- dispatch name args ;; Ok (text_result t))
    (fun error => Ok (error_result error)).

End Handlers.

End Server.

(** ** A network on which every request fails *)

Module Offline.

Definition refused {A : Type} : result A := Throw (Error "Network Error").

Definition soroswap : Soroswap.Backend :=
  {| Soroswap.api_pairs := fun _ => refused;
     Soroswap.api_quote := fun _ _ _ _ => refused;
     Soroswap.loadAccount := fun _ => refused |}.

Definition defindex : Defindex.Backend :=
  {| Defindex.api_vaults := fun _ _ => refused;
     Defindex.api_vault := fun _ => refused;
     Defindex.api_calculate := fun _ _ _ => refused;
     Defindex.api_positions := fun _ => refused;
     Defindex.api_optimize := fun _ _ _ => refused;
     Defindex.loadAccount := fun _ => refused |}.

Definition network : Server.Network :=
  {| Server.soroswap := soroswap; Server.defindex := defindex |}.

Definition env : Server.Env :=
  {| Server.STELLAR_NETWORK := None;
     Server.now := "2024-03-01T12:00:00.000Z" |}.

End Offline.

(** ** src/soroswap-client.ts: the liquidity pools *)

Module SoroswapPools.

Import JS Soroswap.

(** [getMockTokenPairs()] is called without a token. *)
Definition getMockLiquidityPools (pairAddress' : option string)
  : list SoroswapPair :=
  let mockPools := getMockTokenPairs None in
  if truthy pairAddress'
  then filter (fun pool => strict_eq (pairAddress pool) pairAddress') mockPools
  else mockPools.

Section Client.

(** [GET /api/pools] with the parameter [pairAddress] or none, answering
    with [response.data.pools]. *)
Variable api_pools : option string -> result (option (list SoroswapPair)).

Definition getLiquidityPools (pairAddress' : option string)
  : result (list SoroswapPair) :=
  try_catch
    (pools <- api_pools (if truthy pairAddress' then pairAddress' else None) ;;
     Ok (match pools with
         | Some l => l
         | None => []
         end))
    (fun _ => Ok (getMockLiquidityPools pairAddress')).

End Client.

End SoroswapPools.

(** ** The constructors: how the server configures its two clients

    A client is recorded by what its constructor computes: the
    configuration handed to [axios.create] and the URL on which its
    [Horizon.Server] is built. The MCP [Server] object of the combined
    server and the registration of its handlers are not part of the
    record; the handlers are [Server.invoke]. *)

Module Setup.

Import JSNumber JS.
Local Open Scope float_scope.

(** The configuration handed to [axios.create]. *)
Record AxiosConfig : Type := {
  baseURL : string;
  timeout : number;
  headers : list (string * string)
}.

(** [...(apiKey && { 'Authorization': `Bearer ${apiKey}` })] *)
Definition authorization (apiKey : option string) : list (string * string) :=
  match apiKey with
  | Some (String c r) => [ ("Authorization", "Bearer " ++ String c r) ]
  | _ => []
  end.

Definition axios_create (baseUrl : string) (apiKey : option string)
  : AxiosConfig :=
  {| baseURL := baseUrl;
     timeout := 10000;
     headers := ("Content-Type", "application/json") :: authorization apiKey |}.

Record SoroswapClient : Type := {
  sc_apiClient : AxiosConfig;
  sc_horizonClient : string;
  sc_baseUrl : string;
  sc_horizonUrl : string
}.

Definition newSoroswapClient (network apiKey baseUrl : option string)
  : SoroswapClient :=
  let network := default_param network "testnet" in
  let baseUrl := default_param baseUrl "https://api.soroswap.finance" in
  let horizonUrl :=
    if String.eqb network "testnet"
    then "https://horizon-testnet.stellar.org"
    else "https://horizon.stellar.org" in
  {| sc_apiClient := axios_create baseUrl apiKey;
     sc_horizonClient := horizonUrl;
     sc_baseUrl := baseUrl;
     sc_horizonUrl := horizonUrl |}.

(** The two members of the SDK's [Networks] that the client names. *)
Inductive Networks : Type := TESTNET | PUBLIC.

Record DefindexClient : Type := {
  dc_apiClient : AxiosConfig;
  dc_horizonClient : string;
  dc_network : Networks;
  dc_baseUrl : string
}.

Definition newDefindexClient (network apiKey : option string)
  : DefindexClient :=
  let network := default_param network "testnet" in
  let baseUrl := "https://api.defindex.io" in
  let horizonUrl :=
    if String.eqb network "testnet"
    then "https://horizon-testnet.stellar.org"
    else "https://horizon.stellar.org" in
  {| dc_apiClient := axios_create baseUrl apiKey;
     dc_horizonClient := horizonUrl;
     dc_network := if String.eqb network "testnet" then TESTNET else PUBLIC;
     dc_baseUrl := baseUrl |}.

(** The environment variables that the constructor of the combined server
    reads; [None] is a variable that is not set. *)
Record ProcessEnv : Type := {
  env_STELLAR_NETWORK : option string;
  env_SOROSWAP_API_KEY : option string;
  env_DEFINDEX_API_KEY : option string;
  env_SOROSWAP_API_URL : option string
}.

Record StellarSwapMCPServer : Type := {
  soroswapClient : SoroswapClient;
  defindexClient : DefindexClient
}.

Definition newStellarSwapMCPServer (env : ProcessEnv) : StellarSwapMCPServer :=
  let network := or_default (env_STELLAR_NETWORK env) "testnet" in
  let soroswapApiKey := env_SOROSWAP_API_KEY env in
  let defindexApiKey := env_DEFINDEX_API_KEY env in
  let soroswapApiUrl := env_SOROSWAP_API_URL env in
  {| soroswapClient :=
       newSoroswapClient (Some network) soroswapApiKey soroswapApiUrl;
     defindexClient := newDefindexClient (Some network) defindexApiKey |}.

End Setup.

(** * Vocabulary of the statements

    The words in which the theorems below are stated, gathered before the
    first of them. *)

Module AllocationTerms.

Import JSNumber JS Defindex.
Local Open Scope float_scope.

(** The risk level and percentage of each recommended vault, in order. *)
Definition weights (plan : Optimization) : list (RiskLevel * string) :=
  map (fun a => (alloc_riskLevel a, allocation a)) (recommendedAllocation plan).

(** Every recommended vault is a vault of the catalog, with its name, risk
    level and APY. *)
Definition over_catalog (plan : Optimization) : Prop :=
  Forall
    (fun a =>
       exists v, In v mockVaults /\ address v = vaultAddress a
                 /\ name v = vaultName a /\ riskLevel v = alloc_riskLevel a
                 /\ apy v = expectedApy a)
    (recommendedAllocation plan).

(** The sum of the percentages, as JavaScript adds them. *)
Definition percent_total (plan : Optimization) : number :=
  fold_left (fun sum a => sum + parseFloat (allocation a))
    (recommendedAllocation plan) 0.

End AllocationTerms.

Module PairTerms.

Import JS Soroswap.

(** The filter token equals one side's symbol or one side's address,
    exactly and case-sensitively. *)
Definition token_is (token : string) (pair : SoroswapPair) : Prop :=
  symbol (token0 pair) = token \/ symbol (token1 pair) = token
  \/ address (token0 pair) = Some token \/ address (token1 pair) = Some token.

End PairTerms.

Module JSONTerms.

Import JSNumber JSON.

(** An unsigned JSON number: int, then an optional fraction and exponent. *)
Definition json_unsigned (s : string) : Prop :=
  exists i f e,
    json_int i = true /\ json_frac f = true /\ json_exp e = true
    /\ s = i ++ f ++ e.

(** A property as [JSON.stringify] writes it: the quoted key, a colon, a
    space and the value. *)
Definition json_member (text : string) : Prop :=
  exists key v, text = member key v /\ json_value v.

End JSONTerms.

Module ServerTerms.

Import JSNumber JS JSON Server.
Local Open Scope float_scope.

(** [name] is one of the advertised tool names. *)
Definition recognized (name : string) : bool :=
  existsb (String.eqb name) tool_names.

(** A handler result that is the serialisation of an object. *)
Definition document (r : result string) : Prop :=
  exists fields, r = Ok (stringify (Obj fields)).

(** The protocol reads an absent [isError] as [false]. *)
Definition is_error (r : ToolResult) : bool :=
  match isError r with
  | Some true => true
  | _ => false
  end.

(** The object that [getSoroswapTokenPairs] serialises for a list of
    pairs. *)
Definition pairs_report (env : Env) (pairs : list Soroswap.SoroswapPair) : value :=
  Obj [ ("pairs", Arr (map pair_value pairs));
        ("total", Num (number_of_nat (List.length pairs)));
        ("totalTvl",
          Str (toString
                 (fold_left
                    (fun sum pair =>
                       sum + parseFloat (or_default (Soroswap.tvl pair) "0"))
                    pairs 0)));
        ("network", Str (network_name env));
        ("timestamp", Str (now env)) ].

(** A call that passes no arguments at all. *)
Definition no_arguments : Arguments :=
  {| token := None; tokenIn := None; tokenOut := None; amountIn := None;
     slippage := None; pairAddress := None; tokenAddress := None;
     baseCurrency := None; riskLevel := None; minApy := None;
     vaultAddress := None; totalAmount := None; riskTolerance := None;
     timeHorizon := None; userAddress := None;
     includeRecommendations := None |}.

(** The numbers behind the summary: the two adapters' sums, added. *)
Definition portfolio_value
  (sp : list Soroswap.Position) (dp : list Defindex.DefindexPosition) : number :=
  fold_left
    (fun sum pos => sum + parseFloat (or_default (Soroswap.value pos) "0")) sp 0
  + fold_left
      (fun sum pos => sum + parseFloat (Defindex.underlyingValue pos)) dp 0.

Definition portfolio_pnl
  (sp : list Soroswap.Position) (dp : list Defindex.DefindexPosition) : number :=
  fold_left
    (fun sum pos => sum + parseFloat (or_default (Soroswap.pnl pos) "0")) sp 0
  + fold_left (fun sum pos => sum + parseFloat (Defindex.pnl pos)) dp 0.

(** A vault position as the DeFindex API may report it. *)
Definition thirds : Defindex.DefindexPosition :=
  {| Defindex.pos_vaultAddress := Defindex.stable_address;
     Defindex.pos_vaultName := "Stellar Stable Yield Vault";
     Defindex.shares := "3";
     Defindex.underlyingValue := "3";
     Defindex.entryPrice := "1";
     Defindex.currentPrice := "1";
     Defindex.pnl := "1";
     Defindex.pnlPercent := "33.3";
     Defindex.depositedAt := "2024-01-01T00:00:00Z" |}.

End ServerTerms.

Module FloatTerms.

Import JSNumber.
Local Open Scope float_scope.

(** [2^52], the significand of the doubles 1, 2 and 0.5. *)
Definition P52 : positive := 4503599627370496.

(** The smallest magnitude whose half is still a normal double. *)
Definition halving_threshold : number := 0x1p-1021.

(** [x] is zero, not finite, or at least [2^-1021] in magnitude. *)
Definition halves_exactly (x : number) : bool :=
  (x =? 0) || negb (abs x <? halving_threshold).

End FloatTerms.

Module DepositTerms.

Import JSNumber JS Defindex.
Local Open Scope float_scope.

(** The multiplier as the specification words it. *)
Definition timeframe_multiplier (timeframe' : string) : number :=
  match string_dec timeframe' "1y", string_dec timeframe' "6m" with
  | left _, _ => 1.0
  | right _, left _ => 0.5
  | right _, right _ => 0.25
  end.

(** [depositAmount * apy / 100], the yield of a whole year. *)
Definition yearly_yield (vault : DefindexVault) (depositAmount' : option string)
  : number :=
  parseFloat_arg depositAmount' * parseFloat (apy vault) / 100.

End DepositTerms.

(** ** Rounding to the nearest double

    The vocabulary in which the arithmetic of the quote is followed: the
    magnitude of a double as an integer number of [2^-1074], and the
    rounding of a ratio of integers to the nearest such magnitude. *)

Module Rounding.

Local Open Scope Z_scope.

(** The record [(m, r, s)] places [N / D]: [m] is its integer part, and
    [r], [s] tell where the remainder lies with respect to one half. *)
Definition located (N D : Z) (rec : shr_record) : Prop :=
  0 < D /\ 0 <= N
  /\ shr_m rec = N / D
  /\ shr_r rec = (D <=? 2 * (N mod D))
  /\ shr_s rec = negb (N mod D =? 0) && negb (2 * (N mod D) =? D).

(** The integer nearest to [N / D], the even one on a tie. *)
Definition rne (N D : Z) : Z :=
  let q := N / D in
  let R := N mod D in
  if 2 * R <? D then q
  else if D <? 2 * R then q + 1
  else if Z.even q then q else q + 1.

(** Above every finite double: [2^1024], in units of [2^-1074]. *)
Definition top : Z := 2 ^ 2098.

(** The magnitude of a double in units of [2^-1074]; [top] for an
    infinity. *)
Definition ord (f : spec_float) : Z :=
  match f with
  | S754_zero _ => 0
  | S754_finite _ m e => Zpos m * 2 ^ (e + 1074)
  | S754_infinity _ => top
  | S754_nan => 0
  end.

(** Zero, positive or plus infinity. *)
Definition nonneg (f : spec_float) : Prop :=
  match f with
  | S754_zero _ => True
  | S754_finite s _ _ => s = false
  | S754_infinity s => s = false
  | S754_nan => False
  end.

Definition valid (f : spec_float) : Prop := valid_binary f = true.

(** The double [1]. *)
Definition one : spec_float := S754_finite false 4503599627370496 (-52).

(** [nearest A B] is the double nearest to [A / B] units of [2^-1074],
    itself in these units, ties going to the even significand;
    [shift_of A B] is the exponent of its last bit. *)
Definition shift_of (A B : Z) : Z := Z.max (Zdigits2 (A / B) - 53) 0.

Definition nearest (A B : Z) : Z :=
  let t := shift_of A B in Z.min top (rne A (B * 2 ^ t) * 2 ^ t).

(** The number of [10^-f] nearest to [o] units of [2^-1074], the larger
    one when two are as near: what [toFixed] prints. *)
Definition fixed_of_ord (o : Z) (f : nat) : N :=
  Z.to_N ((2 * 10 ^ Z.of_nat f * o + 2 ^ 1074) / 2 ^ 1075).

End Rounding.

Module QuoteTerms.

Import JSNumber JS Soroswap.

(** The integer that the decimal digits of [s] write, with [acc] before
    them; whatever else [s] holds, a decimal point for one, is skipped. *)
Fixpoint digits_value (s : string) (acc : N) : N :=
  match s with
  | String c r =>
      match digit_of_ascii c with
      | Some d => digits_value r (acc * 10 + d)%N
      | None => digits_value r acc
      end
  | EmptyString => acc
  end.

(** The quote for [amount] at [slippage] promises [out] millionths and at
    least [low] millionths, both printed with six decimals; the two
    strings determine the two numbers. *)
Definition quote_gives (net : Backend) (tokenIn tokenOut : option string)
  (amount slippage : string) (out low : N) : Prop :=
  exists q,
    getSwapQuote net tokenIn tokenOut (Some amount) (Some slippage) = Ok q
    /\ amountOut q = format_fixed out 6
    /\ minimumReceived q = format_fixed low 6.

(** The quote of the mock path for the pair XLM/USDC. *)
Definition offline_quote (amount slippage : string) : result SoroswapQuote :=
  getSwapQuote Offline.soroswap (Some "native") (Some "USDC")
    (Some amount) (Some slippage).

(** The amounts behind the two strings of a quote. *)
Definition wanted (amount : string) : number :=
  (parseFloat amount * 0.12 * 0.997)%float.

Definition kept (slippage : string) : number :=
  (1 - parseFloat slippage / 100)%float.

End QuoteTerms.

(** ** Positions read from Horizon *)

Module PositionTerms.

Import Horizon.

(** The balance lines that the swap adapter reads as positions. *)
Definition is_lp_share (b : BalanceLine) : bool :=
  String.eqb (asset_type b) "liquidity_pool_shares".


(** A position that carries nothing but a pool and a balance. *)
Definition bare (p : Soroswap.Position) : Prop :=
  Soroswap.pos_token0 p = None /\ Soroswap.pos_token1 p = None
  /\ Soroswap.shareOfPool p = None /\ Soroswap.token0Amount p = None
  /\ Soroswap.token1Amount p = None /\ Soroswap.value p = None
  /\ Soroswap.pnl p = None /\ Soroswap.pnlPercent p = None.

(** A vault position as the Horizon tier writes it at time [now]: valued
    at its balance, at par and without profit. *)
Definition at_par (now : string) (p : Defindex.DefindexPosition) : Prop :=
  Defindex.underlyingValue p = Defindex.shares p
  /\ Defindex.entryPrice p = "1.0" /\ Defindex.currentPrice p = "1.0"
  /\ Defindex.pnl p = "0" /\ Defindex.pnlPercent p = "0"
  /\ Defindex.depositedAt p = now.

(** An account that holds shares of one pool and a token. *)
Definition lp_line : BalanceLine :=
  {| asset_type := "liquidity_pool_shares";
     balance := "250.0000000";
     liquidity_pool_id := Some "POOL";
     asset_code := None;
     asset_issuer := None |}.

Definition usd_line : BalanceLine :=
  {| asset_type := "credit_alphanum4";
     balance := "75.5000000";
     liquidity_pool_id := None;
     asset_code := Some "USDC";
     asset_issuer := Some "GISSUER" |}.

(** Horizon answers with that account; the two APIs are down. *)
Definition horizon_only : Soroswap.Backend :=
  {| Soroswap.api_pairs := fun _ => Offline.refused;
     Soroswap.api_quote := fun _ _ _ _ => Offline.refused;
     Soroswap.loadAccount := fun _ => Ok [lp_line; usd_line] |}.

Definition horizon_only_vaults : Defindex.Backend :=
  {| Defindex.api_vaults := fun _ _ => Offline.refused;
     Defindex.api_vault := fun _ => Offline.refused;
     Defindex.api_calculate := fun _ _ _ => Offline.refused;
     Defindex.api_positions := fun _ => Offline.refused;
     Defindex.api_optimize := fun _ _ _ => Offline.refused;
     Defindex.loadAccount := fun _ => Ok [lp_line; usd_line] |}.

Definition horizon_up : Server.Network :=
  {| Server.soroswap := horizon_only; Server.defindex := horizon_only_vaults |}.

(** A vault position whose value is not written as a number. *)
Definition unpriced : Defindex.DefindexPosition :=
  {| Defindex.pos_vaultAddress := "GISSUER";
     Defindex.pos_vaultName := "USDC Vault";
     Defindex.shares := "n/a";
     Defindex.underlyingValue := "n/a";
     Defindex.entryPrice := "1.0";
     Defindex.currentPrice := "1.0";
     Defindex.pnl := "0";
     Defindex.pnlPercent := "0";
     Defindex.depositedAt := "2024-03-01T12:00:00.000Z" |}.

End PositionTerms.

(** ** Numbers that are not numbers, and the order of the others *)

Module NumberTerms.

Import JSNumber.

(** [Number.isNaN(x)] *)
Definition not_a_number (x : number) : Prop := Prim2SF x = S754_nan.

End NumberTerms.

Module OrderTerms.

Import Rounding.
Local Open Scope Z_scope.

(** The value of a double in units of [2^-1074], with its sign. *)
Definition signed (f : spec_float) : Z :=
  match f with
  | S754_finite true _ _ | S754_infinity true => - ord f
  | _ => ord f
  end.

(** The double of the same magnitude that is not negative. *)
Definition magnitude (f : spec_float) : spec_float :=
  match f with
  | S754_zero _ => S754_zero false
  | S754_infinity _ => S754_infinity false
  | S754_nan => S754_nan
  | S754_finite _ m e => S754_finite false m e
  end.

End OrderTerms.

(** ** Signed arithmetic of the doubles *)

Module SignTerms.

Import Rounding.
Local Open Scope Z_scope.

(** The double of the same magnitude with the sign [s]. *)
Definition with_sign (s : bool) (f : spec_float) : spec_float :=
  match f with
  | S754_zero _ => S754_zero s
  | S754_infinity _ => S754_infinity s
  | S754_nan => S754_nan
  | S754_finite _ m e => S754_finite s m e
  end.

(** [nearest] on both sides of zero: the double nearest to [D / B]
    units of [2^-1074], with its sign. *)
Definition snearest (D B : Z) : Z :=
  if D <? 0 then - nearest (- D) B else nearest D B.

(** The signed value of a product of doubles, from the signed values of
    its factors; [top] stands for an infinity. *)
Definition emul (a b : Z) : Z :=
  if (Z.abs a =? top) || (Z.abs b =? top) then Z.sgn a * Z.sgn b * top
  else snearest (a * b) (2 ^ 1074).

(** The signed value of [x / y] for a finite [y] above zero. *)
Definition ediv (a b : Z) : Z :=
  if Z.abs a =? top then a else snearest (a * 2 ^ 1074) b.

(** The signed value of [1 - t]. *)
Definition ecomplement (a : Z) : Z :=
  if Z.abs a =? top then - a else snearest (2 ^ 1074 - a) 1.

End SignTerms.

(** ** What the strings of a quote write *)

Module PrintTerms.

Import JSNumber Rounding.
Local Open Scope Z_scope.

(** What a string writes, as [parseFloat] reads it before it rounds to a
    double: the decimal [(-1)^neg * digits * 10^e10], or an infinity. *)
Inductive written : Type :=
| Digits (neg : bool) (digits : N) (e10 : Z)
| Unbounded (neg : bool).

(** The [StrDecimalLiteral] at the head of [input]; the steps are those
    of [parseFloat]. *)
Definition read (input : string) : option written :=
  let '(neg, s) := read_sign (trim_start input) in
  if String.prefix "Infinity" s then Some (Unbounded neg)
  else
    let '(ip, ni, r1) := read_digits s 0%N 0 in
    match r1 with
    | String "." r2 =>
        let '(mant, n_all, r3) := read_digits r2 ip ni in
        match n_all with
        | O => None
        | S _ =>
            Some (Digits neg mant
                    (read_exponent r3 - Z.of_nat (n_all - ni)))
        end
    | _ =>
        match ni with
        | O => None
        | S _ => Some (Digits neg ip (read_exponent r1))
        end
    end.

(** A character that ends a run of digits. *)
Definition stops (rest : string) : Prop :=
  match rest with
  | String c _ => digit_of_ascii c = None
  | EmptyString => True
  end.

(** The double nearest to what is written. *)
Definition rounded (w : option written) : number :=
  match w with
  | None => nan
  | Some (Unbounded neg) => if neg then neg_infinity else infinity
  | Some (Digits neg n e10) => decimal_to_number neg n e10
  end.

(** A decimal in units of [10^e], for [e] at most its own exponent. *)
Definition units (neg : bool) (n : N) (e10 e : Z) : Z :=
  (if neg then - Z.of_N n else Z.of_N n) * 10 ^ (e10 - e).

(** The order of what is written: exact, on the decimals. *)
Definition le (a b : written) : Prop :=
  match a, b with
  | Unbounded true, _ => True
  | _, Unbounded false => True
  | Digits s1 n1 e1, Digits s2 n2 e2 =>
      units s1 n1 e1 (Z.min e1 e2) <= units s2 n2 e2 (Z.min e1 e2)
  | _, _ => False
  end.

Definition lt (a b : written) : Prop :=
  match a, b with
  | Unbounded true, Unbounded true => False
  | Unbounded true, _ => True
  | Digits _ _ _, Unbounded false => True
  | Digits s1 n1 e1, Digits s2 n2 e2 =>
      units s1 n1 e1 (Z.min e1 e2) < units s2 n2 e2 (Z.min e1 e2)
  | _, _ => False
  end.

(** A decimal in millionths. *)
Definition millionths (w : written) : Z :=
  match w with
  | Digits s n e10 => units s n e10 (-6)
  | Unbounded _ => 0
  end.

(** Two strings that write numbers, the first at most the second. *)
Definition below (s1 s2 : string) : Prop :=
  exists w1 w2, read s1 = Some w1 /\ read s2 = Some w2 /\ le w1 w2.

Definition strictly_below (s1 s2 : string) : Prop :=
  exists w1 w2, read s1 = Some w1 /\ read s2 = Some w2 /\ lt w1 w2.

(** Two doubles at least [10^-6] apart: their exact values, in units of
    [2^-1074], differ by [2^1074 / 10^6] or more. *)
Definition apart (x y : number) : Prop :=
  2 ^ 1074 <= 10 ^ 6 * (OrderTerms.signed (Prim2SF y)
                        - OrderTerms.signed (Prim2SF x)).

(** What [toFixed(6)] writes for a double: millionths below [10^21] and
    the shortest digits from there on. *)
Definition shown (f : spec_float) : option written :=
  match f with
  | S754_nan => None
  | S754_zero _ => Some (Digits false 0 (-6))
  | S754_infinity s => Some (Unbounded s)
  | S754_finite s m e =>
      if ord f <? ord (Prim2SF ten_pow_21)
      then Some (Digits s (fixed_int m e 6) (-6))
      else let '(p, q) := shortest m e in Some (Digits s (Npos p) q)
  end.

(** The millionths that [toFixed(6)] writes for a finite double. *)
Definition shown_millionths (f : spec_float) : Z :=
  match shown f with
  | Some w => millionths w
  | None => 0
  end.

End PrintTerms.

(** ** The documents of the handlers *)

Module PoolTerms.

Import JSON.

(** The note that the pools document always carries. *)
Definition pools_message : string * value :=
  ("message",
    Str "Mock data - In production, this would fetch from Soroswap contracts").

End PoolTerms.

Module EnvelopeTerms.

(** The first letter of the first key of a document written by
    [JSON.stringify(v, null, 2)]: it follows an opening brace, a line
    break, two spaces and a quotation mark. *)
Definition first_letter (t : string) : option ascii := String.get 5 t.

End EnvelopeTerms.

(** ** The network that the constructors select *)

Module SetupTerms.

Definition horizon_testnet : string := "https://horizon-testnet.stellar.org".
Definition horizon_mainnet : string := "https://horizon.stellar.org".

(** [STELLAR_NETWORK] is not set, is empty or is exactly ["testnet"]. *)
Definition names_testnet (network : option string) : Prop :=
  network = None \/ network = Some "" \/ network = Some "testnet".

End SetupTerms.

(** ** The vault adapter's allocation plans *)

Module AllocationFacts.

Import JSNumber JS Defindex.
Import AllocationTerms.
Local Open Scope float_scope.

Lemma optimize_falls_back net total risk horizon err :
  api_optimize net total risk (default_param horizon "1y") = Throw err ->
  optimizeYieldAllocation net total risk horizon
  = Ok (getMockOptimization total risk (default_param horizon "1y")).
Proof.
  intros Hfail. unfold optimizeYieldAllocation. rewrite Hfail. reflexivity.
Qed.

Lemma catalog_has (a : DefindexAllocation) (v : DefindexVault) :
  In v mockVaults -> address v = vaultAddress a -> name v = vaultName a ->
  riskLevel v = alloc_riskLevel a -> apy v = expectedApy a ->
  exists v', In v' mockVaults /\ address v' = vaultAddress a
             /\ name v' = vaultName a /\ riskLevel v' = alloc_riskLevel a
             /\ apy v' = expectedApy a.
Proof. intros. exists v. auto. Qed.

(** Looks the allocation's vault up at each position of the catalog. *)
Ltac in_catalog :=
  first
    [ eapply (catalog_has _ _ (or_introl eq_refl)); reflexivity
    | eapply (catalog_has _ _ (or_intror (or_introl eq_refl))); reflexivity
    | eapply (catalog_has _ _ (or_intror (or_intror (or_introl eq_refl))));
      reflexivity ].

Lemma mock_plan_over_catalog total risk horizon :
  over_catalog (getMockOptimization total risk horizon).
Proof.
  unfold over_catalog, getMockOptimization.
  cbn [recommendedAllocation].
  destruct (strict_eq "conservative" risk);
    [| destruct (strict_eq "moderate" risk)];
    repeat (apply Forall_cons || apply Forall_nil); in_catalog.
Qed.

(** C3: on the mock path [optimizeYieldAllocation] recommends vaults of the
    fixed catalog with fixed weights: 30 (low), 40 (medium), 30 (high) for
    "aggressive", exactly three allocations; 70 (low), 30 (medium) for
    "conservative"; 50 (low), 50 (medium) for "moderate". *)
Theorem mock_allocation_weights net total risk horizon err :
  api_optimize net total (Some risk) (default_param horizon "1y") = Throw err ->
  exists plan,
    optimizeYieldAllocation net total (Some risk) horizon = Ok plan
    /\ over_catalog plan
    /\ (risk = "aggressive" ->
        weights plan = [(low, "30"); (medium, "40"); (high, "30")]
        /\ List.length (recommendedAllocation plan) = 3%nat)
    /\ (risk = "conservative" -> weights plan = [(low, "70"); (medium, "30")])
    /\ (risk = "moderate" -> weights plan = [(low, "50"); (medium, "50")]).
Proof.
  intros Hfail. eexists. split; [ eapply optimize_falls_back; eassumption |].
  split; [ apply mock_plan_over_catalog |].
  split; [ intros ->; split; reflexivity |].
  split; intros ->; reflexivity.
Qed.

Lemma mock_allocation_weights_witness :
  exists plan,
    optimizeYieldAllocation Offline.defindex (Some "10000") (Some "aggressive")
      None = Ok plan
    /\ over_catalog plan
    /\ ("aggressive" = "aggressive" ->
        weights plan = [(low, "30"); (medium, "40"); (high, "30")]
        /\ List.length (recommendedAllocation plan) = 3%nat)
    /\ ("aggressive" = "conservative" ->
        weights plan = [(low, "70"); (medium, "30")])
    /\ ("aggressive" = "moderate" ->
        weights plan = [(low, "50"); (medium, "50")]).
Proof.
  apply (mock_allocation_weights Offline.defindex (Some "10000") "aggressive"
           None (Error "Network Error")).
  reflexivity.
Defined.

Lemma percent_total_conservative total horizon :
  percent_total (getMockOptimization total (Some "conservative") horizon) = 100.
Proof. vm_compute. reflexivity. Qed.

Lemma percent_total_moderate total horizon :
  percent_total (getMockOptimization total (Some "moderate") horizon) = 100.
Proof. vm_compute. reflexivity. Qed.

Lemma percent_total_aggressive total horizon :
  percent_total (getMockOptimization total (Some "aggressive") horizon) = 100.
Proof. vm_compute. reflexivity. Qed.

(** C4: for each of the three risk tolerances and every total amount, the
    percentages of the plan returned on the mock path add up to exactly
    100. *)
Theorem mock_allocation_sums_to_100 net total risk horizon err :
  In risk ["conservative"; "moderate"; "aggressive"] ->
  api_optimize net total (Some risk) (default_param horizon "1y") = Throw err ->
  exists plan,
    optimizeYieldAllocation net total (Some risk) horizon = Ok plan
    /\ percent_total plan = 100.
Proof.
  intros Hrisk Hfail. eexists.
  split; [ eapply optimize_falls_back; eassumption |].
  cbn [In] in Hrisk.
  destruct Hrisk as [<- | [<- | [<- | []]]];
    [ apply percent_total_conservative | apply percent_total_moderate
    | apply percent_total_aggressive ].
Qed.

Lemma mock_allocation_sums_to_100_witness :
  exists plan,
    optimizeYieldAllocation Offline.defindex (Some "2500.75") (Some "moderate")
      (Some "6m") = Ok plan
    /\ percent_total plan = 100.
Proof.
  apply (mock_allocation_sums_to_100 Offline.defindex (Some "2500.75")
           "moderate" (Some "6m") (Error "Network Error")).
  - cbn [In]. auto.
  - reflexivity.
Defined.

(** C10: the mock path never rejects a risk tolerance. Any string other than
    "conservative" and "moderate" (the empty string, a misspelling) and an
    absent argument get the plan of the aggressive branch. *)
Theorem mock_optimization_defaults_to_aggressive net total risk horizon err :
  risk <> Some "conservative" -> risk <> Some "moderate" ->
  api_optimize net total risk (default_param horizon "1y") = Throw err ->
  exists plan,
    optimizeYieldAllocation net total risk horizon = Ok plan
    /\ recommendedAllocation plan
       = recommendedAllocation
           (getMockOptimization total (Some "aggressive")
              (default_param horizon "1y"))
    /\ expectedPortfolioApy plan
       = expectedPortfolioApy
           (getMockOptimization total (Some "aggressive")
              (default_param horizon "1y"))
    /\ weights plan = [(low, "30"); (medium, "40"); (high, "30")].
Proof.
  intros Hc Hm Hfail. eexists.
  split; [ eapply optimize_falls_back; eassumption |].
  assert (Ec : strict_eq "conservative" risk = false).
  { destruct risk as [r |]; [| reflexivity]. cbn [strict_eq].
    apply String.eqb_neq. intros <-. apply Hc. reflexivity. }
  assert (Em : strict_eq "moderate" risk = false).
  { destruct risk as [r |]; [| reflexivity]. cbn [strict_eq].
    apply String.eqb_neq. intros <-. apply Hm. reflexivity. }
  unfold weights, getMockOptimization.
  cbn [recommendedAllocation expectedPortfolioApy].
  rewrite Ec, Em. repeat split; reflexivity.
Qed.

Lemma mock_optimization_defaults_to_aggressive_witness :
  exists plan,
    optimizeYieldAllocation Offline.defindex (Some "10000") (Some "") None
    = Ok plan
    /\ recommendedAllocation plan
       = recommendedAllocation
           (getMockOptimization (Some "10000") (Some "aggressive") "1y")
    /\ expectedPortfolioApy plan
       = expectedPortfolioApy
           (getMockOptimization (Some "10000") (Some "aggressive") "1y")
    /\ weights plan = [(low, "30"); (medium, "40"); (high, "30")].
Proof.
  apply (mock_optimization_defaults_to_aggressive Offline.defindex
           (Some "10000") (Some "") None (Error "Network Error"));
    [ discriminate | discriminate | reflexivity ].
Defined.

End AllocationFacts.

(** ** Vault lookup on the mock path *)

Module VaultFacts.

Import JS Defindex.

Lemma strict_eq_true a b : strict_eq a b = true -> b = Some a.
Proof.
  destruct b as [t |]; cbn [strict_eq]; [| discriminate].
  intros H. apply String.eqb_eq in H. now subst.
Qed.

Lemma find_absent (vaultAddress' : option string) :
  (forall v, In v mockVaults -> Some (address v) <> vaultAddress') ->
  find (fun vault => strict_eq (address vault) vaultAddress') mockVaults = None.
Proof.
  intros Habsent.
  destruct (find _ mockVaults) as [v |] eqn:Hfind; [| reflexivity].
  apply find_some in Hfind. destruct Hfind as [Hin Heq].
  apply strict_eq_true in Heq. symmetry in Heq.
  exfalso. exact (Habsent v Hin Heq).
Qed.

(** C7: [getVaultDetails] with an address that no cataloged vault has does
    not fail on the mock path: it resolves to the first vault of the
    catalog, the low-risk "Stellar Stable Yield Vault". *)
Theorem unknown_vault_resolves_to_first net vaultAddress' err :
  api_vault net vaultAddress' = Throw err ->
  (forall v, In v mockVaults -> Some (address v) <> vaultAddress') ->
  exists v,
    getVaultDetails net vaultAddress' = Ok (Some v)
    /\ nth_error mockVaults 0 = Some v
    /\ name v = "Stellar Stable Yield Vault"
    /\ riskLevel v = low.
Proof.
  intros Hfail Habsent.
  unfold getVaultDetails. rewrite Hfail. cbn [try_catch].
  unfold getMockVaultDetails.
  change (getMockVaults None None) with mockVaults.
  rewrite (find_absent _ Habsent).
  eexists. repeat split; reflexivity.
Qed.

Lemma unknown_vault_resolves_to_first_witness :
  exists v,
    getVaultDetails Offline.defindex (Some "GNOTAVAULT") = Ok (Some v)
    /\ nth_error mockVaults 0 = Some v
    /\ name v = "Stellar Stable Yield Vault"
    /\ riskLevel v = low.
Proof.
  apply (unknown_vault_resolves_to_first Offline.defindex (Some "GNOTAVAULT")
           (Error "Network Error")).
  - reflexivity.
  - intros v Hin. cbn [In mockVaults] in Hin.
    destruct Hin as [<- | [<- | [<- | []]]]; discriminate.
Defined.

End VaultFacts.

(** ** Filtering the mock trading pairs *)

Module PairFacts.

Import JS Soroswap.
Import PairTerms.

Lemma strict_eq_iff a t : strict_eq a (Some t) = true <-> a = t.
Proof. cbn [strict_eq]. apply String.eqb_eq. Qed.

Lemma strict_eq_opt_iff a t : strict_eq_opt a (Some t) = true <-> a = Some t.
Proof.
  destruct a as [s |]; cbn [strict_eq_opt].
  - rewrite String.eqb_eq. split; [ now intros -> | now intros [= ->] ].
  - split; discriminate.
Qed.

Lemma pair_matches_iff t pair :
  pair_matches (Some t) pair = true <-> token_is t pair.
Proof.
  unfold pair_matches, token_is.
  rewrite !orb_true_iff, !strict_eq_iff, !strict_eq_opt_iff. tauto.
Qed.

Lemma pairs_fall_back net token err :
  api_pairs net (if truthy token then token else None) = Throw err ->
  getTokenPairs net token = Ok (getMockTokenPairs token).
Proof.
  intros Hfail. unfold getTokenPairs. rewrite Hfail. reflexivity.
Qed.

(** The claim C8 as it is written fails for the empty string, which the
    adapter reads as no filter: both pairs come back although neither has
    an empty symbol or address. *)
Lemma exact_filter_fails_on_empty_token :
  exists filtered pair,
    getTokenPairs Offline.soroswap (Some "") = Ok filtered
    /\ In pair filtered /\ ~ token_is "" pair.
Proof.
  eexists. eexists. split; [ reflexivity |].
  split; [ left; reflexivity |].
  unfold token_is. cbn. intuition discriminate.
Qed.

(** C8, amended: on the mock path the pairs returned for a token are among
    those returned without a filter; for a non-empty token they are exactly
    the pairs one of whose sides has that symbol or that address; the empty
    string and an absent token return every pair. *)
Theorem mock_pairs_filtered_by_exact_match net token err err' :
  api_pairs net (if truthy token then token else None) = Throw err ->
  api_pairs net None = Throw err' ->
  exists filtered every,
    getTokenPairs net token = Ok filtered
    /\ getTokenPairs net None = Ok every
    /\ incl filtered every
    /\ (forall t, token = Some t -> t <> "" ->
        forall pair, In pair filtered <-> In pair every /\ token_is t pair)
    /\ (token = Some "" \/ token = None -> filtered = every).
Proof.
  intros Hfail Hfail'.
  exists (getMockTokenPairs token), (getMockTokenPairs None).
  split; [ apply (pairs_fall_back _ _ _ Hfail) |].
  split; [ apply (pairs_fall_back _ None _ Hfail') |].
  change (getMockTokenPairs None) with mockPairs.
  unfold getMockTokenPairs.
  split; [| split].
  - destruct (truthy token); [ apply incl_filter | apply incl_refl ].
  - intros t -> Hnonempty pair.
    destruct t as [| c r]; [ contradiction |]. cbn [truthy].
    rewrite filter_In, pair_matches_iff. tauto.
  - intros [-> | ->]; reflexivity.
Qed.

Lemma mock_pairs_filtered_by_exact_match_witness :
  exists filtered every,
    getTokenPairs Offline.soroswap (Some "USDC") = Ok filtered
    /\ getTokenPairs Offline.soroswap None = Ok every
    /\ incl filtered every
    /\ (forall t, Some "USDC" = Some t -> t <> "" ->
        forall pair, In pair filtered <-> In pair every /\ token_is t pair)
    /\ (Some "USDC" = Some "" \/ Some "USDC" = None -> filtered = every).
Proof.
  apply (mock_pairs_filtered_by_exact_match Offline.soroswap (Some "USDC")
           (Error "Network Error") (Error "Network Error"));
    reflexivity.
Defined.

End PairFacts.

(** ** Strings of digits *)

Module StringFacts.

Import JSNumber JSON.

Lemma append_assoc (a b c : string) : (a ++ b) ++ c = a ++ b ++ c.
Proof. induction a as [| x a IH]; cbn; [reflexivity | now rewrite IH]. Qed.

Lemma append_nil_r (a : string) : a ++ "" = a.
Proof. induction a as [| x a IH]; cbn; [reflexivity | now rewrite IH]. Qed.

Lemma length_append (a b : string) :
  String.length (a ++ b) = (String.length a + String.length b)%nat.
Proof. induction a as [| x a IH]; cbn; [reflexivity | now rewrite IH]. Qed.

Lemma json_ws_app (a b : string) :
  json_ws (a ++ b) = json_ws a && json_ws b.
Proof.
  induction a as [| x a IH]; cbn; [reflexivity |].
  now rewrite IH, andb_assoc.
Qed.

Lemma all_digits_app (a b : string) :
  all_digits (a ++ b) = all_digits a && all_digits b.
Proof.
  induction a as [| x a IH]; cbn; [reflexivity |].
  now rewrite IH, andb_assoc.
Qed.

Lemma all_digits_zeros n : all_digits (zeros n) = true.
Proof. induction n as [| n IH]; cbn; [reflexivity | exact IH]. Qed.

Lemma all_digits_take n s : all_digits s = true -> all_digits (take n s) = true.
Proof.
  revert s. induction n as [| n IH]; intros [| c r]; cbn; try reflexivity.
  intros H. apply andb_true_iff in H. destruct H as [Hc Hr].
  now rewrite Hc, (IH r Hr).
Qed.

Lemma all_digits_drop n s : all_digits s = true -> all_digits (drop n s) = true.
Proof.
  revert s. induction n as [| n IH]; intros [| c r]; cbn; try reflexivity;
    try (intros H; exact H).
  intros H. apply andb_true_iff in H. destruct H as [_ Hr]. exact (IH r Hr).
Qed.

Lemma drop_nonempty n s :
  (n < String.length s)%nat -> drop n s <> "".
Proof.
  revert s. induction n as [| n IH]; intros [| c r]; cbn; intros H;
    try lia; try discriminate.
  apply IH. lia.
Qed.

(** The characters that [string_of_uint] writes are digits. *)
Lemma all_digits_of_uint (d : Decimal.uint) :
  all_digits (NilEmpty.string_of_uint d) = true.
Proof. induction d; cbn; auto. Qed.

Lemma length_of_uint (d : Decimal.uint) :
  String.length (NilEmpty.string_of_uint d) = Decimal.nb_digits d.
Proof. induction d; cbn; auto. Qed.

(** A normal form of [unorm] other than [0] does not start with [0]. *)
Lemma unorm_fixed_no_leading_zero (d : Decimal.uint) :
  Decimal.unorm d = d -> d <> Decimal.zero ->
  match d with
  | Decimal.Nil | Decimal.D0 _ => False
  | _ => True
  end.
Proof.
  intros Hfix Hnz. destruct d; try exact I.
  - cbn in Hfix. discriminate.
  - exfalso. rewrite unorm_D0 in Hfix.
    destruct (Decimal.uint_eq_dec (Decimal.nzhead d) Decimal.Nil) as [Hnil | Hnn].
    + unfold Decimal.unorm in Hfix. rewrite Hnil in Hfix.
      apply Hnz. now rewrite <- Hfix.
    + rewrite (unorm_nzhead d Hnn) in Hfix.
      pose proof (nb_digits_nzhead d) as Hle.
      rewrite Hfix in Hle. cbn in Hle. lia.
Qed.

Lemma pos_to_uint_fixed (p : positive) : Decimal.unorm (Pos.to_uint p) = Pos.to_uint p.
Proof.
  rewrite <- (DecimalPos.Unsigned.to_of (Pos.to_uint p)).
  rewrite DecimalPos.Unsigned.of_to. reflexivity.
Qed.

(** The digits of a positive integer form a JSON [int]. *)
Lemma json_int_digits_of_pos (p : positive) : json_int (digits_of_pos p) = true.
Proof.
  unfold digits_of_pos.
  pose proof (unorm_fixed_no_leading_zero _ (pos_to_uint_fixed p)
                (DecimalPos.Unsigned.to_uint_nonzero p)) as Hhead.
  pose proof (all_digits_of_uint (Pos.to_uint p)) as Hall.
  destruct (Pos.to_uint p); try contradiction; cbn in Hall |- *; exact Hall.
Qed.

Lemma digits_of_N_nonempty (n : N) : digits_of_N n <> "".
Proof.
  unfold digits_of_N. destruct n as [| p]; cbn; [discriminate |].
  pose proof (DecimalPos.Unsigned.to_uint_nonnil p) as Hnn.
  destruct (Pos.to_uint p); try contradiction; cbn; discriminate.
Qed.

Lemma all_digits_of_N (n : N) : all_digits (digits_of_N n) = true.
Proof. apply all_digits_of_uint. Qed.

End StringFacts.

(** ** What [Number.prototype.toString] writes for a finite number *)

Module NumberFacts.

Import JSNumber JSON StringFacts.
Import JSONTerms.

Lemma digits_of_pos_shape (p : positive) :
  exists c r,
    digits_of_pos p = String c r /\ is_digit c = true
    /\ Ascii.eqb c "0" = false /\ all_digits r = true.
Proof.
  unfold digits_of_pos.
  pose proof (unorm_fixed_no_leading_zero _ (pos_to_uint_fixed p)
                (DecimalPos.Unsigned.to_uint_nonzero p)) as Hhead.
  pose proof (all_digits_of_uint (Pos.to_uint p)) as Hall.
  destruct (Pos.to_uint p); try contradiction; cbn in Hall |- *;
    eexists; eexists; (split; [reflexivity |]); auto.
Qed.

Lemma json_exp_scientific (ex : Z) :
  json_exp ("e" ++ (if (ex <? 0)%Z then "-" else "+")
            ++ digits_of_N (Z.abs_N ex)) = true.
Proof.
  pose proof (digits_of_N_nonempty (Z.abs_N ex)) as Hne.
  pose proof (all_digits_of_N (Z.abs_N ex)) as Hall.
  destruct (ex <? 0)%Z; cbn;
    destruct (digits_of_N (Z.abs_N ex)); try contradiction; exact Hall.
Qed.

Lemma json_unsigned_intro (i f e s : string) :
  json_int i = true -> json_frac f = true -> json_exp e = true ->
  s = i ++ f ++ e -> json_unsigned s.
Proof. intros. exists i, f, e. auto. Qed.

Lemma format_digits_json (c : ascii) (r : string) (n : Z) :
  is_digit c = true -> Ascii.eqb c "0" = false -> all_digits r = true ->
  json_unsigned (format_digits (String c r) n).
Proof.
  intros Hc Hnz Hr. unfold format_digits.
  set (k := Z.of_nat (String.length (String c r))).
  assert (Hk : k = (1 + Z.of_nat (String.length r))%Z)
    by (unfold k; cbn [String.length]; lia).
  destruct ((k <=? n)%Z && (n <=? 21)%Z) eqn:Hint.
  - (* an integer: the digits, then zeros *)
    apply (json_unsigned_intro
             (String c (r ++ zeros (Z.to_nat (n - k)))) "" "").
    + cbn. rewrite Hnz, Hc, all_digits_app, Hr, all_digits_zeros. reflexivity.
    + reflexivity.
    + reflexivity.
    + cbn. now rewrite !append_nil_r.
  - destruct ((0 <? n)%Z && (n <=? 21)%Z) eqn:Hfrac.
    + (* the decimal point falls inside the digits *)
      apply andb_true_iff in Hfrac. destruct Hfrac as [Hpos Hle].
      rewrite Hle, andb_true_r in Hint.
      apply Z.ltb_lt in Hpos. apply Z.leb_gt in Hint.
      destruct (Z.to_nat n) as [| n'] eqn:Hn; [lia |].
      apply (json_unsigned_intro
               (String c (take n' r)) (String "." (drop n' r)) "").
      * cbn. now rewrite Hnz, Hc, (all_digits_take n' r Hr).
      * cbn. rewrite (all_digits_drop n' r Hr), andb_true_r.
        apply negb_true_iff, String.eqb_neq, drop_nonempty. lia.
      * reflexivity.
      * cbn. now rewrite append_nil_r.
    + destruct ((-6 <? n)%Z && (n <=? 0)%Z) eqn:Hsmall.
      * (* zero, the point, zeros, the digits *)
        apply (json_unsigned_intro
                 "0" (String "." (zeros (Z.to_nat (- n)) ++ String c r)) "").
        -- reflexivity.
        -- cbn. rewrite all_digits_app, all_digits_zeros. cbn.
           rewrite Hc, Hr, andb_true_r.
           apply negb_true_iff, String.eqb_neq.
           destruct (zeros (Z.to_nat (- n))); discriminate.
        -- reflexivity.
        -- cbn. now rewrite append_nil_r.
      * (* scientific notation *)
        destruct r as [| c' r'].
        -- apply (json_unsigned_intro
                    (String c "") ""
                    ("e" ++ (if (n - 1 <? 0)%Z then "-" else "+")
                     ++ digits_of_N (Z.abs_N (n - 1)))).
           ++ cbn. now rewrite Hnz, Hc.
           ++ reflexivity.
           ++ apply json_exp_scientific.
           ++ reflexivity.
        -- apply (json_unsigned_intro
                    (String c "") (String "." (String c' r'))
                    ("e" ++ (if (n - 1 <? 0)%Z then "-" else "+")
                     ++ digits_of_N (Z.abs_N (n - 1)))).
           ++ cbn. now rewrite Hnz, Hc.
           ++ cbn. cbn in Hr. now rewrite Hr.
           ++ apply json_exp_scientific.
           ++ cbn. rewrite ?append_assoc. reflexivity.
Qed.

Lemma toString_finite_json (m : positive) (e : Z) :
  json_unsigned (toString_finite m e).
Proof.
  unfold toString_finite. destruct (shortest m e) as [s q].
  destruct (digits_of_pos_shape s) as (c & r & -> & Hc & Hnz & Hr).
  now apply format_digits_json.
Qed.

(** A finite number is a zero or has a significand and an exponent. *)
Lemma is_finite_cases (x : number) :
  is_finite x = true ->
  match Prim2SF x with
  | S754_nan | S754_infinity _ => False
  | _ => True
  end.
Proof.
  unfold is_finite, is_nan, is_infinity.
  rewrite !eqb_spec, abs_spec.
  change (Prim2SF infinity) with (S754_infinity false).
  destruct (Prim2SF x) as [s | s | | s m e]; cbn; try discriminate; auto.
  destruct s; cbn; discriminate.
Qed.

(** [JSON.stringify] writes a finite number as a JSON number. *)
Lemma toString_json_number (x : number) :
  is_finite x = true -> json_number (toString x).
Proof.
  intros Hfin. apply is_finite_cases in Hfin. unfold toString.
  destruct (Prim2SF x) as [s | s | | s m e]; try contradiction.
  - exact (jn_parts false "0" "" "" eq_refl eq_refl eq_refl).
  - destruct (toString_finite_json m e) as (i & f & ex & Hi & Hf & He & ->).
    destruct s.
    + exact (jn_parts true i f ex Hi Hf He).
    + exact (jn_parts false i f ex Hi Hf He).
Qed.

End NumberFacts.

(** ** [JSON.stringify] writes JSON *)

Module JSONFacts.

Import JSNumber JSON StringFacts NumberFacts.
Import JSONTerms.

Ltac chars_step H :=
  first
    [ apply jc_unicode; [reflexivity | reflexivity | reflexivity | reflexivity | exact H]
    | apply jc_escape; [cbv [In escapable dquote backslash]; auto 12 | exact H]
    | apply jc_plain;
      [apply N.leb_le; reflexivity | discriminate | discriminate | exact H] ].

Lemma escape_char_chars (c : ascii) (rest : string) :
  json_chars rest -> json_chars (escape_char c ++ rest).
Proof.
  intros H.
  destruct c as [[] [] [] [] [] [] [] []]; cbn; chars_step H.
Qed.

Lemma escape_chars (s rest : string) :
  json_chars rest -> json_chars (escape s ++ rest).
Proof.
  intros H. induction s as [| c s IH]; cbn; [exact H |].
  rewrite append_assoc. now apply escape_char_chars.
Qed.

Lemma quote_json_string (s : string) : json_string (quote s).
Proof.
  unfold quote. apply js_quoted.
  rewrite <- (append_nil_r (escape s)). apply escape_chars. constructor.
Qed.

Lemma je_last_eq w1 v w2 s :
  json_ws w1 = true -> json_value v -> json_ws w2 = true ->
  s = w1 ++ v ++ w2 -> json_elements s.
Proof. intros ? ? ? ->. now constructor. Qed.

Lemma je_more_eq w1 v w2 rest s :
  json_ws w1 = true -> json_value v -> json_ws w2 = true ->
  json_elements rest -> s = w1 ++ v ++ w2 ++ "," ++ rest -> json_elements s.
Proof. intros ? ? ? ? ->. now constructor. Qed.

Lemma jm_last_eq w1 k w2 w3 v w4 s :
  json_ws w1 = true -> json_string k -> json_ws w2 = true ->
  json_ws w3 = true -> json_value v -> json_ws w4 = true ->
  s = w1 ++ k ++ w2 ++ ":" ++ w3 ++ v ++ w4 -> json_members s.
Proof. intros ? ? ? ? ? ? ->. now constructor. Qed.

Lemma jm_more_eq w1 k w2 w3 v w4 rest s :
  json_ws w1 = true -> json_string k -> json_ws w2 = true ->
  json_ws w3 = true -> json_value v -> json_ws w4 = true ->
  json_members rest ->
  s = w1 ++ k ++ w2 ++ ":" ++ w3 ++ v ++ w4 ++ "," ++ rest -> json_members s.
Proof. intros ? ? ? ? ? ? ? ->. now constructor. Qed.

(** Two spellings of one text: appends reassociated and computed. *)
Ltac same_text :=
  repeat (progress (cbn [append nl join]; rewrite ?append_assoc)); reflexivity.

Lemma ws_break (indent : string) : json_ws indent = true -> json_ws (nl ++ indent) = true.
Proof. intros H. cbn. exact H. Qed.

Lemma ws_deeper (indent : string) : json_ws indent = true -> json_ws (indent ++ gap) = true.
Proof. intros H. rewrite json_ws_app, H. reflexivity. Qed.

(** The lines between the brackets of a non-empty array. *)
Lemma elements_joined (inner indent : string) (parts : list string) :
  json_ws inner = true -> json_ws indent = true ->
  parts <> [] -> Forall json_value parts ->
  json_elements (nl ++ inner ++ join ("," ++ nl ++ inner) parts ++ nl ++ indent).
Proof.
  intros Hinner Hindent Hne Hall.
  induction parts as [| x r IH]; [contradiction |].
  inversion Hall as [| ? ? Hx Hr]; subst.
  destruct r as [| y r'].
  - apply (je_last_eq (nl ++ inner) x (nl ++ indent));
      auto using ws_break; same_text.
  - apply (je_more_eq (nl ++ inner) x ""
             (nl ++ inner ++ join ("," ++ nl ++ inner) (y :: r') ++ nl ++ indent));
      auto using ws_break.
    + apply IH; [discriminate | assumption].
    + cbn [join]; same_text.
Qed.

Lemma members_joined (inner indent : string) (parts : list string) :
  json_ws inner = true -> json_ws indent = true ->
  parts <> [] -> Forall json_member parts ->
  json_members (nl ++ inner ++ join ("," ++ nl ++ inner) parts ++ nl ++ indent).
Proof.
  intros Hinner Hindent Hne Hall.
  induction parts as [| x r IH]; [contradiction |].
  inversion Hall as [| ? ? Hx Hr]; subst.
  destruct Hx as (key & v & -> & Hv).
  destruct r as [| y r'].
  - apply (jm_last_eq (nl ++ inner) (quote key) "" " " v (nl ++ indent));
      auto using ws_break, quote_json_string; unfold member; same_text.
  - apply (jm_more_eq (nl ++ inner) (quote key) "" " " v ""
             (nl ++ inner ++ join ("," ++ nl ++ inner) (y :: r') ++ nl ++ indent));
      auto using ws_break, quote_json_string.
    + apply IH; [discriminate | assumption].
    + cbn [join]. unfold member. same_text.
Qed.

Lemma wrap_array (indent : string) (parts : list string) :
  json_ws indent = true -> Forall json_value parts ->
  json_value (wrap "[" "]" indent parts).
Proof.
  intros Hindent Hall. unfold wrap.
  destruct parts as [| x r] eqn:Hparts.
  - exact (jv_array_empty "" eq_refl).
  - rewrite <- Hparts in *.
    pose proof (elements_joined (indent ++ gap) indent parts
                  (ws_deeper _ Hindent) Hindent) as Hbody.
    assert (Hne : parts <> []) by (rewrite Hparts; discriminate).
    specialize (Hbody Hne Hall).
    apply jv_array in Hbody.
    replace ("[" ++ nl ++ (indent ++ gap)
             ++ join ("," ++ nl ++ indent ++ gap) parts ++ nl ++ indent ++ "]")
      with ("[" ++ (nl ++ (indent ++ gap)
                    ++ join ("," ++ nl ++ indent ++ gap) parts ++ nl ++ indent)
            ++ "]"); [exact Hbody |].
    same_text.
Qed.

Lemma wrap_object (indent : string) (parts : list string) :
  json_ws indent = true -> Forall json_member parts ->
  json_value (wrap "{" "}" indent parts).
Proof.
  intros Hindent Hall. unfold wrap.
  destruct parts as [| x r] eqn:Hparts.
  - exact (jv_object_empty "" eq_refl).
  - rewrite <- Hparts in *.
    pose proof (members_joined (indent ++ gap) indent parts
                  (ws_deeper _ Hindent) Hindent) as Hbody.
    assert (Hne : parts <> []) by (rewrite Hparts; discriminate).
    specialize (Hbody Hne Hall).
    apply jv_object in Hbody.
    replace ("{" ++ nl ++ (indent ++ gap)
             ++ join ("," ++ nl ++ indent ++ gap) parts ++ nl ++ indent ++ "}")
      with ("{" ++ (nl ++ (indent ++ gap)
                    ++ join ("," ++ nl ++ indent ++ gap) parts ++ nl ++ indent)
            ++ "}"); [exact Hbody |].
    same_text.
Qed.

(** Whatever [SerializeJSONProperty] writes is a JSON value. *)
Theorem serialize_json_value (v : value) :
  forall indent text,
    json_ws indent = true -> serialize indent v = Some text -> json_value text.
Proof.
  induction v as [| | b | x | s | items IH | fields IH] using value_ind;
    intros indent text Hindent Hser; cbn [serialize] in Hser;
    try discriminate; injection Hser as <-.
  - constructor.
  - destruct b; constructor.
  - destruct (is_finite x) eqn:Hfin.
    + apply jv_number. now apply toString_json_number.
    + constructor.
  - apply jv_string, quote_json_string.
  - apply wrap_array; [assumption |].
    induction IH as [| item r Hitem _ IHr]; cbn [map]; constructor; auto.
    destruct (serialize (indent ++ gap) item) as [t |] eqn:Hs.
    + exact (Hitem _ _ (ws_deeper _ Hindent) Hs).
    + constructor.
  - apply wrap_object; [assumption |].
    induction IH as [| kv r Hkv _ IHr]; cbn [flat_map]; [constructor |].
    destruct (serialize (indent ++ gap) (snd kv)) as [t |] eqn:Hs; cbn.
    + constructor; [| exact IHr].
      exists (fst kv), t. split; [reflexivity |].
      exact (Hkv _ _ (ws_deeper _ Hindent) Hs).
    + exact IHr.
Qed.

(** [JSON.stringify(object, null, 2)] is a JSON text. *)
Theorem stringify_object_json (fields : list (string * value)) :
  json_text (stringify (Obj fields)).
Proof.
  unfold stringify.
  destruct (serialize "" (Obj fields)) as [t |] eqn:Hs; [| discriminate].
  apply (serialize_json_value _ "" t eq_refl) in Hs.
  pose proof (jt_value "" t "" eq_refl Hs eq_refl) as Htext.
  cbn in Htext. now rewrite append_nil_r in Htext.
Qed.

End JSONFacts.

(** ** The dispatcher *)

Module ServerFacts.

Import JSNumber JS JSON Server.
Import ServerTerms.
Local Open Scope float_scope.

Lemma document_ok fields : document (Ok (stringify (Obj fields))).
Proof. now exists fields. Qed.

(** A [try] whose body and whose [catch] both end by serialising an
    object. *)
Lemma guarded_document {A : Type} (fetch : result A)
  (report : A -> list (string * value)) (what : string) :
  document
    (try_catch (x <- fetch ;; Ok (stringify (Obj (report x))))
       (fun error => Ok (stringify (failure_value what error)))).
Proof.
  destruct fetch as [x | e]; cbn [bind try_catch]; apply document_ok.
Qed.

Lemma getSoroswapTokenPairs_document env net token' :
  document (getSoroswapTokenPairs env net token').
Proof. apply guarded_document. Qed.

Lemma getSoroswapSwapQuote_document env net a b c d :
  document (getSoroswapSwapQuote env net a b c d).
Proof. apply guarded_document. Qed.

Lemma getDefindexVaults_document env net a b :
  document (getDefindexVaults env net a b).
Proof. apply guarded_document. Qed.

Lemma getCombinedPortfolioAnalysis_document env net user flag :
  document (getCombinedPortfolioAnalysis env net user flag).
Proof.
  unfold getCombinedPortfolioAnalysis.
  destruct (Soroswap.getUserPositions (soroswap net) user) as [sp | e];
    cbn [bind try_catch]; [| apply document_ok].
  destruct (Defindex.getUserPositions (defindex net) (now env) user) as [dp | e];
    cbn [bind try_catch]; apply document_ok.
Qed.

Lemma getSoroswapLiquidityPools_document a :
  document (getSoroswapLiquidityPools a).
Proof. apply document_ok. Qed.

Lemma getSoroswapTokenPrice_document env a b :
  document (getSoroswapTokenPrice env a b).
Proof. apply document_ok. Qed.

Lemma getDefindexVaultDetails_document a :
  document (getDefindexVaultDetails a).
Proof. apply document_ok. Qed.

Lemma optimizeDefindexAllocation_document a b c :
  document (optimizeDefindexAllocation a b c).
Proof. apply document_ok. Qed.

(** Every case of the [switch] returns a serialised object. *)
Lemma dispatch_recognized env net name args :
  recognized name = true -> document (dispatch env net name args).
Proof.
  unfold recognized, dispatch. cbn [tool_names tools map tool_name existsb].
  repeat match goal with
         | |- context [String.eqb name ?s] =>
             destruct (String.eqb name s) eqn:?
         end;
    try discriminate; intros _;
    auto using getSoroswapTokenPairs_document, getSoroswapSwapQuote_document,
      getDefindexVaults_document, getCombinedPortfolioAnalysis_document,
      getSoroswapLiquidityPools_document, getSoroswapTokenPrice_document,
      getDefindexVaultDetails_document, optimizeDefindexAllocation_document.
Qed.

(** The [default] case throws. *)
Lemma dispatch_unknown env net name args :
  recognized name = false ->
  dispatch env net name args = Throw (Error ("Unknown tool: " ++ name)).
Proof.
  unfold recognized, dispatch. cbn [tool_names tools map tool_name existsb].
  repeat match goal with
         | |- context [String.eqb name ?s] =>
             destruct (String.eqb name s) eqn:?
         end;
    try discriminate; reflexivity.
Qed.

(** C1: [invoke] always returns a result, never an exception. For a
    recognized name the result is not an error and its text is a JSON text;
    for any other name the result has [isError = true] and the non-empty
    message "Error: Unknown tool: <name>". *)
Theorem invoke_returns_json_or_error env net name args :
  exists r,
    invoke env net name args = Ok r
    /\ if recognized name then
         isError r = None
         /\ exists t, content r = [ {| type := "text"; text := t |} ]
                      /\ json_text t
       else
         isError r = Some true
         /\ exists message,
              content r = [ {| type := "text"; text := message |} ]
              /\ message = "Error: Unknown tool: " ++ name
              /\ message <> "".
Proof.
  unfold invoke.
  destruct (recognized name) eqn:Hname.
  - destruct (dispatch_recognized env net name args Hname) as [fields ->].
    cbn [bind try_catch]. eexists. split; [reflexivity |].
    split; [reflexivity |].
    eexists. split; [reflexivity |]. apply JSONFacts.stringify_object_json.
  - rewrite (dispatch_unknown env net name args Hname).
    cbn [bind try_catch]. eexists. split; [reflexivity |].
    split; [reflexivity |].
    eexists. split; [reflexivity |]. split; [reflexivity |]. discriminate.
Qed.

(** C2: when the request for the pairs fails the adapter substitutes its
    mock pairs, and the tool result carries them without an error flag
    (its [isError] is absent, which reads as [false]). [isError = true]
    is produced for an unrecognized name only: the handlers catch what
    the adapters throw, so no other path sets it. *)
Theorem fallback_is_not_an_error env net args name err :
  Soroswap.api_pairs (soroswap net)
    (if truthy (arg args token) then arg args token else None) = Throw err ->
  (exists r,
     invoke env net "soroswap_get_token_pairs" args = Ok r
     /\ isError r = None /\ is_error r = false
     /\ content r
        = [ {| type := "text";
               text :=
                 stringify
                   (pairs_report env
                      (Soroswap.getMockTokenPairs (arg args token))) |} ])
  /\ (forall r,
        invoke env net name args = Ok r -> isError r = Some true ->
        recognized name = false).
Proof.
  intros Hfail. split.
  - unfold invoke, dispatch. cbn [String.eqb Ascii.eqb Bool.eqb].
    unfold getSoroswapTokenPairs, Soroswap.getTokenPairs.
    rewrite Hfail. cbn [bind try_catch].
    eexists. repeat split; reflexivity.
  - intros r Hr Herr.
    destruct (recognized name) eqn:Hname; [| reflexivity].
    destruct (dispatch_recognized env net name args Hname) as [fields Hdoc].
    unfold invoke in Hr. rewrite Hdoc in Hr. cbn [bind try_catch] in Hr.
    injection Hr as <-. discriminate.
Qed.

Lemma fallback_is_not_an_error_witness :
  (exists r,
     invoke Offline.env Offline.network "soroswap_get_token_pairs"
       (Some no_arguments) = Ok r
     /\ isError r = None /\ is_error r = false
     /\ content r
        = [ {| type := "text";
               text :=
                 stringify
                   (pairs_report Offline.env
                      (Soroswap.getMockTokenPairs
                         (arg (Some no_arguments) token))) |} ])
  /\ (forall r,
        invoke Offline.env Offline.network "no_such_tool" (Some no_arguments)
        = Ok r ->
        isError r = Some true -> recognized "no_such_tool" = false).
Proof.
  apply (fallback_is_not_an_error Offline.env Offline.network
           (Some no_arguments) "no_such_tool" (Error "Network Error")).
  reflexivity.
Defined.

(** *** The combined portfolio summary *)

(** The handler always answers with the analysis of the positions the two
    adapters resolved to, or with its failure object. *)
Lemma analysis_reports_summary env net user flag :
  (exists sp dp,
     Soroswap.getUserPositions (soroswap net) user = Ok sp
     /\ Defindex.getUserPositions (defindex net) (now env) user = Ok dp
     /\ getCombinedPortfolioAnalysis env net user flag
        = Ok (stringify
                (Obj [ ("analysis", analysis_value user flag sp dp);
                       ("network", Str (network_name env));
                       ("timestamp", Str (now env)) ])))
  \/ (exists error,
        getCombinedPortfolioAnalysis env net user flag
        = Ok (stringify
                (failure_value "Failed to fetch combined portfolio analysis"
                   error))).
Proof.
  unfold getCombinedPortfolioAnalysis.
  destruct (Soroswap.getUserPositions (soroswap net) user) as [sp | e];
    cbn [bind try_catch]; [| right; now exists e].
  destruct (Defindex.getUserPositions (defindex net) (now env) user) as [dp | e];
    cbn [bind try_catch]; [| right; now exists e].
  left. exists sp, dp. auto.
Qed.

Lemma zero_is_not_positive (x : number) : (x =? 0) = true -> (0 <? x) = false.
Proof.
  rewrite eqb_spec, ltb_spec.
  change (Prim2SF 0) with (S754_zero false).
  destruct (Prim2SF x) as [s | s | | s m e]; cbn; try discriminate; auto.
  - destruct s; discriminate.
  - destruct s; discriminate.
Qed.

(** The claim C9 as it is written fails where the quotient has more than
    two decimals: a value of 3 with a profit of 1 is reported as "33.33",
    which is not the number 1 / 3 * 100. *)
Lemma percent_is_cut_to_two_decimals :
  totalPnlPercent (summarize [] [thirds]) = "33.33"
  /\ toString (portfolio_pnl [] [thirds] / portfolio_value [] [thirds] * 100)
     = "33.33333333333333"
  /\ parseFloat (totalPnlPercent (summarize [] [thirds]))
     <> portfolio_pnl [] [thirds] / portfolio_value [] [thirds] * 100.
Proof.
  split; [vm_compute; reflexivity |].
  split; [vm_compute; reflexivity |].
  intros H. apply (f_equal toString) in H. vm_compute in H. discriminate.
Qed.

(** C9, amended: with [totalValue] and [totalPnl] the sums of the two
    position lists, the reported [totalPnlPercent] is
    [totalPnl / totalValue * 100] written with two decimals ([toFixed(2)])
    when [totalValue] is positive, and the string "0" otherwise; so a
    [totalValue] of 0 is reported as "0", not as "NaN" or "Infinity". *)
Theorem pnl_percent_is_guarded
  (sp : list Soroswap.Position) (dp : list Defindex.DefindexPosition) :
  let summary := summarize sp dp in
  let value := portfolio_value sp dp in
  let profit := portfolio_pnl sp dp in
  totalValue summary = toString value
  /\ totalPnl summary = toString profit
  /\ ((0 <? value) = true ->
      totalPnlPercent summary = toFixed (profit / value * 100) 2%nat)
  /\ ((0 <? value) = false -> totalPnlPercent summary = "0")
  /\ ((value =? 0) = true ->
      totalPnlPercent summary = "0"
      /\ totalPnlPercent summary <> "NaN"
      /\ totalPnlPercent summary <> "Infinity").
Proof.
  cbv zeta. unfold summarize. cbn [totalValue totalPnl totalPnlPercent].
  fold (portfolio_value sp dp). fold (portfolio_pnl sp dp).
  split; [reflexivity |]. split; [reflexivity |].
  split; [intros ->; reflexivity |].
  split; [intros ->; reflexivity |].
  intros Hzero. rewrite (zero_is_not_positive _ Hzero).
  repeat split; discriminate.
Qed.

Lemma pnl_percent_is_guarded_witness :
  let summary :=
    summarize (Soroswap.getMockUserPositions None)
      (Defindex.getMockUserPositions None) in
  totalValue summary = "12000"
  /\ totalPnl summary = "600"
  /\ totalPnlPercent summary = "5.00"
  /\ totalPnlPercent (summarize [] []) = "0".
Proof.
  cbv zeta.
  destruct (pnl_percent_is_guarded (Soroswap.getMockUserPositions None)
              (Defindex.getMockUserPositions None))
    as (Hvalue & Hpnl & Hpos & _).
  destruct (pnl_percent_is_guarded [] []) as (_ & _ & _ & _ & Hzero).
  rewrite Hvalue, Hpnl, (Hpos eq_refl).
  destruct (Hzero eq_refl) as [-> _].
  repeat split; vm_compute; reflexivity.
Defined.

End ServerFacts.

(** ** Multiplying a double by a power of two *)

Module FloatFacts.

Import JSNumber.
Import FloatTerms.
Local Open Scope Z_scope.

Lemma digits2_shift52 (m : positive) :
  Zpos (digits2_pos (m * P52)) = Zpos (digits2_pos m) + 52.
Proof.
  unfold P52. rewrite !Pos.mul_xO_r, Pos.mul_1_r. cbn [digits2_pos]. lia.
Qed.

Lemma shr_shift52 (m : positive) :
  iter_pos shr_1 52
    {| shr_m := Zpos (m * P52); shr_r := false; shr_s := false |}
  = {| shr_m := Zpos m; shr_r := false; shr_s := false |}.
Proof.
  unfold P52. rewrite !Pos.mul_xO_r, Pos.mul_1_r. reflexivity.
Qed.

(** Rounding [m * 2^52 * 2^(E - 52)] gives back [m * 2^E] when that is a
    double. *)
Lemma round_exact (s : bool) (m : positive) (E : Z) :
  bounded prec emax m E = true ->
  binary_round_aux prec emax s (Zpos (m * P52)) (E - 52) loc_Exact
  = S754_finite s m E.
Proof.
  intros Hb. unfold bounded in Hb. apply andb_true_iff in Hb.
  destruct Hb as [Hcan Hmax]. unfold canonical_mantissa in Hcan.
  apply Z.eqb_eq in Hcan.
  unfold binary_round_aux, shr_fexp.
  cbn [Zdigits2 shr_record_of_loc].
  rewrite digits2_shift52.
  replace (Zpos (digits2_pos m) + 52 + (E - 52))
    with (Zpos (digits2_pos m) + E) by lia.
  rewrite Hcan.
  replace (E - (E - 52)) with 52 by lia.
  cbn [shr]. rewrite shr_shift52.
  cbn [shr_m loc_of_shr_record round_nearest_even Zdigits2 shr_record_of_loc].
  replace (E - 52 + 52) with E by lia.
  rewrite Hcan. rewrite Z.sub_diag. cbn [shr shr_m].
  rewrite Hmax. reflexivity.
Qed.

Lemma bounded_pred (m : positive) (e : Z) :
  bounded prec emax m e = true -> -1073 <= e ->
  bounded prec emax m (e - 1) = true.
Proof.
  unfold bounded, canonical_mantissa, fexp, SpecFloat.emin, prec, emax.
  intros H He. apply andb_true_iff in H. destruct H as [Hc Hm].
  apply Z.eqb_eq in Hc. apply Z.leb_le in Hm.
  apply andb_true_iff. split; [apply Z.eqb_eq | apply Z.leb_le]; lia.
Qed.

Local Open Scope float_scope.

Lemma mul_one (x : number) : x * 1 = x.
Proof.
  apply Prim2SF_inj. rewrite mul_spec.
  change (Prim2SF 1) with (S754_finite false P52 (-52)).
  pose proof (Prim2SF_valid x) as Hv.
  destruct (Prim2SF x) as [s | s | | s m e]; cbn [SF64mul SFmul];
    rewrite ?xorb_false_r; try reflexivity.
  change (e + -52)%Z with (e - 52)%Z.
  apply round_exact. exact Hv.
Qed.

Lemma mul_half (x : number) s m e :
  Prim2SF x = S754_finite s m e -> (-1073 <= e)%Z ->
  Prim2SF (x * 0.5) = S754_finite s m (e - 1).
Proof.
  intros Hx He. rewrite mul_spec, Hx.
  change (Prim2SF 0.5) with (S754_finite false P52 (-53)).
  pose proof (Prim2SF_valid x) as Hv. rewrite Hx in Hv. cbn [valid_binary] in Hv.
  unfold SF64mul, SFmul. rewrite xorb_false_r.
  replace (e + -53)%Z with (e - 1 - 52)%Z by lia.
  apply round_exact. now apply bounded_pred.
Qed.

Lemma halves_exactly_cases (x : number) :
  halves_exactly x = true ->
  match Prim2SF x with
  | S754_finite _ _ e => (-1073 <= e)%Z
  | _ => True
  end.
Proof.
  unfold halves_exactly. rewrite eqb_spec, ltb_spec, abs_spec.
  change (Prim2SF 0) with (S754_zero false).
  change (Prim2SF halving_threshold) with (S754_finite false P52 (-1073)).
  destruct (Prim2SF x) as [s | s | | s m e]; try exact (fun _ => I).
  cbn [SFabs]. unfold SFeqb, SFltb. cbn [SFcompare].
  destruct (Z.compare_spec e (-1073)) as [-> | Hlt | Hgt]; intros H; try lia.
  destruct s; cbn in H; discriminate.
Qed.

(** Halving and doubling again is the identity where halving is exact. *)
Lemma double_half (x : number) :
  halves_exactly x = true -> 2 * (x * 0.5) = x.
Proof.
  intros Hx. apply halves_exactly_cases in Hx.
  apply Prim2SF_inj.
  destruct (Prim2SF x) as [s | s | | s m e] eqn:Ex;
    [ rewrite !mul_spec, Ex;
      change (Prim2SF 2) with (S754_finite false P52 (-51));
      change (Prim2SF 0.5) with (S754_finite false P52 (-53));
      cbn [SF64mul SFmul xorb]; try (now destruct s); reflexivity .. |].
  - rewrite mul_spec, (mul_half x s m e Ex Hx).
    change (Prim2SF 2) with (S754_finite false P52 (-51)).
    pose proof (Prim2SF_valid x) as Hv. rewrite Ex in Hv.
    cbn [valid_binary] in Hv.
    unfold SF64mul, SFmul. cbn [xorb].
    rewrite Pos.mul_comm.
    replace (-51 + (e - 1))%Z with (e - 52)%Z by lia.
    replace (if s then true else false) with s by (destruct s; reflexivity).
    apply round_exact. exact Hv.
Qed.

End FloatFacts.

(** ** Deposit projections on the mock path *)

Module DepositFacts.

Import JSNumber JS Defindex FloatFacts.
Import DepositTerms FloatTerms.
Local Open Scope float_scope.

Lemma apyMultiplier_spec timeframe' :
  apyMultiplier timeframe' = timeframe_multiplier timeframe'.
Proof.
  unfold apyMultiplier, timeframe_multiplier.
  destruct (string_dec timeframe' "1y") as [-> | H1]; [reflexivity |].
  apply String.eqb_neq in H1. rewrite H1.
  destruct (string_dec timeframe' "6m") as [-> | H6]; [reflexivity |].
  apply String.eqb_neq in H6. now rewrite H6.
Qed.

(** The mock lookup always finds a vault of the catalog. *)
Lemma mock_vault_found (vaultAddress' : option string) :
  exists vault, getMockVaultDetails vaultAddress' = Some vault
                /\ In vault mockVaults.
Proof.
  unfold getMockVaultDetails.
  change (getMockVaults None None) with mockVaults.
  destruct (find _ mockVaults) as [v |] eqn:Hfind.
  - exists v. split; [reflexivity |]. now apply find_some in Hfind.
  - eexists. split; [reflexivity |]. left. reflexivity.
Qed.

Lemma projection_falls_back net address' deposit timeframe' err :
  api_calculate net address' deposit (default_param timeframe' "1y")
  = Throw err ->
  exists vault calc,
    getMockVaultDetails address' = Some vault
    /\ calculateVaultDeposit net address' deposit timeframe' = Ok calc
    /\ projectedYield calc
       = toString (yearly_yield vault deposit
                   * timeframe_multiplier (default_param timeframe' "1y")).
Proof.
  intros Hfail.
  destruct (mock_vault_found address') as (vault & Hvault & _).
  unfold calculateVaultDeposit. rewrite Hfail. cbn [try_catch].
  unfold getMockDepositCalculation. rewrite Hvault.
  exists vault. eexists. split; [reflexivity |]. split; [reflexivity |].
  cbn [projectedYield]. now rewrite apyMultiplier_spec.
Qed.

(** The claim C5 as it is written fails for a deposit so small that its
    half-year yield is rounded: 5.8e-323 at 8.5% yields 5e-324 for a year
    and 0 for six months. *)
Lemma tiny_projection_is_not_doubled :
  exists year half,
    calculateVaultDeposit Offline.defindex (Some stable_address)
      (Some "5.8e-323") (Some "1y") = Ok year
    /\ calculateVaultDeposit Offline.defindex (Some stable_address)
         (Some "5.8e-323") (Some "6m") = Ok half
    /\ projectedYield year = "5e-324"
    /\ projectedYield half = "0"
    /\ (parseFloat (projectedYield year)
        =? 2 * parseFloat (projectedYield half)) = false.
Proof.
  eexists. eexists.
  split; [vm_compute; reflexivity |].
  split; [vm_compute; reflexivity |].
  repeat split; vm_compute; reflexivity.
Qed.

(** C5, amended: on the mock path the projected yield is the rendering of
    [depositAmount * apy / 100 * multiplier] in double arithmetic, the
    multiplier being 1.0 for "1y", 0.5 for "6m" and 0.25 for any other
    timeframe; the "1y" yield is exactly twice the "6m" yield whenever
    [depositAmount * apy / 100] is zero, not finite, or at least [2^-1021]
    in magnitude. *)
Theorem deposit_projection_scales net address' deposit timeframe' err err1 err6 :
  api_calculate net address' deposit (default_param timeframe' "1y")
  = Throw err ->
  api_calculate net address' deposit "1y" = Throw err1 ->
  api_calculate net address' deposit "6m" = Throw err6 ->
  exists vault calc year half,
    getMockVaultDetails address' = Some vault
    /\ calculateVaultDeposit net address' deposit timeframe' = Ok calc
    /\ projectedYield calc
       = toString (yearly_yield vault deposit
                   * timeframe_multiplier (default_param timeframe' "1y"))
    /\ calculateVaultDeposit net address' deposit (Some "1y") = Ok year
    /\ calculateVaultDeposit net address' deposit (Some "6m") = Ok half
    /\ projectedYield year = toString (yearly_yield vault deposit * 1.0)
    /\ projectedYield half = toString (yearly_yield vault deposit * 0.5)
    /\ (halves_exactly (yearly_yield vault deposit) = true ->
        yearly_yield vault deposit * 1.0
        = 2 * (yearly_yield vault deposit * 0.5)).
Proof.
  intros Hfail Hfail1 Hfail6.
  destruct (projection_falls_back net address' deposit timeframe' err Hfail)
    as (vault & calc & Hvault & Hcalc & Hyield).
  destruct (projection_falls_back net address' deposit (Some "1y") err1 Hfail1)
    as (vault1 & year & Hvault1 & Hyear & Hyield1).
  destruct (projection_falls_back net address' deposit (Some "6m") err6 Hfail6)
    as (vault6 & half & Hvault6 & Hhalf & Hyield6).
  rewrite Hvault in Hvault1, Hvault6.
  injection Hvault1 as <-. injection Hvault6 as <-.
  exists vault, calc, year, half.
  repeat (split; [assumption |]).
  intros Hexact. rewrite mul_one. symmetry. now apply double_half.
Qed.

Lemma deposit_projection_scales_witness :
  exists vault calc year half,
    getMockVaultDetails (Some balanced_address) = Some vault
    /\ calculateVaultDeposit Offline.defindex (Some balanced_address)
         (Some "1000") (Some "3m") = Ok calc
    /\ projectedYield calc
       = toString (yearly_yield vault (Some "1000")
                   * timeframe_multiplier (default_param (Some "3m") "1y"))
    /\ calculateVaultDeposit Offline.defindex (Some balanced_address)
         (Some "1000") (Some "1y") = Ok year
    /\ calculateVaultDeposit Offline.defindex (Some balanced_address)
         (Some "1000") (Some "6m") = Ok half
    /\ projectedYield year = toString (yearly_yield vault (Some "1000") * 1.0)
    /\ projectedYield half = toString (yearly_yield vault (Some "1000") * 0.5)
    /\ (halves_exactly (yearly_yield vault (Some "1000")) = true ->
        yearly_yield vault (Some "1000") * 1.0
        = 2 * (yearly_yield vault (Some "1000") * 0.5)).
Proof.
  apply (deposit_projection_scales Offline.defindex (Some balanced_address)
           (Some "1000") (Some "3m") (Error "Network Error")
           (Error "Network Error") (Error "Network Error"));
    reflexivity.
Defined.

End DepositFacts.

(** ** Rounding in the model of doubles *)

Module RoundingFacts.

Import Rounding.
Local Open Scope Z_scope.

(** Hides the power [2 ^ e] from [lia], keeping that it is not negative. *)
Ltac pow_atom e :=
  let H := fresh "Hpow" in
  let p := fresh "p" in
  let E := fresh "Ep" in
  pose proof (Z.pow_nonneg 2 e ltac:(lia)) as H;
  remember (2 ^ e) as p eqn:E; clear E.

Ltac decide_order :=
  repeat match goal with
  | |- context [?a <=? ?b] => destruct (Z.leb_spec a b)
  | |- context [?a =? ?b] => destruct (Z.eqb_spec a b)
  end; cbn [negb andb]; try reflexivity; try lia.

(** *** Digits and shifts *)

Lemma digits2_bounds (m : positive) :
  2 ^ (Zpos (digits2_pos m) - 1) <= Zpos m < 2 ^ Zpos (digits2_pos m).
Proof.
  induction m as [m IH | m IH |]; cbn [digits2_pos].
  - rewrite Pos2Z.inj_succ. change (Z.pos m~1) with (2 * Z.pos m + 1).
    replace (Z.succ (Zpos (digits2_pos m)) - 1)
      with (Z.succ (Zpos (digits2_pos m) - 1)) by lia.
    rewrite !Z.pow_succ_r by lia.
    pow_atom (Z.pos (digits2_pos m) - 1). pow_atom (Z.pos (digits2_pos m)). lia.
  - rewrite Pos2Z.inj_succ. change (Z.pos m~0) with (2 * Z.pos m).
    replace (Z.succ (Zpos (digits2_pos m)) - 1)
      with (Z.succ (Zpos (digits2_pos m) - 1)) by lia.
    rewrite !Z.pow_succ_r by lia.
    pow_atom (Z.pos (digits2_pos m) - 1). pow_atom (Z.pos (digits2_pos m)). lia.
  - cbn. lia.
Qed.

Lemma Zdigits2_bounds (m : Z) :
  0 <= m ->
  0 <= Zdigits2 m /\ m < 2 ^ Zdigits2 m
  /\ (0 < m -> 2 ^ (Zdigits2 m - 1) <= m).
Proof.
  intros Hm. destruct m as [| p | p]; cbn [Zdigits2]; [| | lia].
  - split; [lia |]. split; [reflexivity | lia].
  - pose proof (digits2_bounds p) as [Hlo Hhi].
    split; [lia |]. split; [exact Hhi |]. intros _. exact Hlo.
Qed.

(** [iter_pos] is an iteration counted in [nat]. *)
Lemma iter_pos_nat {A : Type} (f : A -> A) (p : positive) (x : A) :
  iter_pos f p x = Nat.iter (Pos.to_nat p) f x.
Proof.
  revert x. induction p as [p IH | p IH |]; intros x; cbn [iter_pos].
  - rewrite !IH, <- Nat.iter_add, <- Nat.iter_succ_r.
    f_equal. lia.
  - rewrite !IH, <- Nat.iter_add. f_equal. lia.
  - reflexivity.
Qed.

Lemma shr_1_located (N D : Z) (rec : shr_record) :
  located N D rec -> located N (2 * D) (shr_1 rec).
Proof.
  intros (HD & HN & Hm & Hr & Hs).
  destruct rec as [m r s]. cbn [shr_m shr_r shr_s] in *.
  pose proof (Z.mod_pos_bound N D HD) as HR.
  pose proof (Z.div_pos N D HN HD) as Hq.
  assert (Hdiv : N / (2 * D) = (N / D) / 2)
    by (rewrite (Z.mul_comm 2 D), Z.div_div; lia).
  assert (Hmod : N mod (2 * D) = N mod D + D * ((N / D) mod 2))
    by (rewrite (Z.mul_comm 2 D); apply Z.rem_mul_r; lia).
  assert (Hsticky : r || s = negb (N mod D =? 0)).
  { rewrite Hr, Hs.
    destruct (Z.leb_spec D (2 * (N mod D))), (Z.eqb_spec (N mod D) 0),
      (Z.eqb_spec (2 * (N mod D)) D); cbn; try reflexivity; lia. }
  unfold located. rewrite Hdiv, Hmod, <- Hm.
  split; [lia |]. split; [assumption |].
  unfold shr_1. rewrite Hsticky.
  destruct m as [| [p | p |] |]; try lia; cbn [shr_m shr_r shr_s].
  - (* zero *)
    change (0 mod 2) with 0. change (0 / 2) with 0. rewrite Z.mul_0_r, Z.add_0_r.
    repeat split.
    + symmetry. apply Z.leb_gt. lia.
    + destruct (Z.eqb_spec (N mod D) 0), (Z.eqb_spec (2 * (N mod D)) (2 * D));
        cbn; try reflexivity; lia.
  - (* odd *)
    assert (Hp : Z.pos p~1 = 2 * Z.pos p + 1) by lia.
    rewrite Hp.
    replace ((2 * Z.pos p + 1) / 2) with (Z.pos p)
      by (apply (Z.div_unique _ 2 _ 1); lia).
    replace ((2 * Z.pos p + 1) mod 2) with 1
      by (apply (Z.mod_unique _ 2 (Z.pos p) 1); lia).
    repeat split.
    + symmetry. apply Z.leb_le. lia.
    + destruct (Z.eqb_spec (N mod D) 0), (Z.eqb_spec (N mod D + D * 1) 0),
        (Z.eqb_spec (2 * (N mod D + D * 1)) (2 * D)); cbn; try reflexivity; lia.
  - (* even *)
    assert (Hp : Z.pos p~0 = 2 * Z.pos p) by lia.
    rewrite Hp.
    replace (2 * Z.pos p / 2) with (Z.pos p)
      by (apply (Z.div_unique _ 2 _ 0); lia).
    replace ((2 * Z.pos p) mod 2) with 0
      by (apply (Z.mod_unique _ 2 (Z.pos p) 0); lia).
    rewrite Z.mul_0_r, Z.add_0_r.
    repeat split.
    + symmetry. apply Z.leb_gt. lia.
    + destruct (Z.eqb_spec (N mod D) 0), (Z.eqb_spec (2 * (N mod D)) (2 * D));
        cbn; try reflexivity; lia.
  - (* one *)
    change (1 / 2) with 0. change (1 mod 2) with 1.
    repeat split.
    + symmetry. apply Z.leb_le. lia.
    + destruct (Z.eqb_spec (N mod D) 0), (Z.eqb_spec (N mod D + D * 1) 0),
        (Z.eqb_spec (2 * (N mod D + D * 1)) (2 * D)); cbn; try reflexivity; lia.
Qed.

Lemma shr_iter_located (N D : Z) (rec : shr_record) (k : nat) :
  located N D rec -> located N (D * 2 ^ Z.of_nat k) (Nat.iter k shr_1 rec).
Proof.
  intros H. induction k as [| k IH].
  - cbn [Nat.iter]. change (2 ^ Z.of_nat 0) with 1. now rewrite Z.mul_1_r.
  - cbn [Nat.iter]. apply shr_1_located in IH.
    replace (D * 2 ^ Z.of_nat (S k)) with (2 * (D * 2 ^ Z.of_nat k)); [exact IH |].
    rewrite Nat2Z.inj_succ, Z.pow_succ_r by lia. lia.
Qed.

Lemma round_located (N D : Z) (rec : shr_record) :
  located N D rec ->
  round_nearest_even (shr_m rec) (loc_of_shr_record rec) = rne N D.
Proof.
  intros (HD & HN & Hm & Hr & Hs).
  destruct rec as [m r s]. cbn [shr_m shr_r shr_s] in *.
  pose proof (Z.mod_pos_bound N D HD) as HR.
  unfold rne. rewrite <- Hm. subst r s.
  destruct (Z.leb_spec D (2 * (N mod D))), (Z.eqb_spec (N mod D) 0),
    (Z.eqb_spec (2 * (N mod D)) D), (Z.ltb_spec (2 * (N mod D)) D),
    (Z.ltb_spec D (2 * (N mod D)));
    cbn; try reflexivity; try lia.
Qed.

Lemma located_exact (m : Z) :
  0 <= m -> located m 1 {| shr_m := m; shr_r := false; shr_s := false |}.
Proof.
  intros Hm. unfold located. cbn [shr_m shr_r shr_s].
  rewrite Z.div_1_r, Z.mod_1_r. repeat split; try lia; reflexivity.
Qed.

Lemma rne_bounds (N D : Z) : 0 < D -> N / D <= rne N D <= N / D + 1.
Proof.
  intros HD. unfold rne.
  destruct (2 * (N mod D) <? D), (D <? 2 * (N mod D)), (Z.even (N / D)); lia.
Qed.

Lemma floor_le (N1 D1 N2 D2 : Z) :
  0 < D1 -> 0 < D2 -> N1 * D2 <= N2 * D1 -> N1 / D1 <= N2 / D2.
Proof.
  intros H1 H2 H.
  apply Z.div_le_lower_bound; [assumption |].
  pose proof (Z.mul_div_le N1 D1 H1) as Hq.
  (* D2 * (N1 / D1) <= N2 *)
  assert (D1 * (D2 * (N1 / D1)) <= D1 * N2) by nia.
  nia.
Qed.

Lemma rne_mono (N1 D1 N2 D2 : Z) :
  0 < D1 -> 0 < D2 -> N1 * D2 <= N2 * D1 -> rne N1 D1 <= rne N2 D2.
Proof.
  intros H1 H2 H.
  pose proof (floor_le N1 D1 N2 D2 H1 H2 H) as Hq.
  pose proof (rne_bounds N1 D1 H1) as B1.
  pose proof (rne_bounds N2 D2 H2) as B2.
  destruct (Z.eq_dec (N1 / D1) (N2 / D2)) as [Heq | Hne]; [| lia].
  pose proof (Z.div_mod N1 D1 ltac:(lia)) as E1.
  pose proof (Z.div_mod N2 D2 ltac:(lia)) as E2.
  pose proof (Z.mod_pos_bound N1 D1 H1) as R1.
  pose proof (Z.mod_pos_bound N2 D2 H2) as R2.
  unfold rne in *. rewrite <- Heq in *.
  set (q := N1 / D1) in *. set (r1 := N1 mod D1) in *. set (r2 := N2 mod D2) in *.
  assert (Hr : r1 * D2 <= r2 * D1) by nia.
  destruct (Z.ltb_spec (2 * r1) D1), (Z.ltb_spec D1 (2 * r1)),
    (Z.ltb_spec (2 * r2) D2), (Z.ltb_spec D2 (2 * r2)), (Z.even q);
    try lia; nia.
Qed.

Lemma rne_exact (k D : Z) : 0 < D -> rne (k * D) D = k.
Proof.
  intros HD. unfold rne.
  rewrite Z.div_mul, Z.mod_mul by lia.
  destruct (Z.ltb_spec (2 * 0) D); [reflexivity | lia].
Qed.

Lemma rne_le (N D k : Z) : 0 < D -> N <= k * D -> rne N D <= k.
Proof.
  intros HD H. rewrite <- (rne_exact k D HD).
  apply rne_mono; try assumption. nia.
Qed.

Lemma rne_ge (N D k : Z) : 0 < D -> k * D <= N -> k <= rne N D.
Proof.
  intros HD H. rewrite <- (rne_exact k D HD).
  apply rne_mono; try assumption. nia.
Qed.

(** *** The value of a rounded result *)

Lemma fexp_eq (z : Z) : fexp prec emax z = Z.max (z - 53) (-1074).
Proof. reflexivity. Qed.

Lemma pow2_pos (a : Z) : 0 <= a -> 0 < 2 ^ a.
Proof. intros. apply Z.pow_pos_nonneg; lia. Qed.

Lemma pow2_le (a b : Z) : 0 <= a -> a <= b -> 2 ^ a <= 2 ^ b.
Proof. intros. apply Z.pow_le_mono_r; lia. Qed.

Lemma pow2_add (a b : Z) : 0 <= a -> 0 <= b -> 2 ^ (a + b) = 2 ^ a * 2 ^ b.
Proof. intros. apply Z.pow_add_r; lia. Qed.

Lemma shr_located (N D : Z) (rec : shr_record) (ex n : Z) :
  located N D rec -> 0 <= n ->
  located N (D * 2 ^ n) (fst (shr rec ex n)) /\ snd (shr rec ex n) = ex + n.
Proof.
  intros Hloc Hn. destruct n as [| p | p]; [| | lia]; cbn [shr fst snd].
  - change (2 ^ 0) with 1. rewrite Z.mul_1_r. split; [assumption | lia].
  - split; [| reflexivity]. rewrite iter_pos_nat.
    rewrite <- (positive_nat_Z p). now apply shr_iter_located.
Qed.

(** What the first rounding leaves is at most [2^53], and at least [2^52]
    above the subnormal range. *)
Lemma rounded_bounds (N D ex E : Z) :
  0 <= N -> 0 < D ->
  E = Z.max (Zdigits2 (N / D) + ex - 53) (-1074) -> ex <= E ->
  0 <= rne N (D * 2 ^ (E - ex)) <= 2 ^ 53
  /\ (-1074 < E -> 2 ^ 52 <= rne N (D * 2 ^ (E - ex))).
Proof.
  intros HN HD HE Hn.
  pose proof (Z.div_pos N D HN HD) as Hq.
  destruct (Zdigits2_bounds (N / D) Hq) as (Hd0 & Hdhi & Hdlo).
  pose proof (Z.div_mod N D ltac:(lia)) as Hdm.
  pose proof (Z.mod_pos_bound N D HD) as HR.
  pose proof (pow2_pos (E - ex) ltac:(lia)) as Hpn.
  assert (HD' : 0 < D * 2 ^ (E - ex)) by nia.
  set (dx := Zdigits2 (N / D)) in *.
  set (n := E - ex) in *.
  split; [split |].
  - apply rne_ge; [assumption | lia].
  - apply rne_le; [assumption |].
    assert (H1 : 2 ^ dx <= 2 ^ (53 + n)) by (apply pow2_le; lia).
    rewrite pow2_add in H1 by lia.
    assert (H2 : D * (N / D + 1) <= D * 2 ^ dx)
      by (apply Z.mul_le_mono_nonneg_l; lia).
    assert (H3 : D * 2 ^ dx <= D * (2 ^ 53 * 2 ^ n))
      by (apply Z.mul_le_mono_nonneg_l; lia).
    pow_atom dx. pow_atom n. pow_atom 53. lia.
  - intros HE'.
    assert (Hdx : dx = 53 + n) by lia.
    assert (Hmx : 0 < N / D).
    { destruct (Z.eq_dec (N / D) 0) as [H0 | H0]; [| lia].
      unfold dx in Hdx. rewrite H0 in Hdx. change (Zdigits2 0) with 0 in Hdx. lia. }
    specialize (Hdlo Hmx).
    replace (dx - 1) with (52 + n) in Hdlo by lia.
    rewrite pow2_add in Hdlo by lia.
    apply rne_ge; [assumption |].
    assert (H2 : D * (2 ^ 52 * 2 ^ n) <= D * (N / D))
      by (apply Z.mul_le_mono_nonneg_l; lia).
    pow_atom n. pow_atom 52. lia.
Qed.

Lemma rne_ext (N1 D1 N2 D2 : Z) :
  0 < D1 -> 0 < D2 -> N1 * D2 = N2 * D1 -> rne N1 D1 = rne N2 D2.
Proof.
  intros H1 H2 H. apply Z.le_antisymm; apply rne_mono; lia.
Qed.

Lemma Zdigits2_unique (q d : Z) :
  0 < d -> 2 ^ (d - 1) <= q < 2 ^ d -> Zdigits2 q = d.
Proof.
  intros Hd [Hlo Hhi].
  assert (Hq : 0 < q) by (pose proof (pow2_pos (d - 1)); lia).
  destruct (Zdigits2_bounds q ltac:(lia)) as (H0 & Hu & Hl).
  specialize (Hl Hq).
  destruct (Z.lt_trichotomy (Zdigits2 q) d) as [Hlt | [Heq | Hgt]];
    [exfalso | assumption | exfalso].
  - pose proof (pow2_le (Zdigits2 q) (d - 1) H0 ltac:(lia)). lia.
  - pose proof (pow2_le d (Zdigits2 q - 1) ltac:(lia) ltac:(lia)). lia.
Qed.

Lemma Zdigits2_mono (p q : Z) : 0 <= p -> p <= q -> Zdigits2 p <= Zdigits2 q.
Proof.
  intros Hp Hpq.
  destruct (Zdigits2_bounds p Hp) as (Hp0 & Hpu & Hpl).
  destruct (Zdigits2_bounds q ltac:(lia)) as (Hq0 & Hqu & Hql).
  destruct (Z.eq_dec p 0) as [-> | Hne]; [assumption |].
  specialize (Hpl ltac:(lia)).
  destruct (Z.le_gt_cases (Zdigits2 p) (Zdigits2 q)) as [H | H];
    [assumption | exfalso].
  pose proof (pow2_le (Zdigits2 q) (Zdigits2 p - 1) Hq0 ltac:(lia)). lia.
Qed.

(** The digits of the integer part of [A / B], from bounds on [A]. *)
Lemma Zdigits2_ratio (A B d : Z) :
  0 < B -> 0 < d -> B * 2 ^ (d - 1) <= A < B * 2 ^ d ->
  Zdigits2 (A / B) = d.
Proof.
  intros HB Hd [Hlo Hhi]. apply Zdigits2_unique; [assumption |]. split.
  - apply Z.div_le_lower_bound; assumption.
  - apply Z.div_lt_upper_bound; assumption.
Qed.

Lemma shift_bounds (A B : Z) :
  0 <= A -> 0 < B ->
  let t := shift_of A B in
  0 <= t
  /\ 0 <= rne A (B * 2 ^ t) <= 2 ^ 53
  /\ (0 < t -> 2 ^ 52 <= rne A (B * 2 ^ t)).
Proof.
  intros HA HB t.
  assert (Ht : 0 <= t) by (unfold t, shift_of; lia).
  destruct (rounded_bounds A B (-1074) (t - 1074) HA HB) as [H1 H2].
  - unfold t, shift_of. lia.
  - lia.
  - replace (t - 1074 - -1074) with t in * by lia.
    split; [assumption |]. split; [assumption |]. intros H. apply H2. lia.
Qed.

Lemma nearest_mono (A1 B1 A2 B2 : Z) :
  0 <= A1 -> 0 < B1 -> 0 < B2 -> A1 * B2 <= A2 * B1 ->
  nearest A1 B1 <= nearest A2 B2.
Proof.
  intros HA1 HB1 HB2 H.
  assert (HA2 : 0 <= A2) by nia.
  pose proof (floor_le A1 B1 A2 B2 HB1 HB2 H) as Hq.
  pose proof (Zdigits2_mono (A1 / B1) (A2 / B2)
                (Z.div_pos A1 B1 HA1 HB1) Hq) as Hd.
  destruct (shift_bounds A1 B1 HA1 HB1) as (Ht1 & [Hl1 Hu1] & _).
  destruct (shift_bounds A2 B2 HA2 HB2) as (Ht2 & [Hl2 Hu2] & Hn2).
  unfold nearest. apply Z.min_le_compat_l.
  set (t1 := shift_of A1 B1) in *. set (t2 := shift_of A2 B2) in *.
  assert (Ht : t1 <= t2) by (unfold t1, t2, shift_of; lia).
  pose proof (pow2_pos t1 Ht1) as Hp1. pose proof (pow2_pos t2 Ht2) as Hp2.
  destruct (Z.eq_dec t1 t2) as [Heq | Hne].
  - rewrite Heq in *. apply Z.mul_le_mono_nonneg_r; [lia |].
    apply rne_mono; nia.
  - specialize (Hn2 ltac:(lia)).
    apply Z.le_trans with (2 ^ 53 * 2 ^ t1);
      [apply Z.mul_le_mono_nonneg_r; lia |].
    apply Z.le_trans with (2 ^ 52 * 2 ^ t2);
      [| apply Z.mul_le_mono_nonneg_r; lia].
    rewrite <- !pow2_add by lia. apply pow2_le; lia.
Qed.

Lemma nearest_ext (A1 B1 A2 B2 : Z) :
  0 <= A1 -> 0 < B1 -> 0 < B2 -> A1 * B2 = A2 * B1 ->
  nearest A1 B1 = nearest A2 B2.
Proof.
  intros HA1 HB1 HB2 H.
  assert (HA2 : 0 <= A2) by nia.
  apply Z.le_antisymm; apply nearest_mono; lia.
Qed.

Lemma top_pos : 0 < top.
Proof. unfold top. apply pow2_pos. lia. Qed.

Lemma shr_none (rec : shr_record) (e n : Z) : n <= 0 -> shr rec e n = (rec, e).
Proof. intros H. destruct n as [| p | p]; [reflexivity | lia | reflexivity]. Qed.

Lemma Zdigits2_le (q d : Z) : 0 <= q -> 0 <= d -> q < 2 ^ d -> Zdigits2 q <= d.
Proof.
  intros Hq Hd H.
  destruct (Zdigits2_bounds q Hq) as (H0 & _ & Hl).
  destruct (Z.eq_dec q 0) as [-> | Hne]; [cbn; lia |].
  specialize (Hl ltac:(lia)).
  destruct (Z.le_gt_cases (Zdigits2 q) d) as [Hle | Hgt];
    [assumption | exfalso].
  pose proof (pow2_le d (Zdigits2 q - 1) Hd ltac:(lia)). lia.
Qed.

(** The double that [binary_round_aux] returns for the integer part
    [N / D] at exponent [ex] with the location of the remainder: the
    significand is [N / (D * 2^(E - ex))] rounded to nearest even, at the
    exponent [E] chosen from the number of digits. *)
Lemma binary_round_aux_shape (N D ex : Z) (lx : location) :
  located N D (shr_record_of_loc (N / D) lx) ->
  let E := Z.max (Zdigits2 (N / D) + ex - 53) (-1074) in
  ex <= E ->
  let r := binary_round_aux prec emax false (N / D) ex lx in
  nonneg r /\ ord r = Z.min top (rne N (D * 2 ^ (E - ex)) * 2 ^ (E + 1074)).
Proof.
  intros Hloc E HE r.
  pose proof Hloc as (HD & HN & _).
  destruct (rounded_bounds N D ex E HN HD eq_refl HE) as ([Hm0 Hm53] & Hm52).
  pose proof top_pos as Htop.
  destruct (shr_located N D _ ex (E - ex) Hloc ltac:(lia)) as [Hloc1 He1].
  pose proof (round_located _ _ _ Hloc1) as Hr1.
  subst r. unfold binary_round_aux, shr_fexp. rewrite fexp_eq. fold E.
  destruct (shr (shr_record_of_loc (N / D) lx) ex (E - ex)) as [mrs1 e1].
  cbn [fst snd] in Hloc1, He1, Hr1. rewrite Hr1.
  replace e1 with E by lia. clear He1 e1.
  set (m1 := rne N (D * 2 ^ (E - ex))) in *.
  rewrite fexp_eq. change (emax - prec) with 971.
  assert (HE0 : -1074 <= E) by (unfold E; lia).
  destruct (Z.eq_dec m1 (2 ^ 53)) as [Hc | Hc].
  - rewrite Hc. change (Zdigits2 (2 ^ 53)) with 54.
    replace (Z.max (54 + E - 53) (-1074) - E) with 1 by (clear - HE0; lia).
    cbn [shr shr_record_of_loc iter_pos].
    change (shr_m (shr_1 {| shr_m := 2 ^ 53; shr_r := false; shr_s := false |}))
      with (2 ^ 52).
    destruct (Z.leb_spec (E + 1) 971) as [Hle | Hgt].
    + split; [reflexivity |].
      change (2 ^ 52 * 2 ^ (E + 1 + 1074) = Z.min top (2 ^ 53 * 2 ^ (E + 1074))).
      replace (E + 1 + 1074) with (1 + (E + 1074)) by lia.
      rewrite (pow2_add 1 (E + 1074)) by lia.
      rewrite Z.min_r.
      * change (2 ^ 53) with (2 ^ 52 * 2 ^ 1). ring.
      * rewrite <- pow2_add by lia. unfold top. apply pow2_le; lia.
    + split; [reflexivity |]. change (top = Z.min top (2 ^ 53 * 2 ^ (E + 1074))).
      rewrite Z.min_l; [reflexivity |].
      rewrite <- pow2_add by lia. unfold top. apply pow2_le; lia.
  - assert (Hlt : m1 < 2 ^ 53) by lia.
    pose proof (Zdigits2_le m1 53 Hm0 ltac:(lia) Hlt) as Hd1.
    rewrite shr_none by lia. cbn [shr_record_of_loc shr_m].
    destruct m1 as [| m | m] eqn:Em; [| | lia].
    + cbn [nonneg ord]. split; [exact I |]. rewrite Z.mul_0_l. lia.
    + destruct (Z.leb_spec E 971) as [Hle | Hgt]; cbn [nonneg ord].
      * split; [reflexivity |]. rewrite Z.min_r; [reflexivity |].
        apply Z.le_trans with (2 ^ 53 * 2 ^ (E + 1074)).
        -- apply Z.mul_le_mono_nonneg_r; [| lia].
           apply Z.pow_nonneg; lia.
        -- rewrite <- pow2_add by lia. unfold top. apply pow2_le; lia.
      * split; [reflexivity |]. rewrite Z.min_l; [reflexivity |].
        specialize (Hm52 ltac:(lia)).
        apply Z.le_trans with (2 ^ 52 * 2 ^ (E + 1074)).
        -- rewrite <- pow2_add by lia. unfold top. apply pow2_le; lia.
        -- apply Z.mul_le_mono_nonneg_r; [| lia].
           apply Z.pow_nonneg; lia.
Qed.

Lemma scaled_lt (A B N D P Q S R : Z) :
  0 < B -> 0 < D -> 0 < P -> 0 < Q ->
  A * D * Q = N * B * P -> S * P <= R * Q -> N < D * S -> A < B * R.
Proof.
  intros HB HD HP HQ Heq HSR HN.
  apply Z.mul_lt_mono_pos_r with (D * Q); [nia |].
  assert (H1 : N * (B * P) < D * S * (B * P))
    by (apply Z.mul_lt_mono_pos_r; nia).
  assert (H2 : S * P * (D * B) <= R * Q * (D * B))
    by (apply Z.mul_le_mono_nonneg_r; nia).
  nia.
Qed.

Lemma scaled_le (A B N D P Q S R : Z) :
  0 < B -> 0 < D -> 0 < P -> 0 < Q ->
  A * D * Q = N * B * P -> R * Q <= S * P -> D * S <= N -> B * R <= A.
Proof.
  intros HB HD HP HQ Heq HSR HN.
  apply Z.mul_le_mono_pos_r with (D * Q); [nia |].
  assert (H1 : D * S * (B * P) <= N * (B * P))
    by (apply Z.mul_le_mono_nonneg_r; nia).
  assert (H2 : R * Q * (D * B) <= S * P * (D * B))
    by (apply Z.mul_le_mono_nonneg_r; nia).
  nia.
Qed.

(** The shift that [nearest] applies to [A / B] is the exponent that
    [binary_round_aux] chooses for the same value [N / D * 2^ex]. *)
Lemma shift_of_scaled (N D ex A B a b : Z) :
  0 <= N -> 0 < D -> 0 < B -> 0 <= a -> 0 <= b -> ex + 1074 = a - b ->
  A * D * 2 ^ b = N * B * 2 ^ a ->
  let E := Z.max (Zdigits2 (N / D) + ex - 53) (-1074) in
  ex <= E -> shift_of A B = E + 1074.
Proof.
  intros HN HD HB Ha Hb Hab Heq E HE.
  pose proof (pow2_pos a Ha) as HP. pose proof (pow2_pos b Hb) as HQ.
  pose proof (Z.div_pos N D HN HD) as Hq.
  destruct (Zdigits2_bounds (N / D) Hq) as (Hd0 & Hdhi & Hdlo).
  pose proof (Z.div_mod N D ltac:(lia)) as Hdm.
  pose proof (Z.mod_pos_bound N D HD) as HR.
  set (d := Zdigits2 (N / D)) in *.
  assert (HNhi : N < D * 2 ^ d).
  { assert (D * (N / D + 1) <= D * 2 ^ d)
      by (apply Z.mul_le_mono_nonneg_l; lia).
    lia. }
  unfold shift_of.
  destruct (Z.le_gt_cases (d + a - b) 0) as [Hk | Hk].
  - assert (HAB : A < B * 1).
    { apply (scaled_lt A B N D (2 ^ a) (2 ^ b) (2 ^ d) 1); try assumption.
      rewrite <- pow2_add by lia. rewrite Z.mul_1_l. apply pow2_le; lia. }
    assert (HA : 0 <= A) by nia.
    rewrite Z.div_small by lia. change (Zdigits2 0) with 0.
    unfold E. fold d. lia.
  - assert (Hd : 0 < d) by lia.
    assert (Hmx : 0 < N / D).
    { destruct (Z.eq_dec (N / D) 0) as [H0 | H0]; [| lia].
      unfold d in Hd. rewrite H0 in Hd. change (Zdigits2 0) with 0 in Hd. lia. }
    specialize (Hdlo Hmx).
    assert (HNlo : D * 2 ^ (d - 1) <= N).
    { assert (D * 2 ^ (d - 1) <= D * (N / D))
        by (apply Z.mul_le_mono_nonneg_l; lia).
      lia. }
    rewrite (Zdigits2_ratio A B (d + a - b)); [unfold E; fold d; lia | assumption | lia |].
    split.
    + apply (scaled_le A B N D (2 ^ a) (2 ^ b) (2 ^ (d - 1))); try assumption.
      rewrite <- !pow2_add by lia. apply pow2_le; lia.
    + apply (scaled_lt A B N D (2 ^ a) (2 ^ b) (2 ^ d)); try assumption.
      rewrite <- !pow2_add by lia. apply pow2_le; lia.
Qed.

(** [binary_round_aux] rounds to nearest: its result for [N / D * 2^ex]
    is [nearest A B] for every ratio [A / B] that is this value in units
    of [2^-1074]. *)
Lemma binary_round_aux_ord (N D ex : Z) (lx : location) (A B a b : Z) :
  located N D (shr_record_of_loc (N / D) lx) ->
  ex <= Z.max (Zdigits2 (N / D) + ex - 53) (-1074) ->
  0 < B -> 0 <= a -> 0 <= b -> ex + 1074 = a - b ->
  A * D * 2 ^ b = N * B * 2 ^ a ->
  let r := binary_round_aux prec emax false (N / D) ex lx in
  nonneg r /\ ord r = nearest A B.
Proof.
  intros Hloc HE HB Ha Hb Hab Heq r.
  pose proof Hloc as (HD & HN & _).
  destruct (binary_round_aux_shape N D ex lx Hloc HE) as [Hnn Hord].
  split; [exact Hnn |]. subst r. rewrite Hord. unfold nearest.
  rewrite (shift_of_scaled N D ex A B a b) by assumption.
  set (E := Z.max (Zdigits2 (N / D) + ex - 53) (-1074)) in *.
  pose proof (pow2_pos a Ha) as HP. pose proof (pow2_pos b Hb) as HQ.
  pose proof (pow2_pos (E - ex) ltac:(lia)) as H1.
  pose proof (pow2_pos (E + 1074) ltac:(lia)) as H2.
  f_equal. f_equal. apply rne_ext; [nia | nia |].
  apply Z.mul_cancel_r with (2 ^ b); [lia |].
  assert (Hp : 2 ^ (E + 1074) * 2 ^ b = 2 ^ a * 2 ^ (E - ex)).
  { rewrite <- !pow2_add by lia. f_equal. lia. }
  transitivity (N * B * (2 ^ (E + 1074) * 2 ^ b)); [ring |].
  rewrite Hp.
  transitivity (N * B * 2 ^ a * 2 ^ (E - ex)); [ring |].
  rewrite <- Heq. ring.
Qed.

(** *** Valid doubles *)

Lemma valid_finite (s : bool) (m : positive) (e : Z) :
  valid (S754_finite s m e) ->
  -1074 <= e <= 971
  /\ Zpos (digits2_pos m) <= 53
  /\ (-1074 < e -> Zpos (digits2_pos m) = 53).
Proof.
  unfold valid, valid_binary, SpecFloat.valid_binary, bounded,
    canonical_mantissa. intros H.
  apply andb_true_iff in H. destruct H as [Hc Hm].
  apply Z.eqb_eq in Hc. apply Z.leb_le in Hm. rewrite fexp_eq in Hc.
  change (emax - prec) with 971 in Hm. lia.
Qed.

(** A valid finite double lies strictly between zero and [top]; above
    the subnormal range its significand has 53 bits. *)
Lemma valid_ord (s : bool) (m : positive) (e : Z) :
  valid (S754_finite s m e) ->
  0 < ord (S754_finite s m e) < top
  /\ Zpos m < 2 ^ 53
  /\ (-1074 < e -> 2 ^ 52 <= Zpos m).
Proof.
  intros Hv. destruct (valid_finite s m e Hv) as ([He0 He1] & Hd & Hn).
  pose proof (digits2_bounds m) as [Hlo Hhi].
  assert (Hm53 : Zpos m < 2 ^ 53).
  { apply Z.lt_le_trans with (2 ^ Zpos (digits2_pos m)); [assumption |].
    apply pow2_le; lia. }
  split; [| split; [assumption |]].
  - cbn [ord]. pose proof (pow2_pos (e + 1074) ltac:(lia)) as Hp. split.
    + apply Z.mul_pos_pos; lia.
    + apply Z.lt_le_trans with (2 ^ 53 * 2 ^ (e + 1074)).
      * apply Z.mul_lt_mono_pos_r; assumption.
      * rewrite <- pow2_add by lia. unfold top. apply pow2_le; lia.
  - intros H. rewrite (Hn H) in Hlo. exact Hlo.
Qed.

Lemma compare_cont_spec (p q : positive) :
  Pos.compare_cont Eq p q = (Zpos p ?= Zpos q).
Proof. reflexivity. Qed.

(** On valid doubles that are not negative, the order of the doubles is
    the order of their magnitudes. *)
Lemma SFcompare_ord (x y : spec_float) :
  valid x -> valid y -> nonneg x -> nonneg y ->
  SFcompare x y = Some (ord x ?= ord y).
Proof.
  intros Hx Hy Nx Ny. pose proof top_pos as Htop.
  destruct x as [sx | sx | | sx mx ex], y as [sy | sy | | sy my ey];
    cbn [nonneg] in Nx, Ny; try contradiction; subst; cbn [SFcompare].
  - reflexivity.
  - cbn [ord]. apply f_equal. symmetry. apply Z.compare_lt_iff. exact Htop.
  - destruct (valid_ord false my ey Hy) as ([H0 _] & _).
    apply f_equal. symmetry. apply Z.compare_lt_iff. exact H0.
  - cbn [ord]. apply f_equal. symmetry. apply Z.compare_gt_iff. exact Htop.
  - cbn [ord]. apply f_equal. symmetry. apply Z.compare_refl.
  - destruct (valid_ord false my ey Hy) as ([_ H1] & _).
    apply f_equal. symmetry. apply Z.compare_gt_iff. exact H1.
  - destruct (valid_ord false mx ex Hx) as ([H0 _] & _).
    apply f_equal. symmetry. apply Z.compare_gt_iff. exact H0.
  - destruct (valid_ord false mx ex Hx) as ([_ H1] & _).
    apply f_equal. symmetry. apply Z.compare_lt_iff. exact H1.
  - destruct (valid_ord false mx ex Hx) as (_ & Hx53 & Hx52).
    destruct (valid_ord false my ey Hy) as (_ & Hy53 & Hy52).
    destruct (valid_finite false mx ex Hx) as ([Hex _] & _).
    destruct (valid_finite false my ey Hy) as ([Hey _] & _).
    apply f_equal. symmetry. cbn [ord].
    destruct (Z.compare_spec ex ey) as [Heq | Hlt | Hgt].
    + subst ey. rewrite compare_cont_spec.
      pose proof (pow2_pos (ex + 1074) ltac:(lia)) as Hp.
      destruct (Z.compare_spec (Zpos mx) (Zpos my)) as [H | H | H].
      * apply Z.compare_eq_iff. now rewrite H.
      * apply Z.compare_lt_iff. apply Z.mul_lt_mono_pos_r; assumption.
      * apply Z.compare_gt_iff. apply Z.mul_lt_mono_pos_r; assumption.
    + apply Z.compare_lt_iff. specialize (Hy52 ltac:(lia)).
      apply Z.lt_le_trans with (2 ^ 53 * 2 ^ (ex + 1074)).
      * apply Z.mul_lt_mono_pos_r; [apply pow2_pos; lia | assumption].
      * apply Z.le_trans with (2 ^ 52 * 2 ^ (ey + 1074)).
        -- rewrite <- !pow2_add by lia. apply pow2_le; lia.
        -- apply Z.mul_le_mono_nonneg_r; [| assumption].
           apply Z.pow_nonneg; lia.
    + apply Z.compare_gt_iff. specialize (Hx52 ltac:(lia)).
      apply Z.lt_le_trans with (2 ^ 53 * 2 ^ (ey + 1074)).
      * apply Z.mul_lt_mono_pos_r; [apply pow2_pos; lia | assumption].
      * apply Z.le_trans with (2 ^ 52 * 2 ^ (ex + 1074)).
        -- rewrite <- !pow2_add by lia. apply pow2_le; lia.
        -- apply Z.mul_le_mono_nonneg_r; [| assumption].
           apply Z.pow_nonneg; lia.
Qed.

Lemma nearest_zero (B : Z) : 0 < B -> nearest 0 B = 0.
Proof.
  intros HB. pose proof top_pos. unfold nearest, shift_of.
  rewrite Z.div_0_l by lia. change (Zdigits2 0) with 0.
  change (Z.max (0 - 53) 0) with 0. change (2 ^ 0) with 1.
  change 0 with (0 * (B * 1)) at 1. rewrite rne_exact by lia. lia.
Qed.

(** Rounding an integer significand. *)
Lemma round_integer_ord (m ex A B a b : Z) :
  0 <= m -> ex <= Z.max (Zdigits2 m + ex - 53) (-1074) ->
  0 < B -> 0 <= a -> 0 <= b -> ex + 1074 = a - b ->
  A * 2 ^ b = m * B * 2 ^ a ->
  let r := binary_round_aux prec emax false m ex loc_Exact in
  nonneg r /\ ord r = nearest A B.
Proof.
  intros Hm HE HB Ha Hb Hab Heq.
  pose proof (binary_round_aux_ord m 1 ex loc_Exact A B a b) as H.
  rewrite Z.div_1_r in H. apply H; try assumption.
  - apply located_exact. exact Hm.
  - rewrite Z.mul_1_r. exact Heq.
Qed.

Lemma digits2_mul (m1 m2 : positive) :
  Zpos (digits2_pos m1) + Zpos (digits2_pos m2) - 1
  <= Zpos (digits2_pos (m1 * m2)).
Proof.
  pose proof (digits2_bounds m1) as [L1 _].
  pose proof (digits2_bounds m2) as [L2 _].
  pose proof (digits2_bounds (m1 * m2)) as [_ U].
  set (d1 := Zpos (digits2_pos m1)) in *.
  set (d2 := Zpos (digits2_pos m2)) in *.
  set (d := Zpos (digits2_pos (m1 * m2))) in *.
  assert (H1 : 0 < d1) by (unfold d1; lia).
  assert (H2 : 0 < d2) by (unfold d2; lia).
  assert (H0 : 0 < d) by (unfold d; lia).
  destruct (Z.le_gt_cases (d1 + d2 - 1) d) as [H | H]; [assumption | exfalso].
  assert (Hp : 2 ^ d <= 2 ^ (d1 - 1) * 2 ^ (d2 - 1))
    by (rewrite <- pow2_add by lia; apply pow2_le; lia).
  assert (Hm : 2 ^ (d1 - 1) * 2 ^ (d2 - 1) <= Zpos m1 * Zpos m2).
  { apply Z.mul_le_mono_nonneg; try assumption; apply Z.pow_nonneg; lia. }
  rewrite Pos2Z.inj_mul in U. lia.
Qed.

(** The product of two doubles that are finite and not negative is the
    double nearest to the product of their values. *)
Lemma SFmul_ord (x y : spec_float) :
  valid x -> valid y -> nonneg x -> nonneg y -> ord x < top -> ord y < top ->
  nonneg (SF64mul x y)
  /\ ord (SF64mul x y) = nearest (ord x * ord y) (2 ^ 1074).
Proof.
  intros Hx Hy Nx Ny Fx Fy.
  assert (HB : 0 < 2 ^ 1074) by (apply pow2_pos; lia).
  destruct x as [sx | sx | | sx mx ex], y as [sy | sy | | sy my ey];
    cbn [nonneg] in Nx, Ny; try contradiction;
    cbn [ord] in Fx, Fy; try lia; subst; cbn [SF64mul SFmul xorb].
  - cbn [nonneg ord]. now rewrite nearest_zero.
  - cbn [nonneg ord]. now rewrite nearest_zero.
  - cbn [nonneg ord]. rewrite Z.mul_0_r. now rewrite nearest_zero.
  - destruct (valid_finite false mx ex Hx) as ([Hex _] & Hdx & Hnx).
    destruct (valid_finite false my ey Hy) as ([Hey _] & Hdy & Hny).
    apply (round_integer_ord _ _ _ _ (ex + ey + 2148) 1074); try lia.
    + pose proof (digits2_mul mx my) as Hd. cbn [Zdigits2].
      assert (0 < Zpos (digits2_pos mx)) by lia.
      assert (0 < Zpos (digits2_pos my)) by lia.
      lia.
    + cbn [ord]. rewrite Pos2Z.inj_mul.
      replace (ex + ey + 2148) with ((ex + 1074) + (ey + 1074)) by lia.
      rewrite (pow2_add (ex + 1074) (ey + 1074)) by lia. ring.
Qed.

(** *** Division *)

(** The location that division attaches to its quotient is the location
    of the remainder. *)
Lemma new_location_located (N D : Z) :
  0 <= N -> 0 < D ->
  located N D (shr_record_of_loc (N / D) (new_location D (N mod D))).
Proof.
  intros HN HD. pose proof (Z.mod_pos_bound N D HD) as HR.
  set (R := N mod D) in *.
  assert (Hodd : Z.even D = false -> 2 * R <> D).
  { intros He Heq. rewrite <- Heq, Z.even_mul in He. discriminate. }
  unfold located. split; [assumption |]. split; [assumption |]. fold R.
  unfold new_location, new_location_even, new_location_odd.
  destruct (Z.even D) eqn:Hev; [clear Hodd | specialize (Hodd eq_refl)];
    (destruct (Z.eqb_spec R 0) as [H0 | H0];
     [| match goal with
        | |- context [?a ?= ?b] => destruct (Z.compare_spec a b)
        end]);
    cbn [shr_record_of_loc shr_m shr_r shr_s];
    (split; [reflexivity |]); split; decide_order.
Qed.

Lemma div_eucl_eq (a b : Z) : Z.div_eucl a b = (a / b, a mod b).
Proof. unfold Z.div, Z.modulo. now destruct (Z.div_eucl a b). Qed.

(** What [SFdiv_core_binary] hands to the rounding: the quotient of the
    dividend, shifted far enough, by the divisor. *)
Lemma div_core_located (mx my : positive) (ex ey : Z) :
  let e' := Z.min (Z.max (Zpos (digits2_pos mx) + ex
                          - (Zpos (digits2_pos my) + ey) - 53) (-1074))
                  (ex - ey) in
  let N := Zpos mx * 2 ^ (ex - ey - e') in
  SFdiv_core_binary prec emax (Zpos mx) ex (Zpos my) ey
  = (N / Zpos my, e', new_location (Zpos my) (N mod Zpos my))
  /\ e' <= Z.max (Zdigits2 (N / Zpos my) + e' - 53) (-1074).
Proof.
  intros e' N.
  assert (Hs : 0 <= ex - ey - e') by (unfold e'; lia).
  pose proof (pow2_pos _ Hs) as Hp.
  split.
  - unfold SFdiv_core_binary. rewrite fexp_eq. cbn [Zdigits2]. fold e'.
    replace (match ex - ey - e' with
             | 0 => Zpos mx
             | Zpos _ => Z.shiftl (Zpos mx) (ex - ey - e')
             | Zneg _ => 0
             end) with N.
    + now rewrite div_eucl_eq.
    + unfold N. destruct (ex - ey - e') as [| p | p] eqn:E; [| | lia].
      * change (2 ^ 0) with 1. lia.
      * rewrite Z.shiftl_mul_pow2 by lia. reflexivity.
  - set (d1 := Zpos (digits2_pos mx)) in *.
    set (d2 := Zpos (digits2_pos my)) in *.
    pose proof (digits2_bounds mx) as [L1 _].
    pose proof (digits2_bounds my) as [_ U2].
    fold d1 in L1. fold d2 in U2.
    assert (H1 : 0 < d1) by (unfold d1; lia).
    assert (H2 : 0 < d2) by (unfold d2; lia).
    assert (HN : 0 <= N) by (unfold N; nia).
    pose proof (Z.div_pos N (Zpos my) HN ltac:(lia)) as Hq.
    destruct (Zdigits2_bounds (N / Zpos my) Hq) as (Hd0 & Hdu & _).
    set (s := ex - ey - e') in *.
    assert (Hk : d1 - d2 + s <= Zdigits2 (N / Zpos my)).
    { destruct (Z.le_gt_cases (d1 - d2 + s) 0) as [Hk | Hk]; [lia |].
      assert (Hlow : 2 ^ (d1 - d2 + s - 1) <= N / Zpos my).
      { apply Z.div_le_lower_bound; [lia |].
        apply Z.le_trans with (2 ^ d2 * 2 ^ (d1 - d2 + s - 1)).
        - apply Z.mul_le_mono_nonneg_r; [apply Z.pow_nonneg |]; lia.
        - rewrite <- pow2_add by lia.
          replace (d2 + (d1 - d2 + s - 1)) with ((d1 - 1) + s) by lia.
          rewrite pow2_add by lia. unfold N.
          apply Z.mul_le_mono_nonneg_r; lia. }
      destruct (Z.le_gt_cases (d1 - d2 + s) (Zdigits2 (N / Zpos my)))
        as [H | H]; [assumption | exfalso].
      pose proof (pow2_le (Zdigits2 (N / Zpos my)) (d1 - d2 + s - 1)
                    Hd0 ltac:(lia)).
      lia. }
    unfold s in Hk. unfold e' in *. lia.
Qed.

(** The quotient of a double that is finite and not negative by a
    positive one is the double nearest to the quotient of their values. *)
Lemma SFdiv_ord (x y : spec_float) :
  valid x -> valid y -> nonneg x -> nonneg y ->
  ord x < top -> 0 < ord y < top ->
  nonneg (SF64div x y)
  /\ ord (SF64div x y) = nearest (ord x * 2 ^ 1074) (ord y).
Proof.
  intros Hx Hy Nx Ny Fx Fy.
  destruct x as [sx | sx | | sx mx ex], y as [sy | sy | | sy my ey];
    cbn [nonneg] in Nx, Ny; try contradiction;
    cbn [ord] in Fx, Fy; try lia; subst; cbn [SF64div SFdiv xorb].
  - cbn [nonneg ord]. rewrite Z.mul_0_l. rewrite nearest_zero by lia.
    split; [exact I | reflexivity].
  - destruct (valid_finite false mx ex Hx) as ([Hex Hex'] & _).
    destruct (valid_finite false my ey Hy) as ([Hey Hey'] & _).
    destruct (div_core_located mx my ex ey) as [Hcore HE].
    rewrite Hcore. clear Hcore.
    set (e' := Z.min (Z.max (Zpos (digits2_pos mx) + ex
                             - (Zpos (digits2_pos my) + ey) - 53) (-1074))
                     (ex - ey)) in *.
    assert (Hs : 0 <= ex - ey - e') by (unfold e'; lia).
    assert (He' : -3000 <= e') by (unfold e'; lia).
    pose proof (pow2_pos _ Hs) as Hp.
    apply (binary_round_aux_ord _ _ _ _ _ _ (e' + 3000) 1926);
      try assumption; try lia.
    + apply new_location_located; nia.
    + cbn [ord]. lia.
    + cbn [ord].
      transitivity (Zpos mx * Zpos my * 2 ^ (ex + 4074)).
      * replace (ex + 4074) with ((ex + 1074) + 1074 + 1926) by ring.
        rewrite (pow2_add (ex + 1074 + 1074) 1926),
          (pow2_add (ex + 1074) 1074) by lia.
        ring.
      * replace (ex + 4074)
          with ((ex - ey - e') + (ey + 1074) + (e' + 3000)) by ring.
        rewrite (pow2_add (ex - ey - e' + (ey + 1074)) (e' + 3000)),
          (pow2_add (ex - ey - e') (ey + 1074)) by lia.
        ring.
Qed.

(** *** Subtraction from one *)

Lemma iter_xO (m d : positive) :
  Zpos (Pos.iter xO m d) = Zpos m * 2 ^ Zpos d
  /\ Zpos (digits2_pos (Pos.iter xO m d)) = Zpos (digits2_pos m) + Zpos d.
Proof.
  induction d as [| d [IH1 IH2]] using Pos.peano_ind.
  - cbn [Pos.iter digits2_pos]. split; lia.
  - rewrite Pos.iter_succ. cbn [digits2_pos].
    rewrite Pos2Z.inj_succ, Z.pow_succ_r by lia.
    change (Zpos (Pos.iter xO m d)~0) with (2 * Zpos (Pos.iter xO m d)).
    rewrite IH1. split; lia.
Qed.

Lemma shl_align_spec (m : positive) (e e' : Z) :
  let r := shl_align m e e' in
  snd r = Z.min e e'
  /\ Zpos (fst r) = Zpos m * 2 ^ (e - snd r)
  /\ Zpos (digits2_pos (fst r)) = Zpos (digits2_pos m) + (e - snd r).
Proof.
  unfold shl_align. destruct (e' - e) as [| d | d] eqn:E; cbn [fst snd].
  - rewrite Z.sub_diag. change (2 ^ 0) with 1. lia.
  - rewrite Z.sub_diag. change (2 ^ 0) with 1. lia.
  - destruct (iter_xO m d) as [H1 H2].
    replace (e - e') with (Zpos d) by lia. lia.
Qed.

(** [binary_round] of an integer significand is the double nearest to
    the value. *)
Lemma binary_round_ord (m : positive) (e : Z) :
  -1074 <= e ->
  nonneg (binary_round prec emax false m e)
  /\ ord (binary_round prec emax false m e)
     = nearest (Zpos m * 2 ^ (e + 1074)) 1.
Proof.
  intros He. unfold binary_round. rewrite fexp_eq.
  set (F := Z.max (Zpos (digits2_pos m) + e - 53) (-1074)).
  destruct (shl_align_spec m e F) as (Hs & Hm & Hd).
  destruct (shl_align m e F) as [mz ez]. cbn [fst snd] in Hs, Hm, Hd.
  assert (Hez : -1074 <= ez) by (unfold F in Hs; lia).
  apply (round_integer_ord _ _ _ _ (ez + 1074) 0); try lia.
  - cbn [Zdigits2]. rewrite Hd. unfold F in Hs. lia.
  - change (2 ^ 0) with 1. rewrite Hm.
    replace (e + 1074) with ((e - ez) + (ez + 1074)) by ring.
    rewrite (pow2_add (e - ez) (ez + 1074)) by lia. ring.
Qed.

Lemma pow2_lt (a b : Z) : 0 <= a -> a < b -> 2 ^ a < 2 ^ b.
Proof. intros. apply Z.pow_lt_mono_r; lia. Qed.

Lemma nearest_one : nearest (2 ^ 1074) 1 = 2 ^ 1074.
Proof. vm_compute. reflexivity. Qed.

(** [1 - u] for a double [u] between zero and one is the double nearest
    to the difference. *)
Lemma SFsub_one_ord (u : spec_float) :
  valid u -> nonneg u -> ord u <= 2 ^ 1074 ->
  nonneg (SF64sub one u)
  /\ ord (SF64sub one u) = nearest (2 ^ 1074 - ord u) 1.
Proof.
  intros Hv Nu Hu.
  destruct u as [s | s | | s mu eu]; cbn [nonneg] in Nu;
    [| exfalso | contradiction |].
  - cbn [SF64sub SFsub one ord]. rewrite Z.sub_0_r, nearest_one.
    split; reflexivity.
  - cbn [ord] in Hu. unfold top in Hu.
    pose proof (pow2_lt 1074 2098 ltac:(lia) ltac:(lia)) as Hlt.
    exact (Z.lt_irrefl _ (Z.lt_le_trans _ _ _ Hlt Hu)).
  - subst s.
    destruct (valid_finite false mu eu Hv) as ([He0 He1] & Hd & Hn).
    destruct (valid_ord false mu eu Hv) as (_ & _ & H52).
    cbn [ord] in Hu.
    assert (Heu : eu <= -52).
    { destruct (Z.le_gt_cases eu (-52)) as [H | H]; [assumption | exfalso].
      specialize (H52 ltac:(lia)).
      assert (2 ^ 52 * 2 ^ (eu + 1074) <= Zpos mu * 2 ^ (eu + 1074))
        by (apply Z.mul_le_mono_nonneg_r; [apply Z.pow_nonneg |]; lia).
      rewrite <- pow2_add in H0 by lia.
      pose proof (pow2_lt 1074 (52 + (eu + 1074)) ltac:(lia) ltac:(lia)).
      lia. }
    assert (HM : Zpos mu <= 2 ^ (- eu)).
    { apply Z.mul_le_mono_pos_r with (2 ^ (eu + 1074));
        [apply pow2_pos; lia |].
      rewrite <- pow2_add by lia.
      replace (- eu + (eu + 1074)) with 1074 by ring. exact Hu. }
    unfold SF64sub, SFsub, one.
    destruct (shl_align_spec 4503599627370496 (-52) (Z.min (-52) eu))
      as (Hs1 & Hm1 & _).
    destruct (shl_align_spec mu eu (Z.min (-52) eu)) as (Hs2 & Hm2 & _).
    rewrite Z.min_r in * by lia.
    rewrite Z.min_r in Hs1 by lia. rewrite Z.min_id in Hs2.
    rewrite Hs1 in Hm1. rewrite Hs2 in Hm2. rewrite Z.sub_diag in Hm2.
    change (2 ^ 0) with 1 in Hm2. rewrite Z.mul_1_r in Hm2.
    unfold cond_Zopp. rewrite Hm1, Hm2.
    change (Zpos 4503599627370496) with (2 ^ 52).
    rewrite <- pow2_add by lia.
    replace (52 + (-52 - eu)) with (- eu) by ring.
    assert (Hval : (2 ^ (- eu) - Zpos mu) * 2 ^ (eu + 1074)
                   = 2 ^ 1074 - Zpos mu * 2 ^ (eu + 1074)).
    { rewrite Z.mul_sub_distr_r, <- pow2_add by lia.
      replace (- eu + (eu + 1074)) with 1074 by ring. reflexivity. }
    cbn [ord]. rewrite <- Hval. unfold binary_normalize.
    destruct (2 ^ (- eu) - Zpos mu) as [| M | M] eqn:EM; [| | lia].
    + cbn [nonneg ord]. rewrite Z.mul_0_l, nearest_zero by lia.
      split; [exact I | reflexivity].
    + apply binary_round_ord. exact He0.
Qed.

Lemma ord_nonneg (f : spec_float) : 0 <= ord f.
Proof.
  destruct f as [s | s | | s m e]; cbn [ord];
    [reflexivity | apply Z.lt_le_incl, top_pos | reflexivity |].
  apply Z.mul_nonneg_nonneg; [lia | apply Z.pow_nonneg; lia].
Qed.

End RoundingFacts.

(** ** The order of the mock quotes *)

Module QuoteFacts.

Import JSNumber JS Soroswap Rounding RoundingFacts.
Import QuoteTerms.
Local Open Scope Z_scope.

(** *** Doubles of the program *)

Lemma number_valid (x : number) : valid (Prim2SF x).
Proof. exact (Prim2SF_valid x). Qed.

Lemma leb_ord (x y : number) :
  nonneg (Prim2SF x) -> nonneg (Prim2SF y) ->
  (x <=? y)%float = true <-> ord (Prim2SF x) <= ord (Prim2SF y).
Proof.
  intros Nx Ny. rewrite leb_spec. unfold SFleb.
  rewrite (SFcompare_ord _ _ (number_valid x) (number_valid y) Nx Ny).
  destruct (Z.compare_spec (ord (Prim2SF x)) (ord (Prim2SF y)));
    split; intros; try reflexivity; try discriminate; lia.
Qed.

Lemma ltb_ord (x y : number) :
  nonneg (Prim2SF x) -> nonneg (Prim2SF y) ->
  (x <? y)%float = true <-> ord (Prim2SF x) < ord (Prim2SF y).
Proof.
  intros Nx Ny. rewrite ltb_spec. unfold SFltb.
  rewrite (SFcompare_ord _ _ (number_valid x) (number_valid y) Nx Ny).
  destruct (Z.compare_spec (ord (Prim2SF x)) (ord (Prim2SF y)));
    split; intros; try reflexivity; try discriminate; lia.
Qed.

(** What is at least a double that is not negative is not negative. *)
Lemma nonneg_above (x y : number) :
  nonneg (Prim2SF x) -> (x <=? y)%float = true -> nonneg (Prim2SF y).
Proof.
  rewrite leb_spec. unfold SFleb.
  destruct (Prim2SF x) as [sx | sx | | sx mx ex],
           (Prim2SF y) as [sy | sy | | sy my ey];
    cbn [nonneg SFcompare]; intros Nx H; try contradiction; subst;
    try exact I; try discriminate;
    try (destruct sy; [discriminate | reflexivity]).
Qed.

Lemma zero_le_nonneg (x : number) :
  (0 <=? x)%float = true -> nonneg (Prim2SF x).
Proof. apply nonneg_above. exact I. Qed.

Lemma mul_ord (x y : number) :
  nonneg (Prim2SF x) -> nonneg (Prim2SF y) ->
  ord (Prim2SF x) < top -> ord (Prim2SF y) < top ->
  nonneg (Prim2SF (x * y))
  /\ ord (Prim2SF (x * y))
     = nearest (ord (Prim2SF x) * ord (Prim2SF y)) (2 ^ 1074).
Proof.
  intros. rewrite mul_spec. apply SFmul_ord; auto using number_valid.
Qed.

Lemma div_ord (x y : number) :
  nonneg (Prim2SF x) -> nonneg (Prim2SF y) ->
  ord (Prim2SF x) < top -> 0 < ord (Prim2SF y) < top ->
  nonneg (Prim2SF (x / y))
  /\ ord (Prim2SF (x / y))
     = nearest (ord (Prim2SF x) * 2 ^ 1074) (ord (Prim2SF y)).
Proof.
  intros. rewrite div_spec. apply SFdiv_ord; auto using number_valid.
Qed.

Lemma sub_one_ord (u : number) :
  nonneg (Prim2SF u) -> ord (Prim2SF u) <= 2 ^ 1074 ->
  nonneg (Prim2SF (1 - u))
  /\ ord (Prim2SF (1 - u)) = nearest (2 ^ 1074 - ord (Prim2SF u)) 1.
Proof.
  intros. rewrite sub_spec. change (Prim2SF 1) with one.
  apply SFsub_one_ord; auto using number_valid.
Qed.

(** *** [toFixed] on magnitudes *)

Lemma fixed_int_ord (m : positive) (e : Z) (f : nat) :
  -1074 <= e -> fixed_int m e f = fixed_of_ord (Zpos m * 2 ^ (e + 1074)) f.
Proof.
  intros He. unfold fixed_int, fixed_of_ord.
  set (T := 10 ^ Z.of_nat f).
  assert (H2 : 2 ^ 1075 = 2 * 2 ^ 1074) by reflexivity.
  assert (HP : 0 < 2 ^ 1074) by (apply pow2_pos; lia).
  assert (Hhalf : 2 ^ 1074 / 2 ^ 1075 = 0)
    by (apply Z.div_small; rewrite H2; lia).
  assert (Hup : forall k, 0 <= k ->
            Z.to_N (Zpos m * T * 2 ^ k)
            = Z.to_N ((2 * T * (Zpos m * 2 ^ (k + 1074)) + 2 ^ 1074)
                      / 2 ^ 1075)).
  { intros k Hk. f_equal. rewrite pow2_add by lia.
    replace (2 * T * (Zpos m * (2 ^ k * 2 ^ 1074)))
      with (Zpos m * T * 2 ^ k * 2 ^ 1075) by (rewrite H2; ring).
    rewrite Z.div_add_l by lia. rewrite Hhalf. lia. }
  destruct e as [| p | k].
  - apply (Hup 0). lia.
  - apply (Hup (Zpos p)). lia.
  - f_equal.
    assert (Hk : 0 <= 1074 - Zpos k) by lia.
    pose proof (pow2_pos _ Hk) as HQ.
    pose proof (pow2_pos (Zpos k) ltac:(lia)) as HK.
    replace (Zneg k + 1074) with (1074 - Zpos k) by lia.
    replace (2 ^ 1075) with (2 ^ (Zpos k + 1) * 2 ^ (1074 - Zpos k))
      by (rewrite <- pow2_add by lia; f_equal; lia).
    replace (2 ^ 1074) with (2 ^ Zpos k * 2 ^ (1074 - Zpos k)) at 1
      by (rewrite <- pow2_add by lia; f_equal; lia).
    replace (2 * T * (Zpos m * 2 ^ (1074 - Zpos k))
             + 2 ^ Zpos k * 2 ^ (1074 - Zpos k))
      with ((2 * (Zpos m * T) + 2 ^ Zpos k) * 2 ^ (1074 - Zpos k)) by ring.
    rewrite Z.div_mul_cancel_r; [reflexivity | | lia].
    pose proof (pow2_pos (Zpos k + 1) ltac:(lia)). lia.
Qed.

Lemma fixed_of_ord_mono (o1 o2 : Z) (f : nat) :
  0 <= o1 -> o1 <= o2 -> (fixed_of_ord o1 f <= fixed_of_ord o2 f)%N.
Proof.
  intros H1 H12. unfold fixed_of_ord.
  assert (HT : 0 <= 10 ^ Z.of_nat f) by (apply Z.pow_nonneg; lia).
  assert (HP : 0 < 2 ^ 1075) by (apply pow2_pos; lia).
  assert (HQ : 0 < 2 ^ 1074) by (apply pow2_pos; lia).
  apply Z2N.inj_le.
  - apply Z.div_pos; [nia | assumption].
  - apply Z.div_pos; [nia | assumption].
  - apply Z.div_le_mono; [assumption |].
    apply Z.add_le_mono_r. apply Z.mul_le_mono_nonneg_l; lia.
Qed.

Lemma ten_pow_21_ord :
  nonneg (Prim2SF ten_pow_21) /\ ord (Prim2SF ten_pow_21) < top.
Proof. split; vm_compute; reflexivity. Qed.

Lemma fixed_of_ord_zero (f : nat) : fixed_of_ord 0 f = 0%N.
Proof.
  unfold fixed_of_ord. rewrite Z.mul_0_r, Z.add_0_l.
  rewrite Z.div_small; [reflexivity |]. split.
  - apply Z.pow_nonneg. lia.
  - apply pow2_lt; lia.
Qed.

(** Below [10^21] a double that is not negative is printed with [f]
    decimals from its magnitude. *)
Lemma toFixed_ord (z : number) (f : nat) :
  nonneg (Prim2SF z) -> (z <? ten_pow_21)%float = true ->
  toFixed z f = format_fixed (fixed_of_ord (ord (Prim2SF z)) f) f.
Proof.
  intros Nz Hlt. unfold toFixed.
  pose proof (number_valid z) as Hv.
  pose proof (proj1 (ltb_ord z ten_pow_21 Nz (proj1 ten_pow_21_ord)) Hlt)
    as Hord.
  rewrite ltb_spec, abs_spec. rewrite ltb_spec in Hlt.
  destruct (Prim2SF z) as [s | s | | s m e]; cbn [nonneg ord] in *.
  - now rewrite fixed_of_ord_zero.
  - exfalso. pose proof (proj2 ten_pow_21_ord). lia.
  - contradiction.
  - subst s. cbn [SFabs]. rewrite Hlt.
    destruct (valid_finite false m e Hv) as ([He _] & _).
    cbn [append]. now rewrite fixed_int_ord.
Qed.

(** *** Reading back what [toFixed] prints *)

Lemma digits_value_app (a b : string) (acc : N) :
  digits_value (a ++ b) acc = digits_value b (digits_value a acc).
Proof.
  revert acc. induction a as [| c a IH]; intros acc; cbn [append digits_value];
    [reflexivity |].
  destruct (digit_of_ascii c); apply IH.
Qed.

Lemma digits_value_zeros (k : nat) : digits_value (zeros k) 0 = 0%N.
Proof. induction k as [| k IH]; [reflexivity | exact IH]. Qed.

Lemma digits_value_of_uint_acc (d : Decimal.uint) (acc : positive) :
  digits_value (NilEmpty.string_of_uint d) (Npos acc)
  = Npos (Pos.of_uint_acc d acc).
Proof.
  revert acc.
  induction d as [| d IH | d IH | d IH | d IH | d IH | d IH | d IH | d IH
                  | d IH | d IH]; intros acc;
    cbn [NilEmpty.string_of_uint digits_value Pos.of_uint_acc];
    [reflexivity | ..];
    match goal with
    | |- context [digit_of_ascii ?c] =>
        let v := eval vm_compute in (digit_of_ascii c) in
        change (digit_of_ascii c) with v
    end; cbv iota;
    match goal with
    | |- digits_value _ ?n = _ =>
        match goal with
        | |- _ = Npos (Pos.of_uint_acc _ ?p) =>
            replace n with (Npos p) by lia
        end
    end; apply IH.
Qed.

Lemma digits_value_of_uint (d : Decimal.uint) :
  digits_value (NilEmpty.string_of_uint d) 0 = N.of_uint d.
Proof.
  unfold N.of_uint.
  induction d as [| d IH | d IH | d IH | d IH | d IH | d IH | d IH | d IH
                  | d IH | d IH];
    cbn [NilEmpty.string_of_uint Pos.of_uint];
    [reflexivity | exact IH | ..];
    cbn [digits_value];
    match goal with
    | |- context [digit_of_ascii ?c] =>
        let v := eval vm_compute in (digit_of_ascii c) in
        change (digit_of_ascii c) with v
    end; cbv iota;
    apply (digits_value_of_uint_acc d).
Qed.

Lemma take_drop (n : nat) (s : string) : take n s ++ drop n s = s.
Proof.
  revert s. induction n as [| n IH]; intros [| c r]; cbn; try reflexivity.
  now rewrite IH.
Qed.

(** The digits that [format_fixed] prints write the number back. *)
Lemma read_format_fixed (n : N) (f : nat) :
  digits_value (format_fixed n f) 0 = n.
Proof.
  assert (Hds : digits_value (digits_of_N n) 0 = n).
  { unfold digits_of_N. rewrite digits_value_of_uint.
    apply DecimalN.Unsigned.of_to. }
  unfold format_fixed. destruct f as [| f]; [exact Hds |].
  cbv zeta. rewrite digits_value_app. cbn [append].
  change (digits_value (String "." ?r) ?a) with (digits_value r a).
  rewrite <- digits_value_app, take_drop, digits_value_app.
  now rewrite digits_value_zeros.
Qed.

(** So the printed string determines the number. *)
Lemma format_fixed_inj (a b : N) (f : nat) :
  format_fixed a f = format_fixed b f -> a = b.
Proof.
  intros H. rewrite <- (read_format_fixed a f), <- (read_format_fixed b f).
  now rewrite H.
Qed.

(** *** Products and shares *)

Lemma finite_or_infinite (x : number) :
  nonneg (Prim2SF x) ->
  ord (Prim2SF x) < top \/ Prim2SF x = S754_infinity false.
Proof.
  intros Nx. pose proof (number_valid x) as Hv.
  destruct (Prim2SF x) as [s | s | | s m e]; cbn [nonneg] in Nx.
  - left. apply top_pos.
  - right. now subst.
  - contradiction.
  - left. apply (valid_ord _ _ _ Hv).
Qed.

Lemma mul_infinite (x c : number) :
  Prim2SF x = S754_infinity false ->
  nonneg (Prim2SF c) -> 0 < ord (Prim2SF c) < top ->
  Prim2SF (x * c) = S754_infinity false.
Proof.
  intros Ex Nc Hc. rewrite mul_spec, Ex.
  destruct (Prim2SF c) as [s | s | | s m e]; cbn [nonneg ord] in Nc, Hc;
    try contradiction; try lia.
  subst. reflexivity.
Qed.

Lemma below_is_finite (z : number) :
  (z <? ten_pow_21)%float = true -> Prim2SF z <> S754_infinity false.
Proof.
  rewrite ltb_spec. intros H E. rewrite E in H.
  vm_compute in H. discriminate.
Qed.

(** Products of doubles that are finite and not negative keep the order
    of their factors. *)
Lemma mul_mono (x1 x2 v1 v2 : number) :
  nonneg (Prim2SF x1) -> nonneg (Prim2SF x2) ->
  nonneg (Prim2SF v1) -> nonneg (Prim2SF v2) ->
  ord (Prim2SF x1) <= ord (Prim2SF x2) -> ord (Prim2SF x2) < top ->
  ord (Prim2SF v1) <= ord (Prim2SF v2) -> ord (Prim2SF v2) < top ->
  nonneg (Prim2SF (x1 * v1)) /\ nonneg (Prim2SF (x2 * v2))
  /\ ord (Prim2SF (x1 * v1)) <= ord (Prim2SF (x2 * v2)).
Proof.
  intros N1 N2 M1 M2 Hx Fx Hv Fv.
  destruct (mul_ord x1 v1 N1 M1 ltac:(lia) ltac:(lia)) as [P1 O1].
  destruct (mul_ord x2 v2 N2 M2 Fx Fv) as [P2 O2].
  split; [assumption |]. split; [assumption |]. rewrite O1, O2.
  pose proof (ord_nonneg (Prim2SF x1)) as H1.
  pose proof (ord_nonneg (Prim2SF v1)) as H2.
  assert (HB : 0 < 2 ^ 1074) by (apply pow2_pos; lia).
  apply nearest_mono; try assumption; [nia |].
  apply Z.mul_le_mono_nonneg_r; [lia |].
  apply Z.mul_le_mono_nonneg; lia.
Qed.

Lemma rate_ord :
  nonneg (Prim2SF 0.12) /\ 0 < ord (Prim2SF 0.12) < top.
Proof. repeat split; vm_compute; reflexivity. Qed.

Lemma fee_ord :
  nonneg (Prim2SF 0.997) /\ 0 < ord (Prim2SF 0.997) < top.
Proof. repeat split; vm_compute; reflexivity. Qed.

Lemma hundred_ord :
  nonneg (Prim2SF 100) /\ 0 < ord (Prim2SF 100) < top.
Proof. repeat split; vm_compute; reflexivity. Qed.

Lemma unit_ord : nonneg (Prim2SF 1) /\ ord (Prim2SF 1) = 2 ^ 1074.
Proof. split; reflexivity. Qed.

Lemma unit_below_top : 2 ^ 1074 < top.
Proof. unfold top. apply pow2_lt; lia. Qed.

(** The share of the quote that a slippage between 0 and 100 percent
    leaves: between zero and one, and smaller for a larger slippage. *)
Lemma share_mono (s1 s2 : number) :
  nonneg (Prim2SF s1) -> nonneg (Prim2SF s2) ->
  ord (Prim2SF s1) <= ord (Prim2SF s2) ->
  ord (Prim2SF s2) <= ord (Prim2SF 100) ->
  nonneg (Prim2SF (1 - s1 / 100)) /\ nonneg (Prim2SF (1 - s2 / 100))
  /\ ord (Prim2SF (1 - s2 / 100)) <= ord (Prim2SF (1 - s1 / 100))
  /\ ord (Prim2SF (1 - s1 / 100)) <= 2 ^ 1074.
Proof.
  intros N1 N2 H12 H2.
  destruct hundred_ord as (Nh & Hh0 & Hh1).
  pose proof (ord_nonneg (Prim2SF s1)) as P1.
  assert (HB : 0 < 2 ^ 1074) by (apply pow2_pos; lia).
  destruct (div_ord s1 100%float N1 Nh ltac:(lia) (conj Hh0 Hh1)) as [NU1 OU1].
  destruct (div_ord s2 100%float N2 Nh ltac:(lia) (conj Hh0 Hh1)) as [NU2 OU2].
  assert (Hfull : nearest (ord (Prim2SF 100) * 2 ^ 1074) (ord (Prim2SF 100))
                  = 2 ^ 1074).
  { rewrite <- nearest_one at 2. apply nearest_ext; lia. }
  assert (HU12 : ord (Prim2SF (s1 / 100)) <= ord (Prim2SF (s2 / 100))).
  { rewrite OU1, OU2.
    apply nearest_mono; [apply Z.mul_nonneg_nonneg; lia | lia | lia |].
    apply Z.mul_le_mono_nonneg_r; [lia |].
    apply Z.mul_le_mono_nonneg_r; lia. }
  assert (HU2 : ord (Prim2SF (s2 / 100)) <= 2 ^ 1074).
  { rewrite OU2, <- Hfull. pose proof (ord_nonneg (Prim2SF s2)).
    apply nearest_mono; [apply Z.mul_nonneg_nonneg; lia | lia | lia |].
    apply Z.mul_le_mono_nonneg_r; [lia |].
    apply Z.mul_le_mono_nonneg_r; lia. }
  destruct (sub_one_ord (s1 / 100)%float NU1 ltac:(lia)) as [NV1 OV1].
  destruct (sub_one_ord (s2 / 100)%float NU2 HU2) as [NV2 OV2].
  pose proof (ord_nonneg (Prim2SF (s1 / 100))) as Q1.
  split; [assumption |]. split; [assumption |]. split.
  - rewrite OV1, OV2. apply nearest_mono; lia.
  - rewrite OV1. rewrite <- nearest_one at 2. apply nearest_mono; lia.
Qed.

(** *** The mock quote *)

Lemma quote_falls_back net tokenIn tokenOut amount slippage :
  (exists err, api_quote net tokenIn tokenOut (Some amount) slippage
               = Throw err) ->
  exists q,
    getSwapQuote net tokenIn tokenOut (Some amount) (Some slippage) = Ok q
    /\ amountOut q = toFixed (wanted amount) 6
    /\ minimumReceived q = toFixed (wanted amount * kept slippage)%float 6.
Proof.
  intros [err Hfail]. eexists. split.
  - unfold getSwapQuote. cbn [default_param]. rewrite Hfail. reflexivity.
  - split; reflexivity.
Qed.

(** An amount that is not negative and whose quote is below [10^21] is
    finite, and so are its quote and what a share of it leaves. *)
Lemma wanted_ord (x : number) :
  nonneg (Prim2SF x) -> (x * 0.12 * 0.997 <? ten_pow_21)%float = true ->
  ord (Prim2SF x) < top
  /\ nonneg (Prim2SF (x * 0.12)) /\ ord (Prim2SF (x * 0.12)) < top
  /\ nonneg (Prim2SF (x * 0.12 * 0.997))
  /\ ord (Prim2SF (x * 0.12 * 0.997)) < ord (Prim2SF ten_pow_21).
Proof.
  intros Nx Hlt.
  destruct rate_ord as (Nr & Hr0 & Hr1). destruct fee_ord as (Nf & Hf0 & Hf1).
  pose proof (below_is_finite _ Hlt) as Hfin.
  destruct (finite_or_infinite x Nx) as [Fx | Ix].
  2:{ exfalso. apply Hfin. apply mul_infinite; [| assumption | lia].
      apply mul_infinite; [assumption | assumption | lia]. }
  destruct (mul_ord x 0.12%float Nx Nr Fx Hr1) as [Ny _].
  destruct (finite_or_infinite _ Ny) as [Fy | Iy].
  2:{ exfalso. apply Hfin. apply mul_infinite; [assumption | assumption | lia]. }
  destruct (mul_ord _ 0.997%float Ny Nf Fy Hf1) as [Nz _].
  repeat split; try assumption.
  apply ltb_ord; [assumption | apply ten_pow_21_ord | assumption].
Qed.

Lemma printed (z : number) :
  nonneg (Prim2SF z) -> ord (Prim2SF z) < ord (Prim2SF ten_pow_21) ->
  toFixed z 6 = format_fixed (fixed_of_ord (ord (Prim2SF z)) 6) 6.
Proof.
  intros Nz Hz. apply toFixed_ord; [assumption |].
  apply ltb_ord; [assumption | apply ten_pow_21_ord | assumption].
Qed.

(** A share between zero and one of a finite amount is at most the
    amount. *)
Lemma share_below (z v : number) :
  nonneg (Prim2SF z) -> nonneg (Prim2SF v) ->
  ord (Prim2SF z) < top -> ord (Prim2SF v) <= 2 ^ 1074 ->
  ord (Prim2SF (z * v)) <= ord (Prim2SF z).
Proof.
  intros Nz Nv Fz Hv. destruct unit_ord as [N1 O1].
  pose proof unit_below_top as Htop.
  destruct (mul_mono z z v 1%float Nz Nz Nv N1 (Z.le_refl _) Fz)
    as (_ & _ & H); [lia | lia |].
  now rewrite FloatFacts.mul_one in H.
Qed.

(** The claim C6 as it is written fails. Results are rounded to six
    decimals, so near inputs tie: amounts 1 and 1.000001 give the same
    two strings, and so do slippages 0.5 and 0.500001. Outside the usual
    range the order turns round: for a negative amount a larger slippage
    leaves more, and at a slippage above 100 a larger amount leaves
    less. *)
Lemma quote_order_is_not_strict :
  (parseFloat "1" <? parseFloat "1.000001")%float = true
  /\ (parseFloat "0.5" <? parseFloat "0.500001")%float = true
  /\ (exists q q' q'',
         offline_quote "1" "0.5" = Ok q
         /\ offline_quote "1.000001" "0.5" = Ok q'
         /\ offline_quote "1" "0.500001" = Ok q''
         /\ amountOut q = "0.119640" /\ amountOut q' = "0.119640"
         /\ minimumReceived q = "0.119042"
         /\ minimumReceived q' = "0.119042"
         /\ minimumReceived q'' = "0.119042")
  /\ (exists q q',
         offline_quote "-1000" "0.5" = Ok q
         /\ offline_quote "-1000" "1" = Ok q'
         /\ minimumReceived q = "-119.041800"
         /\ minimumReceived q' = "-118.443600")
  /\ (exists q q',
         offline_quote "1000" "200" = Ok q
         /\ offline_quote "2000" "200" = Ok q'
         /\ minimumReceived q = "-119.640000"
         /\ minimumReceived q' = "-239.280000").
Proof.
  split; [vm_compute; reflexivity |].
  split; [vm_compute; reflexivity |].
  split; [| split].
  - do 3 eexists. repeat split; vm_compute; reflexivity.
  - do 2 eexists. repeat split; vm_compute; reflexivity.
  - do 2 eexists. repeat split; vm_compute; reflexivity.
Qed.

End QuoteFacts.

(** ** The order of the doubles *)

Module OrderFacts.

Import JSNumber NumberTerms Rounding RoundingFacts OrderTerms QuoteFacts.
Local Open Scope Z_scope.

Lemma magnitude_valid (f : spec_float) : valid f -> valid (magnitude f).
Proof. destruct f; exact (fun H => H). Qed.

Lemma magnitude_nonneg (f : spec_float) : f <> S754_nan -> nonneg (magnitude f).
Proof. destruct f; cbn; auto. Qed.

Lemma magnitude_ord (f : spec_float) : ord (magnitude f) = ord f.
Proof. destruct f; reflexivity. Qed.

(** Two doubles, neither being NaN, compare as their signed values. *)
Lemma SFcompare_signed (x y : spec_float) :
  valid x -> valid y -> x <> S754_nan -> y <> S754_nan ->
  SFcompare x y = Some (signed x ?= signed y).
Proof.
  intros Hx Hy Nx Ny. pose proof top_pos as Htop.
  pose proof (SFcompare_ord (magnitude x) (magnitude y)
                (magnitude_valid x Hx) (magnitude_valid y Hy)
                (magnitude_nonneg x Nx) (magnitude_nonneg y Ny)) as Hmag.
  rewrite !magnitude_ord in Hmag.
  assert (Hpos : forall s m e, valid (S754_finite s m e) ->
                               0 < ord (S754_finite s m e) < top).
  { intros s m e H. now destruct (valid_ord s m e H) as (H0 & _). }
  destruct x as [sx | [|] | | [|] mx ex], y as [sy | [|] | | [|] my ey];
    try congruence;
    try specialize (Hpos _ _ _ Hx) as Px;
    try specialize (Hpos _ _ _ Hy) as Py;
    cbn [magnitude] in Hmag; cbn [signed];
    try exact Hmag;
    try (cbn [SFcompare]; apply f_equal; symmetry;
         repeat match goal with
         | |- context [ord (S754_infinity ?s)] =>
             change (ord (S754_infinity s)) with top
         | |- context [ord (S754_zero ?s)] =>
             change (ord (S754_zero s)) with 0
         | H : context [ord (S754_finite ?s ?m ?e)] |- _ =>
             generalize dependent (ord (S754_finite s m e)); intros
         end;
         first [ apply Z.compare_lt_iff; lia | apply Z.compare_gt_iff; lia
               | apply Z.compare_eq_iff; lia ]).
  (* two negative numbers *)
  rewrite Z.compare_opp, Z.compare_antisym.
  match goal with
  | |- _ = Some (CompOpp ?c) =>
      change (Some (CompOpp c)) with (option_map CompOpp (Some c))
  end.
  rewrite <- Hmag. cbn [SFcompare option_map]. apply f_equal.
  destruct (ex ?= ey); reflexivity.
Qed.

Lemma leb_signed (x y : number) :
  (x <=? y)%float = true <->
  ~ not_a_number x /\ ~ not_a_number y
  /\ signed (Prim2SF x) <= signed (Prim2SF y).
Proof.
  unfold not_a_number. rewrite leb_spec. unfold SFleb.
  assert (Hdec : forall f : spec_float, f = S754_nan \/ f <> S754_nan).
  { intros [| | |]; [right | right | left | right]; congruence. }
  destruct (Hdec (Prim2SF x)) as [Hx | Hx].
  { rewrite Hx. cbn. split; [discriminate | intros (H & _); now elim H]. }
  destruct (Hdec (Prim2SF y)) as [Hy | Hy].
  { rewrite Hy. destruct (Prim2SF x); cbn;
      (split; [discriminate | intros (_ & H & _); now elim H]). }
  rewrite (SFcompare_signed _ _ (number_valid x) (number_valid y) Hx Hy).
  destruct (Z.compare_spec (signed (Prim2SF x)) (signed (Prim2SF y)));
    split; intros; try discriminate; try reflexivity;
    try (repeat split; auto; lia).
Qed.

(** The order of the doubles is transitive. *)
Lemma leb_trans (x y z : number) :
  (x <=? y)%float = true -> (y <=? z)%float = true -> (x <=? z)%float = true.
Proof.
  rewrite !leb_signed. intros (Hx & _ & Hxy) (_ & Hz & Hyz).
  repeat split; auto. lia.
Qed.

End OrderFacts.

(** ** Products, quotients and differences on both sides of zero *)

Module SignFacts.

Import JSNumber NumberTerms Rounding RoundingFacts OrderTerms OrderFacts.
Import SignTerms QuoteFacts.
Local Open Scope Z_scope.

Lemma binary_round_aux_sign (s : bool) (m e : Z) (l : location) :
  binary_round_aux prec emax s m e l
  = with_sign s (binary_round_aux prec emax false m e l).
Proof.
  unfold binary_round_aux.
  destruct (shr_fexp prec emax m e l) as [mrs' e'].
  destruct (shr_fexp prec emax _ e' loc_Exact) as [mrs'' e''].
  destruct (shr_m mrs''); [reflexivity | | reflexivity].
  destruct (e'' <=? emax - prec); reflexivity.
Qed.

Lemma binary_round_sign (s : bool) (m : positive) (e : Z) :
  binary_round prec emax s m e
  = with_sign s (binary_round prec emax false m e).
Proof.
  unfold binary_round.
  destruct (shl_align m e _) as [mz ez]. apply binary_round_aux_sign.
Qed.

Lemma signed_with_sign (s : bool) (f : spec_float) :
  signed (with_sign s f) = if s then - ord f else ord f.
Proof. destruct f as [? | ? | | ? ? ?], s; reflexivity. Qed.

Lemma with_sign_not_nan (s : bool) (f : spec_float) :
  nonneg f -> with_sign s f <> S754_nan.
Proof. destruct f; cbn; intros H; try discriminate; contradiction. Qed.

Lemma nearest_bounds (A B : Z) : 0 <= A -> 0 < B -> 0 <= nearest A B <= top.
Proof.
  intros HA HB. pose proof top_pos as Htop.
  destruct (shift_bounds A B HA HB) as (Ht & [Hr _] & _).
  unfold nearest. split; [| apply Z.le_min_l].
  apply Z.min_glb; [lia |].
  apply Z.mul_nonneg_nonneg; [exact Hr | apply Z.pow_nonneg; lia].
Qed.

Lemma snearest_bounds (D B : Z) : 0 < B -> - top <= snearest D B <= top.
Proof.
  intros HB. unfold snearest. destruct (Z.ltb_spec D 0).
  - pose proof (nearest_bounds (- D) B ltac:(lia) HB). lia.
  - pose proof (nearest_bounds D B ltac:(lia) HB). lia.
Qed.

Lemma snearest_mono (D1 D2 B : Z) :
  0 < B -> D1 <= D2 -> snearest D1 B <= snearest D2 B.
Proof.
  intros HB H. unfold snearest.
  destruct (Z.ltb_spec D1 0), (Z.ltb_spec D2 0); try lia.
  - pose proof (nearest_mono (- D2) B (- D1) B ltac:(lia) HB HB
                  ltac:(apply Z.mul_le_mono_nonneg_r; lia)). lia.
  - pose proof (nearest_bounds (- D1) B ltac:(lia) HB).
    pose proof (nearest_bounds D2 B ltac:(lia) HB). lia.
  - apply nearest_mono; try lia. apply Z.mul_le_mono_nonneg_r; lia.
Qed.

Lemma snearest_zero (B : Z) : 0 < B -> snearest 0 B = 0.
Proof. intros. unfold snearest. cbn. now apply nearest_zero. Qed.

Lemma ord_le_top (f : spec_float) : valid f -> ord f <= top.
Proof.
  intros Hv. destruct f as [s | s | | s m e]; cbn [ord];
    try (pose proof top_pos; lia).
  destruct (valid_ord s m e Hv) as (H & _). cbn [ord] in H. lia.
Qed.

(** The signed value of a double lies between the two infinities. *)
Lemma signed_bounds (f : spec_float) : valid f -> - top <= signed f <= top.
Proof.
  intros Hv. pose proof (ord_nonneg f). pose proof (ord_le_top f Hv).
  destruct f as [s | [|] | | [|] m e]; cbn [signed]; lia.
Qed.

(** Which doubles have which signed values. *)
Lemma signed_zero_iff (f : spec_float) :
  valid f -> f <> S754_nan ->
  (signed f = 0 <-> exists s, f = S754_zero s).
Proof.
  intros Hv Hn. pose proof top_pos.
  destruct f as [s | [|] | | [|] m e]; cbn [signed ord];
    try congruence;
    try (destruct (valid_ord _ m e Hv) as ([H0 _] & _); cbn [ord] in H0);
    (split; [intros; try lia; eauto | intros [s' Hs]; try discriminate; lia]).
Qed.

Lemma signed_top_iff (f : spec_float) :
  valid f -> f <> S754_nan ->
  (Z.abs (signed f) = top <-> exists s, f = S754_infinity s).
Proof.
  intros Hv Hn. pose proof top_pos.
  destruct f as [s | [|] | | [|] m e]; cbn [signed ord];
    try congruence;
    try (destruct (valid_ord _ m e Hv) as ([H0 H1] & _); cbn [ord] in H0, H1);
    (split; [intros; try lia; eauto | intros [s' Hs]; try discriminate; lia]).
Qed.

Lemma abs_below_top (a : Z) : Z.abs a < top -> (Z.abs a =? top) = false.
Proof. intros. apply Z.eqb_neq. lia. Qed.

(** *** Products *)

Lemma mul_finite (sx sy : bool) (mx my : positive) (ex ey : Z) :
  SF64mul (S754_finite sx mx ex) (S754_finite sy my ey)
  = with_sign (xorb sx sy)
      (SF64mul (S754_finite false mx ex) (S754_finite false my ey)).
Proof.
  cbn [SF64mul SFmul xorb]. apply binary_round_aux_sign.
Qed.

Lemma mul_finite_ord (sx sy : bool) (mx my : positive) (ex ey : Z) :
  valid (S754_finite sx mx ex) -> valid (S754_finite sy my ey) ->
  let p := SF64mul (S754_finite false mx ex) (S754_finite false my ey) in
  nonneg p
  /\ ord p = nearest (ord (S754_finite sx mx ex) * ord (S754_finite sy my ey))
               (2 ^ 1074).
Proof.
  intros Hx Hy.
  destruct (valid_ord _ _ _ Hx) as ([_ Fx] & _).
  destruct (valid_ord _ _ _ Hy) as ([_ Fy] & _).
  apply (SFmul_ord (S754_finite false mx ex) (S754_finite false my ey));
    try reflexivity; assumption.
Qed.

Lemma mul_is_nan (x y : spec_float) :
  valid x -> valid y -> x <> S754_nan -> y <> S754_nan ->
  (SF64mul x y = S754_nan
   <-> (signed x = 0 /\ Z.abs (signed y) = top)
       \/ (Z.abs (signed x) = top /\ signed y = 0)).
Proof.
  intros Hx Hy Nx Ny.
  rewrite (signed_zero_iff x Hx Nx), (signed_zero_iff y Hy Ny),
    (signed_top_iff x Hx Nx), (signed_top_iff y Hy Ny).
  destruct x as [sx | sx | | sx mx ex], y as [sy | sy | | sy my ey];
    try congruence;
    try (cbn [SF64mul SFmul];
         split; [discriminate | intros [[[? H] [? H']] | [[? H] [? H']]];
                 discriminate]);
    try (cbn [SF64mul SFmul]; split; [intros _; eauto | reflexivity]).
  rewrite mul_finite. split.
  - intros H. exfalso. revert H. apply with_sign_not_nan.
    apply (mul_finite_ord sx sy mx my ex ey Hx Hy).
  - intros [[[? H] [? H']] | [[? H] [? H']]]; discriminate.
Qed.

Lemma emul_0_l (b : Z) : Z.abs b <> top -> emul 0 b = 0.
Proof.
  intros H. pose proof top_pos. unfold emul.
  rewrite (proj2 (Z.eqb_neq (Z.abs 0) top)) by (cbn; lia).
  rewrite (proj2 (Z.eqb_neq _ _) H). cbn [orb].
  rewrite Z.mul_0_l. apply snearest_zero. apply pow2_pos. lia.
Qed.

Lemma emul_0_r (a : Z) : Z.abs a <> top -> emul a 0 = 0.
Proof.
  intros H. pose proof top_pos. unfold emul.
  rewrite (proj2 (Z.eqb_neq (Z.abs 0) top)) by (cbn; lia).
  rewrite (proj2 (Z.eqb_neq _ _) H). cbn [orb].
  rewrite Z.mul_0_r. apply snearest_zero. apply pow2_pos. lia.
Qed.

Lemma emul_inf_l (a b : Z) :
  Z.abs a = top -> emul a b = Z.sgn a * Z.sgn b * top.
Proof. intros H. unfold emul. now rewrite H, Z.eqb_refl. Qed.

Lemma emul_inf_r (a b : Z) :
  Z.abs b = top -> emul a b = Z.sgn a * Z.sgn b * top.
Proof. intros H. unfold emul. now rewrite H, Z.eqb_refl, orb_true_r. Qed.

Lemma emul_finite (a b : Z) :
  Z.abs a < top -> Z.abs b < top -> emul a b = snearest (a * b) (2 ^ 1074).
Proof.
  intros Ha Hb. unfold emul. now rewrite !abs_below_top.
Qed.

Lemma sgn_top : Z.sgn top = 1.
Proof. apply Z.sgn_pos, top_pos. Qed.

Lemma mul_signed (x y : spec_float) :
  valid x -> valid y -> x <> S754_nan -> y <> S754_nan ->
  SF64mul x y <> S754_nan ->
  signed (SF64mul x y) = emul (signed x) (signed y).
Proof.
  intros Hx Hy Nx Ny Hn. pose proof top_pos as Htop.
  destruct x as [sx | sx | | sx mx ex], y as [sy | sy | | sy my ey];
    try congruence;
    try (destruct (valid_ord _ mx ex Hx) as ([Px Fx] & _));
    try (destruct (valid_ord _ my ey Hy) as ([Py Fy] & _)).
  - cbn [signed SF64mul SFmul]. change (ord (S754_zero _)) with 0.
    rewrite emul_0_l; [reflexivity | cbn; lia].
  - now elim Hn.
  - cbn [SF64mul SFmul]. change (signed (S754_zero _)) with 0.
    rewrite emul_0_l; [reflexivity |].
    destruct sy; cbn [signed]; lia.
  - now elim Hn.
  - cbn [SF64mul SFmul]. rewrite emul_inf_l.
    + destruct sx, sy; cbn [signed xorb];
        change (ord (S754_infinity _)) with top;
        rewrite ?Z.sgn_opp, sgn_top; lia.
    + destruct sx; cbn [signed]; change (ord (S754_infinity _)) with top; lia.
  - cbn [SF64mul SFmul]. rewrite emul_inf_l.
    + destruct sx, sy; cbn [signed xorb];
        change (ord (S754_infinity _)) with top;
        rewrite ?Z.sgn_opp, sgn_top, ?Z.sgn_opp, (Z.sgn_pos _ Py); lia.
    + destruct sx; cbn [signed]; change (ord (S754_infinity _)) with top; lia.
  - cbn [SF64mul SFmul]. change (signed (S754_zero _)) with 0.
    rewrite emul_0_r; [reflexivity |].
    destruct sx; cbn [signed]; lia.
  - cbn [SF64mul SFmul]. rewrite emul_inf_r.
    + destruct sx, sy; cbn [signed xorb];
        change (ord (S754_infinity _)) with top;
        rewrite ?Z.sgn_opp, sgn_top, ?Z.sgn_opp, (Z.sgn_pos _ Px); lia.
    + destruct sy; cbn [signed]; change (ord (S754_infinity _)) with top; lia.
  - rewrite mul_finite, signed_with_sign.
    destruct (mul_finite_ord sx sy mx my ex ey Hx Hy) as [_ Hord].
    rewrite Hord.
    set (ox := ord (S754_finite sx mx ex)) in *.
    set (oy := ord (S754_finite sy my ey)) in *.
    assert (Hxs : signed (S754_finite sx mx ex) = if sx then - ox else ox)
      by (destruct sx; reflexivity).
    assert (Hys : signed (S754_finite sy my ey) = if sy then - oy else oy)
      by (destruct sy; reflexivity).
    rewrite Hxs, Hys.
    rewrite emul_finite by (destruct sx, sy; lia).
    unfold snearest.
    assert (0 < ox * oy) by (apply Z.mul_pos_pos; lia).
    destruct sx, sy; cbn [xorb];
      match goal with
      | |- context [?a * ?b <? 0] =>
          destruct (Z.ltb_spec (a * b) 0) as [Hs | Hs]
      end; try lia;
      first [ f_equal; f_equal; lia | f_equal; lia ].
Qed.

Lemma emul_comm (a b : Z) : emul a b = emul b a.
Proof.
  unfold emul. rewrite orb_comm, (Z.mul_comm a b), (Z.mul_comm (Z.sgn a)).
  reflexivity.
Qed.

(** A product grows with a factor when the other one is not negative,
    as long as it is a number. *)
Lemma emul_mono_l (a1 a2 b : Z) :
  - top <= a1 -> a1 <= a2 -> a2 <= top -> 0 <= b <= top ->
  ~ (a1 = 0 /\ b = top) -> ~ (a2 = 0 /\ b = top) ->
  ~ (Z.abs a1 = top /\ b = 0) -> ~ (Z.abs a2 = top /\ b = 0) ->
  emul a1 b <= emul a2 b.
Proof.
  intros H1 H12 H2 Hb N1 N2 N3 N4. pose proof top_pos as Htop.
  assert (HB : 0 < 2 ^ 1074) by (apply pow2_pos; lia).
  destruct (Z.eq_dec b top) as [-> | Hbt].
  - rewrite !(emul_inf_r _ top) by lia. rewrite sgn_top.
    assert (a1 <> 0) by tauto. assert (a2 <> 0) by tauto.
    destruct (Z.sgn_spec a1) as [[? ->] | [[? ->] | [? ->]]],
             (Z.sgn_spec a2) as [[? ->] | [[? ->] | [? ->]]]; lia.
  - assert (Fb : Z.abs b < top) by lia.
    assert (Hcase : forall a, - top <= a <= top ->
              ~ (Z.abs a = top /\ b = 0) ->
              (a = - top /\ 0 < b /\ emul a b = - top)
              \/ (a = top /\ 0 < b /\ emul a b = top)
              \/ (Z.abs a < top /\ emul a b = snearest (a * b) (2 ^ 1074))).
    { intros a Ha Na.
      destruct (Z.eq_dec a (- top)) as [-> | ?];
        [| destruct (Z.eq_dec a top) as [-> | ?]].
      - left. assert (0 < b) by lia. repeat split; try lia.
        rewrite emul_inf_l by lia.
        rewrite Z.sgn_opp, sgn_top, Z.sgn_pos by lia. lia.
      - right. left. assert (0 < b) by lia. repeat split; try lia.
        rewrite emul_inf_l by lia. rewrite sgn_top, Z.sgn_pos by lia. lia.
      - right. right. split; [lia |]. apply emul_finite; lia. }
    pose proof (snearest_bounds (a1 * b) _ HB).
    pose proof (snearest_bounds (a2 * b) _ HB).
    destruct (Hcase a1 ltac:(lia) N3) as [(? & ? & ->) | [(? & ? & ->) | (? & ->)]],
             (Hcase a2 ltac:(lia) N4) as [(? & ? & ->) | [(? & ? & ->) | (? & ->)]];
      try lia.
    apply snearest_mono; [exact HB |].
    apply Z.mul_le_mono_nonneg_r; lia.
Qed.

Lemma emul_mono_r (a b1 b2 : Z) :
  0 <= a <= top -> - top <= b1 -> b1 <= b2 -> b2 <= top ->
  ~ (b1 = 0 /\ a = top) -> ~ (b2 = 0 /\ a = top) ->
  ~ (Z.abs b1 = top /\ a = 0) -> ~ (Z.abs b2 = top /\ a = 0) ->
  emul a b1 <= emul a b2.
Proof.
  intros. rewrite (emul_comm a b1), (emul_comm a b2).
  now apply emul_mono_l.
Qed.

Lemma ediv_mono (a1 a2 b : Z) :
  0 < b -> - top <= a1 -> a1 <= a2 -> a2 <= top -> ediv a1 b <= ediv a2 b.
Proof.
  intros Hb H1 H12 H2. pose proof top_pos as Htop.
  assert (HB : 0 < 2 ^ 1074) by (apply pow2_pos; lia).
  pose proof (snearest_bounds (a1 * 2 ^ 1074) b Hb).
  pose proof (snearest_bounds (a2 * 2 ^ 1074) b Hb).
  unfold ediv.
  destruct (Z.eqb_spec (Z.abs a1) top), (Z.eqb_spec (Z.abs a2) top); try lia.
  apply snearest_mono; [exact Hb |].
  apply Z.mul_le_mono_nonneg_r; lia.
Qed.

Lemma ecomplement_anti (a1 a2 : Z) :
  - top <= a1 -> a1 <= a2 -> a2 <= top ->
  ecomplement a2 <= ecomplement a1.
Proof.
  intros H1 H12 H2. pose proof top_pos as Htop.
  pose proof (snearest_bounds (2 ^ 1074 - a1) 1 ltac:(lia)).
  pose proof (snearest_bounds (2 ^ 1074 - a2) 1 ltac:(lia)).
  unfold ecomplement.
  destruct (Z.eqb_spec (Z.abs a1) top), (Z.eqb_spec (Z.abs a2) top); try lia.
  apply snearest_mono; lia.
Qed.

(** *** Quotients by a positive double *)

Lemma div_signed (x y : spec_float) :
  valid x -> valid y -> x <> S754_nan ->
  nonneg y -> 0 < ord y < top ->
  SF64div x y <> S754_nan
  /\ signed (SF64div x y) = ediv (signed x) (ord y).
Proof.
  intros Hx Hy Nx Ny Fy. pose proof top_pos as Htop.
  destruct y as [sy | sy | | sy my ey]; cbn [nonneg ord] in Ny, Fy;
    try contradiction; try lia. subst sy.
  unfold ediv.
  destruct x as [sx | sx | | sx mx ex]; try congruence.
  - cbn [SF64div SFdiv signed]. change (ord (S754_zero _)) with 0.
    split; [discriminate |].
    rewrite (abs_below_top 0) by (cbn; lia).
    rewrite Z.mul_0_l. symmetry. apply snearest_zero.
    cbn [ord]. lia.
  - cbn [SF64div SFdiv]. split; [discriminate |].
    destruct sx; cbn [signed xorb]; change (ord (S754_infinity _)) with top;
      rewrite ?Z.abs_opp, (Z.abs_eq top), Z.eqb_refl by lia; reflexivity.
  - destruct (valid_ord _ mx ex Hx) as ([Px Fx] & _).
    assert (Hd : SF64div (S754_finite sx mx ex) (S754_finite false my ey)
                 = with_sign sx (SF64div (S754_finite false mx ex)
                                         (S754_finite false my ey))).
    { cbn [SF64div SFdiv xorb].
      destruct (SFdiv_core_binary prec emax (Zpos mx) ex (Zpos my) ey)
        as [[mz ez] lz].
      rewrite xorb_false_r. apply binary_round_aux_sign. }
    rewrite Hd.
    destruct (SFdiv_ord (S754_finite false mx ex) (S754_finite false my ey)
                (magnitude_valid _ Hx) Hy eq_refl eq_refl Fx Fy)
      as [Nq Oq].
    split; [now apply with_sign_not_nan |].
    rewrite signed_with_sign, Oq.
    change (ord (S754_finite false mx ex)) with (ord (S754_finite sx mx ex)).
    set (ox := ord (S754_finite sx mx ex)) in *.
    assert (Hxs : signed (S754_finite sx mx ex) = if sx then - ox else ox)
      by (destruct sx; reflexivity).
    rewrite Hxs. rewrite abs_below_top by (destruct sx; lia).
    unfold snearest.
    assert (0 < ox * 2 ^ 1074) by (apply Z.mul_pos_pos; [lia | apply pow2_pos; lia]).
    destruct sx;
      match goal with
      | |- context [?a * ?b <? 0] =>
          destruct (Z.ltb_spec (a * b) 0) as [Hs | Hs]
      end; try lia;
      first [ f_equal; f_equal; lia | f_equal; lia ].
Qed.

(** *** One minus a double *)

Lemma signed_one : signed one = 2 ^ 1074.
Proof. vm_compute. reflexivity. Qed.

Lemma sub_one_signed (t : spec_float) :
  valid t -> t <> S754_nan ->
  SF64sub one t <> S754_nan
  /\ signed (SF64sub one t) = ecomplement (signed t).
Proof.
  intros Hv Nt. pose proof top_pos as Htop.
  assert (HB : 0 < 2 ^ 1074) by (apply pow2_pos; lia).
  unfold ecomplement.
  destruct t as [s | s | | s m e]; try congruence.
  - change (SF64sub one (S754_zero s)) with one.
    split; [discriminate |]. rewrite signed_one.
    change (signed (S754_zero s)) with 0.
    rewrite (abs_below_top 0) by (cbn; lia).
    rewrite Z.sub_0_r. unfold snearest.
    destruct (Z.ltb_spec (2 ^ 1074) 0); [lia |]. symmetry. apply nearest_one.
  - change (SF64sub one (S754_infinity s)) with (S754_infinity (negb s)).
    split; [discriminate |].
    destruct s; cbn [signed negb]; change (ord (S754_infinity _)) with top;
      rewrite ?Z.abs_opp, (Z.abs_eq top), Z.eqb_refl by lia; lia.
  - destruct (valid_finite s m e Hv) as ([He0 He1] & Hd & Hn).
    destruct (valid_ord s m e Hv) as ([Po Fo] & _).
    set (o := ord (S754_finite s m e)) in *.
    assert (Ho : o = Zpos m * 2 ^ (e + 1074)) by reflexivity.
    assert (Hs : signed (S754_finite s m e) = if s then - o else o)
      by (destruct s; reflexivity).
    rewrite Hs. rewrite abs_below_top by (destruct s; lia).
    unfold SF64sub, SFsub, one.
    set (ez := Z.min (-52) e).
    assert (Hez : -1074 <= ez <= -52) by (clear - He0; unfold ez; lia).
    assert (E1 : 0 <= -52 - ez) by (clear - Hez; lia).
    assert (E2 : 0 <= ez + 1074) by (clear - Hez; lia).
    assert (E3 : 0 <= e - ez) by (clear; unfold ez; lia).
    assert (E4 : 0 <= 52 + (-52 - ez)) by (clear - Hez; lia).
    assert (E5 : Z.min (-52) ez = ez) by (clear - Hez; lia).
    assert (E6 : Z.min e ez = ez) by (clear; unfold ez; lia).
    destruct (shl_align_spec 4503599627370496 (-52) ez) as (Hs1 & Hm1 & _).
    destruct (shl_align_spec m e ez) as (Hs2 & Hm2 & _).
    rewrite E5 in Hs1. rewrite E6 in Hs2.
    rewrite Hs1 in Hm1. rewrite Hs2 in Hm2.
    set (M1 := Zpos (fst (shl_align 4503599627370496 (-52) ez))) in *.
    set (M2 := Zpos (fst (shl_align m e ez))) in *.
    assert (H1 : M1 * 2 ^ (ez + 1074) = 2 ^ 1074).
    { rewrite Hm1. change (Zpos 4503599627370496) with (2 ^ 52).
      rewrite <- (pow2_add 52 (-52 - ez)) by (clear - E1; lia).
      rewrite <- (pow2_add (52 + (-52 - ez)) (ez + 1074)) by assumption.
      f_equal. clear. lia. }
    assert (H2 : M2 * 2 ^ (ez + 1074) = o).
    { rewrite Hm2, Ho, <- Z.mul_assoc.
      rewrite <- (pow2_add (e - ez) (ez + 1074)) by assumption.
      do 2 f_equal. clear. lia. }
    cbn [cond_Zopp].
    assert (Hval : (M1 - cond_Zopp s M2) * 2 ^ (ez + 1074)
                   = 2 ^ 1074 - (if s then - o else o)).
    { rewrite Z.mul_sub_distr_r, H1. destruct s; cbn [cond_Zopp]; lia. }
    assert (Hp : 0 < 2 ^ (ez + 1074)) by (apply pow2_pos; lia).
    unfold binary_normalize, snearest.
    destruct (M1 - cond_Zopp s M2) as [| M | M] eqn:EM.
    + split; [discriminate |]. cbn [signed ord].
      rewrite <- Hval, Z.mul_0_l. change (0 <? 0) with false. cbn iota.
      symmetry. apply nearest_zero. clear. lia.
    + destruct (binary_round_ord M ez ltac:(lia)) as [Nr Or].
      split; [intros H; rewrite H in Nr; exact Nr |].
      rewrite <- Hval.
      destruct (Z.ltb_spec (Zpos M * 2 ^ (ez + 1074)) 0) as [Hneg | _];
        [lia |].
      rewrite <- Or.
      destruct (binary_round prec emax false M ez) as [? | [|] | | [|] ? ?];
        cbn [nonneg] in Nr; try discriminate; try contradiction; reflexivity.
    + destruct (binary_round_ord M ez ltac:(lia)) as [Nr Or].
      rewrite binary_round_sign.
      split; [now apply with_sign_not_nan |].
      rewrite signed_with_sign, <- Hval.
      destruct (Z.ltb_spec (Zneg M * 2 ^ (ez + 1074)) 0) as [_ | Hpos];
        [| lia].
      rewrite Or. do 2 f_equal. lia.
Qed.

End SignFacts.

(** ** The order of the doubles through the arithmetic of a quote *)

Module NumberOrderFacts.

Import JSNumber NumberTerms Rounding RoundingFacts OrderTerms OrderFacts.
Import SignTerms SignFacts QuoteTerms QuoteFacts.
Local Open Scope float_scope.

(** Multiplying by a finite double above zero keeps the order. *)
Lemma scale_mono (c x1 x2 : number) :
  nonneg (Prim2SF c) -> (0 < ord (Prim2SF c) < top)%Z ->
  (x1 <=? x2) = true -> (x1 * c <=? x2 * c) = true.
Proof.
  intros Nc Hc. rewrite !leb_signed. unfold not_a_number.
  intros (N1 & N2 & H12).
  pose proof (number_valid x1) as V1. pose proof (number_valid x2) as V2.
  pose proof (number_valid c) as Vc.
  assert (Cn : Prim2SF c <> S754_nan)
    by (intros E; rewrite E in Nc; exact Nc).
  assert (Sc : signed (Prim2SF c) = ord (Prim2SF c)).
  { destruct (Prim2SF c) as [? | [|] | | [|] ? ?]; cbn [nonneg] in Nc;
      try discriminate; try contradiction; reflexivity. }
  pose proof (signed_bounds _ V1) as B1. pose proof (signed_bounds _ V2) as B2.
  assert (P1 : Prim2SF (x1 * c) <> S754_nan).
  { rewrite mul_spec. intros E.
    apply (mul_is_nan _ _ V1 Vc N1 Cn) in E. rewrite Sc in E. lia. }
  assert (P2 : Prim2SF (x2 * c) <> S754_nan).
  { rewrite mul_spec. intros E.
    apply (mul_is_nan _ _ V2 Vc N2 Cn) in E. rewrite Sc in E. lia. }
  split; [exact P1 |]. split; [exact P2 |].
  rewrite mul_spec in P1, P2. rewrite !mul_spec.
  rewrite (mul_signed _ _ V1 Vc N1 Cn P1), (mul_signed _ _ V2 Vc N2 Cn P2).
  rewrite Sc. apply emul_mono_l; lia.
Qed.

(** Dividing by a finite double above zero keeps the order. *)
Lemma quotient_mono (c x1 x2 : number) :
  nonneg (Prim2SF c) -> (0 < ord (Prim2SF c) < top)%Z ->
  (x1 <=? x2) = true -> (x1 / c <=? x2 / c) = true.
Proof.
  intros Nc Hc. rewrite !leb_signed. unfold not_a_number.
  intros (N1 & N2 & H12).
  pose proof (number_valid x1) as V1. pose proof (number_valid x2) as V2.
  pose proof (number_valid c) as Vc.
  pose proof (signed_bounds _ V1) as B1. pose proof (signed_bounds _ V2) as B2.
  rewrite !div_spec.
  destruct (div_signed _ _ V1 Vc N1 Nc Hc) as [P1 S1].
  destruct (div_signed _ _ V2 Vc N2 Nc Hc) as [P2 S2].
  split; [exact P1 |]. split; [exact P2 |].
  rewrite S1, S2. apply ediv_mono; lia.
Qed.

(** What is left of one shrinks as what is taken grows. *)
Lemma complement_anti (t1 t2 : number) :
  (t1 <=? t2) = true -> (1 - t2 <=? 1 - t1) = true.
Proof.
  rewrite !leb_signed. unfold not_a_number. intros (N1 & N2 & H12).
  pose proof (number_valid t1) as V1. pose proof (number_valid t2) as V2.
  pose proof (signed_bounds _ V1) as B1. pose proof (signed_bounds _ V2) as B2.
  rewrite !sub_spec. change (Prim2SF 1) with one.
  destruct (sub_one_signed _ V1 N1) as [P1 S1].
  destruct (sub_one_signed _ V2 N2) as [P2 S2].
  split; [exact P2 |]. split; [exact P1 |].
  rewrite S1, S2. apply ecomplement_anti; lia.
Qed.

(** The quoted output grows with the amount, whatever its sign. *)
Lemma wanted_mono (a1 a2 : string) :
  (parseFloat a1 <=? parseFloat a2) = true ->
  (wanted a1 <=? wanted a2) = true.
Proof.
  intros H. unfold wanted.
  apply scale_mono; [apply fee_ord | apply fee_ord |].
  apply scale_mono; [apply rate_ord | apply rate_ord | exact H].
Qed.

(** The share that is kept shrinks as the slippage grows. *)
Lemma kept_anti (s1 s2 : string) :
  (parseFloat s1 <=? parseFloat s2) = true ->
  (kept s2 <=? kept s1) = true.
Proof.
  intros H. unfold kept. apply complement_anti.
  apply quotient_mono; [apply hundred_ord | apply hundred_ord | exact H].
Qed.

(** An amount that is not negative quotes an output that is not
    negative. *)
Lemma wanted_nonneg (a : string) :
  (0 <=? parseFloat a) = true -> (0 <=? wanted a) = true.
Proof.
  intros H.
  change 0 with (0 * 0.12 * 0.997) at 1.
  apply scale_mono; [apply fee_ord | apply fee_ord |].
  apply scale_mono; [apply rate_ord | apply rate_ord | exact H].
Qed.

(** Up to a slippage of 100 the share that is kept is not negative. *)
Lemma kept_nonneg (s : string) :
  (parseFloat s <=? 100) = true -> (0 <=? kept s) = true.
Proof.
  intros H. change 0 with (1 - 100 / 100) at 1.
  unfold kept. apply complement_anti.
  apply quotient_mono; [apply hundred_ord | apply hundred_ord | exact H].
Qed.

(** A product that is a number grows with one factor when the other is
    not negative. *)
Lemma product_mono_l (z1 z2 v : number) :
  (z1 <=? z2) = true -> (0 <=? v) = true ->
  ~ not_a_number (z1 * v) -> ~ not_a_number (z2 * v) ->
  (z1 * v <=? z2 * v) = true.
Proof.
  rewrite !leb_signed. unfold not_a_number.
  intros (N1 & N2 & H12) (_ & Nv & Hv) P1 P2.
  change (signed (Prim2SF 0)) with 0%Z in Hv.
  pose proof (number_valid z1) as V1. pose proof (number_valid z2) as V2.
  pose proof (number_valid v) as Vv.
  pose proof (signed_bounds _ V1) as B1. pose proof (signed_bounds _ V2) as B2.
  pose proof (signed_bounds _ Vv) as Bv.
  split; [exact P1 |]. split; [exact P2 |].
  rewrite mul_spec in P1, P2. rewrite !mul_spec.
  pose proof (mul_is_nan _ _ V1 Vv N1 Nv) as I1.
  pose proof (mul_is_nan _ _ V2 Vv N2 Nv) as I2.
  rewrite (mul_signed _ _ V1 Vv N1 Nv P1), (mul_signed _ _ V2 Vv N2 Nv P2).
  apply emul_mono_l; try lia.
  - intros [E1 E2]. apply P1, I1. left. split; [exact E1 | lia].
  - intros [E1 E2]. apply P2, I2. left. split; [exact E1 | lia].
  - intros [E1 E2]. apply P1, I1. right. split; assumption.
  - intros [E1 E2]. apply P2, I2. right. split; assumption.
Qed.

Lemma product_mono_r (z v1 v2 : number) :
  (0 <=? z) = true -> (v1 <=? v2) = true ->
  ~ not_a_number (z * v1) -> ~ not_a_number (z * v2) ->
  (z * v1 <=? z * v2) = true.
Proof.
  rewrite !leb_signed. unfold not_a_number.
  intros (_ & Nz & Hz) (N1 & N2 & H12) P1 P2.
  change (signed (Prim2SF 0)) with 0%Z in Hz.
  pose proof (number_valid v1) as V1. pose proof (number_valid v2) as V2.
  pose proof (number_valid z) as Vz.
  pose proof (signed_bounds _ V1) as B1. pose proof (signed_bounds _ V2) as B2.
  pose proof (signed_bounds _ Vz) as Bz.
  split; [exact P1 |]. split; [exact P2 |].
  rewrite mul_spec in P1, P2. rewrite !mul_spec.
  pose proof (mul_is_nan _ _ Vz V1 Nz N1) as I1.
  pose proof (mul_is_nan _ _ Vz V2 Nz N2) as I2.
  rewrite (mul_signed _ _ Vz V1 Nz N1 P1), (mul_signed _ _ Vz V2 Nz N2 P2).
  apply emul_mono_r; try lia.
  - intros [E1 E2]. apply P1, I1. right. split; [lia | exact E1].
  - intros [E1 E2]. apply P2, I2. right. split; [lia | exact E1].
  - intros [E1 E2]. apply P1, I1. left. split; assumption.
  - intros [E1 E2]. apply P2, I2. left. split; assumption.
Qed.

End NumberOrderFacts.

(** ** Reading what [toFixed] and [toString] print *)

Module ReadFacts.

Import JSNumber JSON StringFacts QuoteTerms QuoteFacts PrintTerms.

(** [parseFloat] rounds what [read] finds. *)
Lemma parseFloat_read (input : string) :
  parseFloat input = rounded (read input).
Proof.
  unfold parseFloat, read, rounded.
  destruct (read_sign (trim_start input)) as [neg s].
  destruct (String.prefix "Infinity" s); [reflexivity |].
  destruct (read_digits s 0 0) as [[ip ni] r1].
  destruct r1 as [| c r2]; [destruct ni; reflexivity |].
  destruct (Ascii.eqb_spec c ".") as [-> | Hc].
  - destruct (read_digits r2 ip ni) as [[mant n_all] r3].
    destruct n_all; reflexivity.
  - destruct c as [[|] [|] [|] [|] [|] [|] [|] [|]];
      try (destruct ni; reflexivity).
    now elim Hc.
Qed.

Lemma is_digit_value (c : ascii) :
  is_digit c = true -> exists d, digit_of_ascii c = Some d.
Proof.
  unfold is_digit, digit_of_ascii. cbv zeta. intros ->. eauto.
Qed.

Lemma read_digits_run (a rest : string) (acc : N) (cnt : nat) :
  all_digits a = true -> stops rest ->
  read_digits (a ++ rest) acc cnt
  = (digits_value a acc, (cnt + String.length a)%nat, rest).
Proof.
  revert acc cnt. induction a as [| c a IH]; intros acc cnt Ha Hr.
  - cbn [append digits_value String.length]. rewrite Nat.add_0_r.
    destruct rest as [| c r]; [reflexivity |].
    cbn [read_digits]. cbn [stops] in Hr. now rewrite Hr.
  - cbn [all_digits] in Ha. apply andb_true_iff in Ha. destruct Ha as [Hc Ha].
    destruct (is_digit_value c Hc) as [d Hd].
    cbn [append read_digits digits_value String.length]. rewrite Hd.
    rewrite (IH _ _ Ha Hr). f_equal. f_equal. lia.
Qed.

(** Nothing is trimmed before a digit or a minus sign. *)
Lemma trim_start_digit (c : ascii) (r : string) :
  is_digit c = true -> trim_start (String c r) = String c r.
Proof.
  intros H.
  destruct c as [[|] [|] [|] [|] [|] [|] [|] [|]];
    try (vm_compute in H; discriminate H);
    destruct r as [| c2 [| c3 r3]]; reflexivity.
Qed.

Lemma trim_start_minus (r : string) :
  trim_start (String "-" r) = String "-" r.
Proof. destruct r as [| c2 [| c3 r3]]; reflexivity. Qed.

Lemma digit_is_not_a_sign (c : ascii) (r : string) :
  is_digit c = true -> read_sign (String c r) = (false, String c r).
Proof.
  intros H.
  destruct c as [[|] [|] [|] [|] [|] [|] [|] [|]];
    try (vm_compute in H; discriminate H); reflexivity.
Qed.

Lemma digit_is_not_infinity (c : ascii) (r : string) :
  is_digit c = true -> String.prefix "Infinity" (String c r) = false.
Proof.
  intros H.
  destruct c as [[|] [|] [|] [|] [|] [|] [|] [|]];
    try (vm_compute in H; discriminate H); reflexivity.
Qed.

(** What [read] finds in an unsigned string that starts with a digit. *)
Lemma read_signed (neg : bool) (c : ascii) (r : string) :
  is_digit c = true ->
  read ((if neg then "-" else "") ++ String c r)
  = match read (String c r) with
    | Some (Digits _ n e) => Some (Digits neg n e)
    | other => other
    end.
Proof.
  intros Hc. unfold read.
  rewrite (trim_start_digit c r Hc), (digit_is_not_a_sign c r Hc).
  rewrite (digit_is_not_infinity c r Hc).
  destruct neg; cbn [append].
  - rewrite trim_start_minus. cbn [read_sign].
    rewrite (digit_is_not_infinity c r Hc).
    destruct (read_digits (String c r) 0 0) as [[ip ni] r1].
    destruct r1 as [| c1 r2]; [destruct ni; reflexivity |].
    destruct (Ascii.eqb_spec c1 ".") as [-> | Hc1].
    + destruct (read_digits r2 ip ni) as [[mant n_all] r3].
      destruct n_all; reflexivity.
    + destruct c1 as [[|] [|] [|] [|] [|] [|] [|] [|]];
        try (destruct ni; reflexivity).
      now elim Hc1.
  - rewrite (trim_start_digit c r Hc), (digit_is_not_a_sign c r Hc).
    rewrite (digit_is_not_infinity c r Hc).
    destruct (read_digits (String c r) 0 0) as [[ip ni] r1].
    destruct r1 as [| c1 r2]; [destruct ni; reflexivity |].
    destruct (Ascii.eqb_spec c1 ".") as [-> | Hc1].
    + destruct (read_digits r2 ip ni) as [[mant n_all] r3].
      destruct n_all; reflexivity.
    + destruct c1 as [[|] [|] [|] [|] [|] [|] [|] [|]];
        try (destruct ni; reflexivity).
      now elim Hc1.
Qed.

Lemma nonempty_digits (s : string) :
  all_digits s = true -> s <> "" ->
  exists c r, s = String c r /\ is_digit c = true /\ all_digits r = true.
Proof.
  intros Ha Hn. destruct s as [| c r]; [now elim Hn |].
  cbn [all_digits] in Ha. apply andb_true_iff in Ha. destruct Ha. eauto.
Qed.

(** A run of digits, a point and a run of digits. *)
Lemma read_point (a b : string) :
  all_digits a = true -> a <> "" -> all_digits b = true ->
  read (a ++ "." ++ b)
  = Some (Digits false (digits_value (a ++ b) 0)
            (- Z.of_nat (String.length b))).
Proof.
  intros Ha Hn Hb.
  destruct (nonempty_digits a Ha Hn) as (c & r & -> & Hc & Hr).
  unfold read. cbn [append].
  rewrite (trim_start_digit c _ Hc), (digit_is_not_a_sign c _ Hc).
  rewrite (digit_is_not_infinity c _ Hc).
  change (String c (r ++ String "." b)) with (String c r ++ String "." b).
  rewrite (read_digits_run (String c r) (String "." b) 0 0 Ha eq_refl).
  rewrite <- (append_nil_r b) at 1.
  rewrite (read_digits_run b "" _ _ Hb I).
  change (String c (r ++ b)) with (String c r ++ b).
  rewrite digits_value_app.
  cbn [String.length Nat.add read_exponent].
  f_equal. f_equal. lia.
Qed.

Lemma length_zeros (k : nat) : String.length (zeros k) = k.
Proof. induction k as [| k IH]; cbn; [reflexivity | now rewrite IH]. Qed.

Lemma length_take (n : nat) (s : string) :
  String.length (take n s) = Nat.min n (String.length s).
Proof.
  revert s. induction n as [| n IH]; intros [| c r]; cbn; try reflexivity.
  now rewrite IH.
Qed.

Lemma length_drop (n : nat) (s : string) :
  String.length (drop n s) = (String.length s - n)%nat.
Proof.
  revert s. induction n as [| n IH]; intros [| c r]; cbn; try reflexivity.
  apply IH.
Qed.

Lemma digits_of_N_value (n : N) : digits_value (digits_of_N n) 0 = n.
Proof.
  unfold digits_of_N. rewrite digits_value_of_uint.
  apply DecimalN.Unsigned.of_to.
Qed.

(** [read] finds in what [toFixed(6)] prints below [10^21] the number
    of millionths that was printed. *)
Lemma read_fixed (neg : bool) (n : N) :
  read ((if neg then "-" else "") ++ format_fixed n 6)
  = Some (Digits neg n (-6)).
Proof.
  unfold format_fixed. cbv zeta.
  set (ds := digits_of_N n).
  set (padded := zeros (7 - String.length ds) ++ ds).
  set (k := (String.length padded - 6)%nat).
  assert (Hall : all_digits padded = true).
  { unfold padded. rewrite all_digits_app, all_digits_zeros.
    apply all_digits_of_N. }
  assert (Hlen : (7 <= String.length padded)%nat).
  { unfold padded. rewrite length_append, length_zeros. lia. }
  assert (Ha : all_digits (take k padded) = true)
    by now apply all_digits_take.
  assert (Hb : all_digits (drop k padded) = true)
    by now apply all_digits_drop.
  assert (Hna : take k padded <> "").
  { intros E. apply (f_equal String.length) in E.
    rewrite length_take in E. change (String.length "") with 0%nat in E.
    unfold k in E. lia. }
  assert (Hlb : String.length (drop k padded) = 6%nat)
    by (rewrite length_drop; unfold k; lia).
  pose proof (read_point _ _ Ha Hna Hb) as Hread.
  rewrite take_drop, Hlb in Hread.
  assert (Hval : digits_value padded 0 = n).
  { unfold padded. rewrite digits_value_app, digits_value_zeros.
    apply digits_of_N_value. }
  rewrite Hval in Hread.
  destruct (nonempty_digits _ Ha Hna) as (c & r & E & Hc & _).
  rewrite E in Hread |- *. cbn [append] in Hread |- *.
  rewrite (read_signed neg c _ Hc), Hread. reflexivity.
Qed.

Lemma digits_of_pos_value (p : positive) :
  digits_value (digits_of_pos p) 0 = Npos p.
Proof. exact (digits_of_N_value (Npos p)). Qed.

Lemma all_digits_of_pos (p : positive) : all_digits (digits_of_pos p) = true.
Proof. apply all_digits_of_uint. Qed.

Lemma digits_of_pos_nonempty (p : positive) : digits_of_pos p <> "".
Proof. exact (digits_of_N_nonempty (Npos p)). Qed.

(** The exponent part that [toString] writes for a large number. *)
Lemma read_exponent_plus (ex : Z) :
  (0 <= ex)%Z ->
  read_exponent ("e" ++ "+" ++ digits_of_N (Z.abs_N ex)) = ex.
Proof.
  intros Hex. cbn [append read_exponent].
  change (Ascii.eqb "e" "e") with true. cbn [orb read_sign].
  pose proof (all_digits_of_N (Z.abs_N ex)) as Ha.
  pose proof (digits_of_N_nonempty (Z.abs_N ex)) as Hn.
  rewrite <- (append_nil_r (digits_of_N (Z.abs_N ex))).
  rewrite (read_digits_run _ "" 0 0 Ha I).
  rewrite digits_of_N_value.
  destruct (digits_of_N (Z.abs_N ex)) as [| c r]; [now elim Hn |].
  cbn [String.length Nat.add]. lia.
Qed.

(** [read] finds in the exponent notation of [toString] the digits and
    the power of ten that were printed. *)
Lemma read_exponent_form (neg : bool) (p : positive) (q : Z) :
  (22 <= Z.of_nat (String.length (digits_of_pos p)) + q)%Z ->
  read ((if neg then "-" else "")
        ++ format_digits (digits_of_pos p)
             (Z.of_nat (String.length (digits_of_pos p)) + q))
  = Some (Digits neg (Npos p) q).
Proof.
  intros Hn.
  pose proof (all_digits_of_pos p) as Ha.
  pose proof (digits_of_pos_nonempty p) as Hne.
  pose proof (digits_of_pos_value p) as Hv.
  set (ds := digits_of_pos p) in *.
  set (n := (Z.of_nat (String.length ds) + q)%Z) in *.
  unfold format_digits. cbv zeta. fold n.
  replace (n <=? 21)%Z with false by (symmetry; apply Z.leb_gt; lia).
  replace (n <=? 0)%Z with false by (symmetry; apply Z.leb_gt; lia).
  rewrite !andb_false_r.
  replace (n - 1 <? 0)%Z with false by (symmetry; apply Z.ltb_ge; lia).
  pose proof (read_exponent_plus (n - 1) ltac:(lia)) as Hex.
  set (tail := "e" ++ "+" ++ digits_of_N (Z.abs_N (n - 1))) in *.
  assert (Hstop : stops tail) by reflexivity.
  destruct (nonempty_digits ds Ha Hne) as (d & rest & E & Hd & Hrest).
  assert (Hone : read_digits (String d (String "." (rest ++ tail))) 0 0
                 = (digits_value (String d "") 0, 1%nat,
                    String "." (rest ++ tail))).
  { apply (read_digits_run (String d "") (String "." (rest ++ tail)) 0 0).
    - cbn [all_digits]. now rewrite Hd.
    - reflexivity. }
  assert (Hq : q = (n - 1 - Z.of_nat (String.length rest))%Z).
  { unfold n. rewrite E. cbn [String.length]. lia. }
  clearbody n. rewrite E in *. clear E.
  destruct rest as [| d2 rest2].
  - (* one digit *)
    assert (Hread : read (String d tail) = Some (Digits false (Npos p) q)).
    { unfold read.
      rewrite (trim_start_digit d _ Hd), (digit_is_not_a_sign d _ Hd).
      rewrite (digit_is_not_infinity d _ Hd).
      change (String d tail) with (String d "" ++ tail).
      rewrite (read_digits_run (String d "") tail 0 0 Ha Hstop).
      rewrite Hv. cbn [String.length Nat.add]. unfold tail at 1.
      cbn [append]. fold tail. rewrite Hex. do 2 f_equal.
      cbn [String.length] in Hq. lia. }
    change (String d ("e" ++ "+" ++ digits_of_N (Z.abs_N (n - 1))))
      with (String d tail).
    rewrite (read_signed neg d _ Hd), Hread. reflexivity.
  - (* several digits *)
    assert (Hread : read (String d ("." ++ String d2 rest2 ++ tail))
                    = Some (Digits false (Npos p) q)).
    { unfold read. cbn [append].
      rewrite (trim_start_digit d _ Hd), (digit_is_not_a_sign d _ Hd).
      rewrite (digit_is_not_infinity d _ Hd).
      change (String d2 (rest2 ++ tail)) with (String d2 rest2 ++ tail).
      rewrite Hone.
      rewrite (read_digits_run (String d2 rest2) tail _ 1 Hrest Hstop).
      rewrite <- digits_value_app.
      change (String d "" ++ String d2 rest2) with (String d (String d2 rest2)).
      rewrite Hv, Hex.
      cbn [Nat.add String.length]. do 2 f_equal.
      cbn [String.length] in Hq. lia. }
    change (String d ("." ++ String d2 rest2 ++ "e" ++ "+"
                      ++ digits_of_N (Z.abs_N (n - 1))))
      with (String d ("." ++ String d2 rest2 ++ tail)).
    rewrite (read_signed neg d _ Hd), Hread. reflexivity.
Qed.

End ReadFacts.

(** ** The shortest digits of a large double *)

Module ShortestFacts.

Import JSNumber Rounding RoundingFacts QuoteFacts.
Local Open Scope Z_scope.

Lemma pow10_pos (q : Z) : 0 <= q -> 0 < 10 ^ q.
Proof. intros. apply Z.pow_pos_nonneg; lia. Qed.

Lemma floor_mul_le (x u : Z) : 0 < u -> x / u * u <= x.
Proof. intros. rewrite Z.mul_comm. now apply Z.mul_div_le. Qed.

Lemma floor_mul_gt (x u : Z) : 0 < u -> x < (x / u + 1) * u.
Proof.
  intros. pose proof (Z.mul_succ_div_gt x u ltac:(lia)). lia.
Qed.

Lemma lo4_bounds (m : positive) (e : Z) :
  4 * Zpos m - 2 <= lo4 m e <= 4 * Zpos m - 1.
Proof. unfold lo4. destruct (_ && _); lia. Qed.

(** The digits that [digits_at] finds write a number between the two
    midpoints, and strictly between them when the double is odd. *)
Lemma digits_at_bounds (m : positive) (e q : Z) (p : positive) :
  2 <= e -> 0 <= q -> digits_at m e q = Some p ->
  lo4 m e * 2 ^ (e - 2) <= Zpos p * 10 ^ q <= hi4 m * 2 ^ (e - 2)
  /\ (Z.even (Zpos m) = false ->
      lo4 m e * 2 ^ (e - 2) < Zpos p * 10 ^ q < hi4 m * 2 ^ (e - 2)).
Proof.
  intros He Hq. unfold digits_at, pos_part, neg_part, mid_included.
  rewrite (Z.max_l (e - 2) 0), (Z.max_r (- q) 0), (Z.max_l q 0),
    (Z.max_r (- (e - 2)) 0) by lia.
  change (10 ^ 0) with 1. change (2 ^ 0) with 1. rewrite !Z.mul_1_r.
  pose proof (lo4_bounds m e) as Hlo.
  assert (HS : 0 < 2 ^ (e - 2)) by (apply pow2_pos; lia).
  pose proof (pow10_pos q Hq) as Hu.
  set (S := 2 ^ (e - 2)) in *. set (u := 10 ^ q) in *.
  set (A := lo4 m e * S). set (B := hi4 m * S).
  assert (HA : 0 < A) by (unfold A; nia).
  set (s_min := if Z.even (Zpos m) then (A + u - 1) / u else A / u + 1).
  set (s_max := if Z.even (Zpos m) then B / u else (B + u - 1) / u - 1).
  destruct (Z.leb_spec s_min s_max) as [Hle | _]; [| discriminate].
  set (f := 4 * Zpos m * S / u).
  set (c := if 2 * (4 * Zpos m * S - f * u) <? u then f
            else if u <? 2 * (4 * Zpos m * S - f * u) then f + 1
            else if Z.even f then f else f + 1).
  intros [= <-].
  set (t := Z.max s_min (Z.min s_max c)).
  assert (Ht : s_min <= t <= s_max) by (unfold t; lia).
  assert (Hmin1 : 1 <= s_min).
  { unfold s_min. destruct (Z.even (Zpos m)).
    - apply Z.div_le_lower_bound; lia.
    - pose proof (Z.div_pos A u ltac:(lia) Hu). lia. }
  rewrite Z2Pos.id by lia.
  assert (HminA : A <= s_min * u /\ (Z.even (Zpos m) = false -> A < s_min * u)).
  { unfold s_min. destruct (Z.even (Zpos m)).
    - split; [| discriminate].
      pose proof (floor_mul_gt (A + u - 1) u Hu).
      pose proof (floor_mul_le (A + u - 1) u Hu). nia.
    - pose proof (floor_mul_gt A u Hu). split; [lia | intros _; lia]. }
  assert (HmaxB : s_max * u <= B /\ (Z.even (Zpos m) = false -> s_max * u < B)).
  { unfold s_max. destruct (Z.even (Zpos m)).
    - split; [| discriminate]. apply floor_mul_le. exact Hu.
    - pose proof (floor_mul_le (B + u - 1) u Hu).
      split; [nia | intros _; nia]. }
  destruct HminA as [HA1 HA2]. destruct HmaxB as [HB1 HB2].
  assert (H1 : s_min * u <= t * u) by (apply Z.mul_le_mono_nonneg_r; lia).
  assert (H2 : t * u <= s_max * u) by (apply Z.mul_le_mono_nonneg_r; lia).
  split; [lia |]. intros Hodd. specialize (HA2 Hodd). specialize (HB2 Hodd).
  lia.
Qed.

(** Where a power of ten is at most a quarter of the last bit, some
    multiple of it rounds to the double. *)
Lemma digits_at_exists (m : positive) (e q : Z) :
  2 <= e -> 0 <= q -> 10 ^ q <= 2 ^ (e - 2) -> digits_at m e q <> None.
Proof.
  intros He Hq Hsmall. unfold digits_at, pos_part, neg_part, mid_included.
  rewrite (Z.max_l (e - 2) 0), (Z.max_r (- q) 0), (Z.max_l q 0),
    (Z.max_r (- (e - 2)) 0) by lia.
  change (10 ^ 0) with 1. change (2 ^ 0) with 1. rewrite !Z.mul_1_r.
  pose proof (lo4_bounds m e) as Hlo.
  assert (HS : 0 < 2 ^ (e - 2)) by (apply pow2_pos; lia).
  pose proof (pow10_pos q Hq) as Hu.
  set (S := 2 ^ (e - 2)) in *. set (u := 10 ^ q) in *.
  set (A := lo4 m e * S). set (B := hi4 m * S).
  assert (HAB : A + 3 * u <= B) by (unfold A, B, hi4; nia).
  set (s_min := if Z.even (Zpos m) then (A + u - 1) / u else A / u + 1).
  set (s_max := if Z.even (Zpos m) then B / u else (B + u - 1) / u - 1).
  assert (Hle : s_min <= s_max).
  { assert (H1 : s_min <= A / u + 1).
    { unfold s_min. destruct (Z.even (Zpos m)); [| lia].
      replace (A + u - 1) with (A - 1 + 1 * u) by ring.
      rewrite Z.div_add by lia.
      pose proof (Z.div_le_mono (A - 1) A u Hu ltac:(lia)). lia. }
    assert (H2 : A / u + 2 <= s_max).
    { assert (A / u + 3 <= B / u).
      { replace (A / u + 3) with ((A + 3 * u) / u)
          by (rewrite Z.div_add by lia; reflexivity).
        apply Z.div_le_mono; lia. }
      unfold s_max. destruct (Z.even (Zpos m)); [lia |].
      pose proof (Z.div_le_mono B (B + u - 1) u Hu ltac:(lia)). lia. }
    lia. }
  destruct (Z.leb_spec s_min s_max) as [_ | Hgt]; [discriminate | lia].
Qed.

(** The search stops at the first power of ten that admits digits. *)
Lemma shortest_from_finds (m : positive) (e : Z) (fuel : nat) (q q0 : Z) :
  q0 <= q -> q - q0 < Z.of_nat fuel -> digits_at m e q0 <> None ->
  exists p q', shortest_from m e fuel q = (p, q')
               /\ digits_at m e q' = Some p /\ q0 <= q' <= q.
Proof.
  revert q. induction fuel as [| fuel IH]; intros q Hq Hf Hsome; [lia |].
  cbn [shortest_from]. destruct (digits_at m e q) as [p |] eqn:E.
  - exists p, q. repeat split; [exact E | lia | lia].
  - assert (q0 <> q) by (intros ->; now apply Hsome).
    destruct (IH (q - 1) ltac:(lia) ltac:(lia) Hsome) as (p & q' & H1 & H2 & H3).
    exists p, q'. repeat split; [exact H1 | exact H2 | lia | lia].
Qed.

(** From [10^21] on, twenty places below where the search starts a
    power of ten is at most a quarter of the last bit. *)
Lemma q_start_table :
  forallb (fun k : nat =>
             let e := Z.of_nat k in
             let qs := (53 + e) * 30103 / 100000 + 1 in
             (20 <=? qs) && (10 ^ (qs - 20) <=? 2 ^ (e - 2)))
          (seq 17 955) = true.
Proof. vm_compute. reflexivity. Qed.

Lemma q_start_room (m : positive) (e : Z) :
  Zpos (digits2_pos m) = 53 -> 17 <= e <= 971 ->
  20 <= q_start m e /\ 10 ^ (q_start m e - 20) <= 2 ^ (e - 2).
Proof.
  intros Hd He. unfold q_start. rewrite Hd. cbv zeta.
  destruct (Z.leb_spec 0 (53 + e)) as [_ | H]; [| lia].
  pose proof q_start_table as Ht. rewrite forallb_forall in Ht.
  specialize (Ht (Z.to_nat e)).
  rewrite Z2Nat.id in Ht by lia.
  assert (Hin : In (Z.to_nat e) (seq 17 955)) by (apply in_seq; lia).
  specialize (Ht Hin). cbv zeta in Ht.
  apply andb_true_iff in Ht. destruct Ht as [H1 H2].
  apply Z.leb_le in H1. apply Z.leb_le in H2. split; assumption.
Qed.

(** The digits of a double from [10^21] on: found by the search, with
    a power of ten that is not negative, and written between the two
    midpoints. *)
Lemma shortest_large (m : positive) (e : Z) :
  Zpos (digits2_pos m) = 53 -> 17 <= e <= 971 ->
  exists p q,
    shortest m e = (p, q) /\ 0 <= q
    /\ lo4 m e * 2 ^ (e - 2) <= Zpos p * 10 ^ q <= hi4 m * 2 ^ (e - 2)
    /\ (Z.even (Zpos m) = false ->
        lo4 m e * 2 ^ (e - 2) < Zpos p * 10 ^ q < hi4 m * 2 ^ (e - 2)).
Proof.
  intros Hd He. destruct (q_start_room m e Hd He) as [H20 Hroom].
  assert (Hsome : digits_at m e (q_start m e - 20) <> None)
    by (apply digits_at_exists; lia).
  destruct (shortest_from_finds m e 64 (q_start m e) (q_start m e - 20)
              ltac:(lia) ltac:(lia) Hsome) as (p & q & Hs & Hat & Hq).
  exists p, q. split; [exact Hs |]. split; [lia |].
  apply digits_at_bounds; [lia | lia | exact Hat].
Qed.

End ShortestFacts.

(** ** The digits that [toFixed(6)] prints *)

Module PrintFacts.

Import JSNumber JSON StringFacts NumberTerms Rounding RoundingFacts.
Import OrderTerms OrderFacts SignTerms SignFacts QuoteTerms QuoteFacts.
Import PrintTerms ReadFacts ShortestFacts.
Local Open Scope Z_scope.

(** *** The order of decimals, in millionths *)

Lemma units_millionths (s : bool) (n : N) (e10 e : Z) :
  -6 <= e -> e <= e10 ->
  units s n e10 (-6) = units s n e10 e * 10 ^ (e + 6).
Proof.
  intros He Hle. unfold units. rewrite <- Z.mul_assoc. f_equal.
  rewrite <- Z.pow_add_r by lia. f_equal. lia.
Qed.

Lemma le_millionths (s1 s2 : bool) (n1 n2 : N) (e1 e2 : Z) :
  -6 <= e1 -> -6 <= e2 ->
  (le (Digits s1 n1 e1) (Digits s2 n2 e2)
   <-> units s1 n1 e1 (-6) <= units s2 n2 e2 (-6)).
Proof.
  intros H1 H2. cbn [le]. set (e := Z.min e1 e2).
  rewrite (units_millionths s1 n1 e1 e), (units_millionths s2 n2 e2 e)
    by (unfold e; lia).
  assert (0 < 10 ^ (e + 6)) by (apply pow10_pos; unfold e; lia).
  split; intros H'; [apply Z.mul_le_mono_nonneg_r; lia |].
  apply Z.mul_le_mono_pos_r in H'; assumption.
Qed.

Lemma lt_millionths (s1 s2 : bool) (n1 n2 : N) (e1 e2 : Z) :
  -6 <= e1 -> -6 <= e2 ->
  (lt (Digits s1 n1 e1) (Digits s2 n2 e2)
   <-> units s1 n1 e1 (-6) < units s2 n2 e2 (-6)).
Proof.
  intros H1 H2. cbn [lt]. set (e := Z.min e1 e2).
  rewrite (units_millionths s1 n1 e1 e), (units_millionths s2 n2 e2 e)
    by (unfold e; lia).
  assert (0 < 10 ^ (e + 6)) by (apply pow10_pos; unfold e; lia).
  split; intros H'; [apply Z.mul_lt_mono_pos_r; lia |].
  apply Z.mul_lt_mono_pos_r in H'; assumption.
Qed.

(** *** Six decimals *)

Lemma fixed_of_ord_gap (o1 o2 : Z) :
  0 <= o1 -> 2 ^ 1074 <= 10 ^ 6 * (o2 - o1) ->
  Z.of_N (fixed_of_ord o1 6) + 1 <= Z.of_N (fixed_of_ord o2 6).
Proof.
  intros H1 Hgap. unfold fixed_of_ord.
  change (Z.of_nat 6) with 6.
  assert (HP : 0 < 2 ^ 1075) by (apply pow2_pos; lia).
  assert (HQ : 0 < 2 ^ 1074) by (apply pow2_pos; lia).
  assert (H2 : 2 ^ 1075 = 2 * 2 ^ 1074) by reflexivity.
  assert (HT : 0 < 10 ^ 6) by reflexivity.
  set (T := 10 ^ 6) in *. set (P := 2 ^ 1074) in *. set (Q := 2 ^ 1075) in *.
  assert (Hn1 : 0 <= (2 * T * o1 + P) / Q) by (apply Z.div_pos; nia).
  assert (Hstep : (2 * T * o1 + P) / Q + 1 <= (2 * T * o2 + P) / Q).
  { replace ((2 * T * o1 + P) / Q + 1) with ((2 * T * o1 + P + 1 * Q) / Q)
      by (rewrite Z.div_add by lia; reflexivity).
    apply Z.div_le_mono; [assumption |]. nia. }
  rewrite !Z2N.id by lia. exact Hstep.
Qed.

Lemma fixed_of_ord_half (o : Z) :
  0 <= o -> 2 ^ 1074 <= 2 * 10 ^ 6 * o -> 1 <= Z.of_N (fixed_of_ord o 6).
Proof.
  intros Ho Hhalf. unfold fixed_of_ord. change (Z.of_nat 6) with 6.
  assert (HP : 0 < 2 ^ 1075) by (apply pow2_pos; lia).
  assert (H2 : 2 ^ 1075 = 2 * 2 ^ 1074) by reflexivity.
  set (T := 10 ^ 6) in *. set (P := 2 ^ 1074) in *. set (Q := 2 ^ 1075) in *.
  assert (1 <= (2 * T * o + P) / Q)
    by (apply Z.div_le_lower_bound; lia).
  rewrite Z2N.id by lia. assumption.
Qed.

(** *** The double [10^21] *)

Lemma ten_pow_21_parts :
  Prim2SF ten_pow_21 = S754_finite false 7629394531250000 17.
Proof. vm_compute. reflexivity. Qed.

Lemma ten_pow_21_value :
  ord (Prim2SF ten_pow_21) = 7629394531250000 * 2 ^ 1091.
Proof. rewrite ten_pow_21_parts. reflexivity. Qed.

(** A double from [10^21] on is normal, with an exponent of 17 or more. *)
Lemma large_parts (s : bool) (m : positive) (e : Z) :
  valid (S754_finite s m e) ->
  ord (Prim2SF ten_pow_21) <= ord (S754_finite s m e) ->
  Zpos (digits2_pos m) = 53 /\ 17 <= e <= 971.
Proof.
  intros Hv Hlarge. rewrite ten_pow_21_value in Hlarge.
  destruct (valid_finite s m e Hv) as ([He0 He1] & Hd & Hn).
  destruct (valid_ord s m e Hv) as (_ & Hm & _).
  cbn [ord] in Hlarge.
  destruct (Z.le_gt_cases 17 e) as [H17 | H16].
  - split; [apply Hn; lia | lia].
  - exfalso.
    assert (Hp : 2 ^ (e + 1074) <= 2 ^ 1090) by (apply pow2_le; lia).
    assert (HU : 2 ^ 1091 = 2 * 2 ^ 1090) by reflexivity.
    assert (H0 : 0 < 2 ^ (e + 1074)) by (apply pow2_pos; lia).
    change (2 ^ 53) with 9007199254740992 in Hm.
    set (a := 2 ^ (e + 1074)) in *. set (b := 2 ^ 1090) in *.
    set (c := 2 ^ 1091) in *. clearbody a b c. nia.
Qed.

(** Below [10^21] a double is at most the double before it. *)
Lemma below_large (f : spec_float) :
  valid f -> ord f < ord (Prim2SF ten_pow_21) ->
  ord f <= 7629394531249999 * 2 ^ 1091.
Proof.
  intros Hv Hlt. rewrite ten_pow_21_value in Hlt.
  assert (HU : 0 < 2 ^ 1091) by (apply pow2_pos; lia).
  destruct f as [s | s | | s m e]; cbn [ord] in *; try nia.
  - exfalso. unfold top in Hlt.
    assert (2 ^ 2098 = 2 ^ 1007 * 2 ^ 1091) by (rewrite <- pow2_add by lia; reflexivity).
    assert (2 ^ 53 <= 2 ^ 1007) by (apply pow2_le; lia).
    change (2 ^ 53) with 9007199254740992 in *.
    set (a := 2 ^ 1007) in *. set (c := 2 ^ 1091) in *.
    set (t := 2 ^ 2098) in *. clearbody a c t. nia.
  - destruct (valid_finite s m e Hv) as ([He0 He1] & _).
    destruct (valid_ord s m e Hv) as (_ & Hm & _).
    change (2 ^ 53) with 9007199254740992 in Hm.
    destruct (Z.le_gt_cases 17 e) as [H17 | H16].
    + assert (Hp : 2 ^ (e + 1074) = 2 ^ (e - 17) * 2 ^ 1091)
        by (rewrite <- pow2_add by lia; f_equal; lia).
      assert (H0 : 0 < 2 ^ (e - 17)) by (apply pow2_pos; lia).
      rewrite Hp in *.
      set (a := 2 ^ (e - 17)) in *. set (c := 2 ^ 1091) in *.
      clearbody a c.
      assert (Zpos m * a < 7629394531250000) by nia.
      nia.
    + assert (Hp : 2 ^ (e + 1074) <= 2 ^ 1090) by (apply pow2_le; lia).
      assert (HU2 : 2 ^ 1091 = 2 * 2 ^ 1090) by reflexivity.
      assert (H0 : 0 < 2 ^ (e + 1074)) by (apply pow2_pos; lia).
      set (a := 2 ^ (e + 1074)) in *. set (b := 2 ^ 1090) in *.
      set (c := 2 ^ 1091) in *. clearbody a b c. nia.
Qed.

Lemma last_fixed :
  Z.of_N (fixed_of_ord (7629394531249999 * 2 ^ 1091) 6) < 10 ^ 27.
Proof. vm_compute. reflexivity. Qed.

(** Below [10^21] the millionths that are printed are fewer than
    [10^27]. *)
Lemma fixed_below (f : spec_float) :
  valid f -> ord f < ord (Prim2SF ten_pow_21) ->
  Z.of_N (fixed_of_ord (ord f) 6) < 10 ^ 27.
Proof.
  intros Hv Hlt. pose proof (below_large f Hv Hlt) as Hle.
  pose proof (fixed_of_ord_mono _ _ 6 (ord_nonneg f) Hle) as Hm.
  pose proof last_fixed. lia.
Qed.

(** *** The shortest digits, from [10^21] on *)

(** Two doubles that are not negative and have the same value are the
    same double. *)
Lemma ord_inj (m1 m2 : positive) (e1 e2 : Z) :
  valid (S754_finite false m1 e1) -> valid (S754_finite false m2 e2) ->
  ord (S754_finite false m1 e1) = ord (S754_finite false m2 e2) ->
  m1 = m2 /\ e1 = e2.
Proof.
  intros V1 V2 Ho.
  pose proof (SFcompare_ord _ _ V1 V2 eq_refl eq_refl) as Hc.
  rewrite Ho, Z.compare_refl in Hc. cbn [SFcompare] in Hc.
  destruct (e1 ?= e2) eqn:He; try discriminate.
  apply Z.compare_eq in He.
  injection Hc as Hc. apply Pos.compare_eq in Hc. now split.
Qed.

Lemma lo4_normal (m : positive) (e : Z) :
  2 ^ 52 <= Zpos m -> -1074 < e ->
  2 ^ 54 - 1 <= lo4 m e
  /\ (Zpos m <> 2 ^ 52 -> lo4 m e = 4 * Zpos m - 2).
Proof.
  intros Hm He. unfold lo4.
  destruct (Pos.eqb_spec m 4503599627370496) as [-> | Hne].
  - destruct (Z.ltb_spec (-1074) e); [| lia]. cbn [andb].
    split; [reflexivity |]. intros Hx. now elim Hx.
  - cbn [andb]. change (2 ^ 52) with 4503599627370496 in *.
    change (2 ^ 54) with 18014398509481984.
    assert (Zpos m <> 4503599627370496) by (intros E; apply Hne; lia).
    split; [lia | reflexivity].
Qed.

(** The upper midpoint of a double is at most the lower midpoint of a
    larger one, and below it when both doubles are even. *)
Lemma midpoints_ordered (m1 m2 : positive) (e1 e2 : Z) :
  2 ^ 52 <= Zpos m1 < 2 ^ 53 -> 2 ^ 52 <= Zpos m2 < 2 ^ 53 ->
  2 <= e1 -> 2 <= e2 ->
  Zpos m1 * 2 ^ (e1 + 1074) < Zpos m2 * 2 ^ (e2 + 1074) ->
  hi4 m1 * 2 ^ (e1 - 2) <= lo4 m2 e2 * 2 ^ (e2 - 2)
  /\ (Z.even (Zpos m1) = true -> Z.even (Zpos m2) = true ->
      hi4 m1 * 2 ^ (e1 - 2) < lo4 m2 e2 * 2 ^ (e2 - 2)).
Proof.
  intros H1 H2 E1 E2 Hlt.
  destruct (lo4_normal m2 e2 ltac:(lia) ltac:(lia)) as [Hlo Hlo'].
  unfold hi4.
  change (2 ^ 52) with 4503599627370496 in *.
  change (2 ^ 53) with 9007199254740992 in *.
  change (2 ^ 54) with 18014398509481984 in *.
  assert (P1 : 0 < 2 ^ (e1 - 2)) by (apply pow2_pos; lia).
  assert (P2 : 0 < 2 ^ (e2 - 2)) by (apply pow2_pos; lia).
  destruct (Z.lt_trichotomy e1 e2) as [Hlt12 | [-> | Hgt12]].
  - (* the second double lies in a higher binade *)
    assert (Hp : 2 ^ (e2 - 2) = 2 ^ (e2 - e1) * 2 ^ (e1 - 2))
      by (rewrite <- pow2_add by lia; f_equal; lia).
    assert (Hd : 2 <= 2 ^ (e2 - e1))
      by (change 2 with (2 ^ 1) at 1; apply pow2_le; lia).
    rewrite Hp. clear Hlt Hp.
    set (S := 2 ^ (e1 - 2)) in *. set (d := 2 ^ (e2 - e1)) in *.
    clearbody S d.
    assert (Ha : (4 * Zpos m1 + 2) * S <= 18014398509481983 * 2 * S)
      by (apply Z.mul_le_mono_nonneg_r; lia).
    assert (Hb : 18014398509481983 * 2 * S <= lo4 m2 e2 * (d * S)).
    { replace (lo4 m2 e2 * (d * S)) with (lo4 m2 e2 * d * S) by ring.
      apply Z.mul_le_mono_nonneg_r; [lia |].
      apply Z.mul_le_mono_nonneg; lia. }
    split; [lia |]. intros Hev _.
    apply Z.even_spec in Hev. destruct Hev as [k Hk].
    assert ((4 * Zpos m1 + 2) * S < 18014398509481983 * 2 * S)
      by (apply Z.mul_lt_mono_pos_r; lia).
    lia.
  - (* the same binade *)
    assert (Hm : Zpos m1 < Zpos m2).
    { apply Z.mul_lt_mono_pos_r with (2 ^ (e2 + 1074));
        [apply pow2_pos; lia | exact Hlt]. }
    rewrite Hlo' by lia. clear Hlt.
    set (S := 2 ^ (e2 - 2)) in *. clearbody S.
    split; [apply Z.mul_le_mono_nonneg_r; lia |]. intros Hev1 Hev2.
    apply Z.even_spec in Hev1. destruct Hev1 as [k1 Hk1].
    apply Z.even_spec in Hev2. destruct Hev2 as [k2 Hk2].
    apply Z.mul_lt_mono_pos_r; lia.
  - (* cannot be *)
    exfalso.
    assert (Hp : 2 ^ (e1 + 1074) = 2 ^ (e1 - e2) * 2 ^ (e2 + 1074))
      by (rewrite <- pow2_add by lia; f_equal; lia).
    assert (Hd : 2 <= 2 ^ (e1 - e2))
      by (change 2 with (2 ^ 1) at 1; apply pow2_le; lia).
    assert (P : 0 < 2 ^ (e2 + 1074)) by (apply pow2_pos; lia).
    rewrite Hp in Hlt.
    set (S := 2 ^ (e2 + 1074)) in *. set (d := 2 ^ (e1 - e2)) in *.
    clearbody S d. nia.
Qed.

Lemma first_large : shortest 7629394531250000 17 = (1%positive, 21).
Proof. vm_compute. reflexivity. Qed.

(** What is shown for a double from [10^21] on. *)
Lemma shown_large (m : positive) (e : Z) :
  valid (S754_finite false m e) ->
  ord (Prim2SF ten_pow_21) <= ord (S754_finite false m e) ->
  exists p q,
    shortest m e = (p, q) /\ 0 <= q
    /\ 10 ^ 21 <= Zpos p * 10 ^ q
    /\ lo4 m e * 2 ^ (e - 2) <= Zpos p * 10 ^ q <= hi4 m * 2 ^ (e - 2)
    /\ (Z.even (Zpos m) = false ->
        lo4 m e * 2 ^ (e - 2) < Zpos p * 10 ^ q < hi4 m * 2 ^ (e - 2)).
Proof.
  intros Hv Hlarge.
  destruct (large_parts _ m e Hv Hlarge) as [Hd He].
  destruct (shortest_large m e Hd He) as (p & q & Hs & Hq & Hb & Hodd).
  exists p, q. split; [exact Hs |]. split; [exact Hq |].
  split; [| split; assumption].
  destruct (Z.le_gt_cases (ord (S754_finite false m e))
              (ord (Prim2SF ten_pow_21))) as [Hle | Hgt].
  - (* the double 10^21 itself *)
    assert (Heq : ord (S754_finite false 7629394531250000 17)
                  = ord (S754_finite false m e))
      by (rewrite <- ten_pow_21_parts; lia).
    assert (V21 : valid (S754_finite false 7629394531250000 17))
      by (rewrite <- ten_pow_21_parts; apply number_valid).
    destruct (ord_inj _ _ _ _ V21 Hv Heq) as [<- <-].
    rewrite first_large in Hs. injection Hs as <- <-. reflexivity.
  - (* a larger one: its lower midpoint is above 10^21 *)
    destruct (valid_ord _ m e Hv) as (_ & Hm & Hn).
    rewrite ten_pow_21_value in Hgt. cbn [ord] in Hgt.
    change (2 ^ 1091) with (2 ^ (17 + 1074)) in Hgt.
    assert (H21m : 2 ^ 52 <= 7629394531250000 < 2 ^ 53)
      by (split; [vm_compute; discriminate | reflexivity]).
    assert (Hmn : 2 ^ 52 <= Zpos m < 2 ^ 53)
      by (split; [apply Hn; lia | exact Hm]).
    destruct (midpoints_ordered 7629394531250000 m 17 e H21m Hmn
                ltac:(lia) ltac:(lia) Hgt) as [Hmid _].
    assert (H21 : 10 ^ 21 <= hi4 7629394531250000 * 2 ^ (17 - 2))
      by (vm_compute; discriminate).
    lia.
Qed.

(** Larger doubles from [10^21] on show larger numbers. *)
Lemma large_order (m1 m2 : positive) (e1 e2 : Z) (p1 p2 : positive)
  (q1 q2 : Z) :
  valid (S754_finite false m1 e1) -> valid (S754_finite false m2 e2) ->
  ord (Prim2SF ten_pow_21) <= ord (S754_finite false m1 e1) ->
  ord (S754_finite false m1 e1) < ord (S754_finite false m2 e2) ->
  shortest m1 e1 = (p1, q1) -> shortest m2 e2 = (p2, q2) ->
  Zpos p1 * 10 ^ q1 < Zpos p2 * 10 ^ q2.
Proof.
  intros V1 V2 L1 Hlt S1 S2.
  destruct (shown_large m1 e1 V1 L1) as (p & q & Hs & _ & _ & [_ Hhi] & Ho1).
  rewrite S1 in Hs. injection Hs as <- <-.
  destruct (shown_large m2 e2 V2 ltac:(lia))
    as (p & q & Hs & _ & _ & [Hlo _] & Ho2).
  rewrite S2 in Hs. injection Hs as <- <-.
  destruct (large_parts _ m1 e1 V1 L1) as [_ He1].
  destruct (large_parts _ m2 e2 V2 ltac:(lia)) as [_ He2].
  destruct (valid_ord _ m1 e1 V1) as (_ & Hm1 & Hn1).
  destruct (valid_ord _ m2 e2 V2) as (_ & Hm2 & Hn2).
  assert (B1 : 2 ^ 52 <= Zpos m1 < 2 ^ 53)
    by (split; [apply Hn1; lia | exact Hm1]).
  assert (B2 : 2 ^ 52 <= Zpos m2 < 2 ^ 53)
    by (split; [apply Hn2; lia | exact Hm2]).
  destruct (midpoints_ordered m1 m2 e1 e2 B1 B2 ltac:(lia) ltac:(lia) Hlt)
    as [Hmid Hstrict].
  destruct (Z.even (Zpos m1)) eqn:E1; [| specialize (Ho1 eq_refl); lia].
  destruct (Z.even (Zpos m2)) eqn:E2; [| specialize (Ho2 eq_refl); lia].
  specialize (Hstrict eq_refl eq_refl). lia.
Qed.

(** *** What [toFixed(6)] prints is what [shown] says *)

Lemma digit_small (c : ascii) (d : N) :
  digit_of_ascii c = Some d -> (d <= 9)%N.
Proof.
  unfold digit_of_ascii. cbv zeta.
  destruct ((48 <=? N_of_ascii c)%N && (N_of_ascii c <=? 57)%N) eqn:E;
    [| discriminate].
  intros [= <-]. apply andb_true_iff in E. destruct E as [_ E].
  apply N.leb_le in E. lia.
Qed.

Lemma digits_value_bound (s : string) (acc : N) :
  Z.of_N (digits_value s acc)
  < (Z.of_N acc + 1) * 10 ^ Z.of_nat (String.length s).
Proof.
  revert acc. induction s as [| c r IH]; intros acc.
  - cbn [digits_value String.length]. change (10 ^ Z.of_nat 0) with 1. lia.
  - cbn [digits_value String.length].
    rewrite Nat2Z.inj_succ, Z.pow_succ_r by lia.
    pose proof (pow10_pos (Z.of_nat (String.length r)) ltac:(lia)) as HT.
    destruct (digit_of_ascii c) as [d |] eqn:E.
    + specialize (IH (acc * 10 + d)%N). apply digit_small in E.
      eapply Z.lt_le_trans; [exact IH |].
      rewrite N2Z.inj_add, N2Z.inj_mul. change (Z.of_N 10) with 10. nia.
    + specialize (IH acc). nia.
Qed.

Lemma digits_of_pos_bound (p : positive) :
  Zpos p < 10 ^ Z.of_nat (String.length (digits_of_pos p)).
Proof.
  pose proof (digits_value_bound (digits_of_pos p) 0) as H.
  rewrite digits_of_pos_value in H. cbn [Z.of_N] in H. lia.
Qed.

(** A number from [10^21] on is written with an exponent. *)
Lemma large_length (p : positive) (q : Z) :
  0 <= q -> 10 ^ 21 <= Zpos p * 10 ^ q ->
  22 <= Z.of_nat (String.length (digits_of_pos p)) + q.
Proof.
  intros Hq Hlarge. pose proof (digits_of_pos_bound p) as Hp.
  set (k := Z.of_nat (String.length (digits_of_pos p))) in *.
  assert (Hk : 0 <= k) by (unfold k; lia).
  pose proof (pow10_pos q Hq) as HQ.
  assert (Hlt : 10 ^ 21 < 10 ^ (k + q)).
  { rewrite Z.pow_add_r by lia. nia. }
  apply Z.pow_lt_mono_r_iff in Hlt; lia.
Qed.

Lemma valid_sign (s s' : bool) (m : positive) (e : Z) :
  valid (S754_finite s m e) -> valid (S754_finite s' m e).
Proof. exact (fun H => H). Qed.

Lemma abs_is_small (s : bool) (m : positive) (e : Z) :
  valid (S754_finite s m e) ->
  SFltb (SFabs (S754_finite s m e)) (Prim2SF ten_pow_21)
  = (ord (S754_finite s m e) <? ord (Prim2SF ten_pow_21)).
Proof.
  intros Hv. unfold SFltb. cbn [SFabs].
  rewrite (SFcompare_ord (S754_finite false m e) (Prim2SF ten_pow_21)
             (valid_sign s false m e Hv) (number_valid _) eq_refl
             (proj1 ten_pow_21_ord)).
  change (ord (S754_finite false m e)) with (ord (S754_finite s m e)).
  unfold Z.ltb. destruct (_ ?= _); reflexivity.
Qed.

Lemma read_toFixed (z : number) : read (toFixed z 6) = shown (Prim2SF z).
Proof.
  unfold toFixed, toString. pose proof (number_valid z) as Hv.
  rewrite ltb_spec, abs_spec.
  destruct (Prim2SF z) as [s | s | | s m e] eqn:E.
  - exact (read_fixed false 0).
  - destruct s; reflexivity.
  - reflexivity.
  - rewrite (abs_is_small s m e Hv). cbn [shown].
    destruct (ord (S754_finite s m e) <? ord (Prim2SF ten_pow_21)) eqn:L.
    + apply read_fixed.
    + apply Z.ltb_ge in L.
      destruct (shown_large m e (valid_sign s false m e Hv) L)
        as (p & q & Hs & Hq & H21 & _).
      unfold toString_finite. rewrite Hs.
      pose proof (read_exponent_form s p q (large_length p q Hq H21)) as R.
      destruct s; exact R.
Qed.

End PrintFacts.

(** ** The order of what [toFixed(6)] prints *)

Module ShownFacts.

Import JSNumber NumberTerms Rounding RoundingFacts OrderTerms QuoteFacts
  OrderFacts SignTerms SignFacts PrintTerms ReadFacts ShortestFacts PrintFacts.
Local Open Scope Z_scope.

(** *** The millionths that are shown grow with the double *)

Lemma shown_small (f : spec_float) :
  valid f -> nonneg f -> ord f < ord (Prim2SF ten_pow_21) ->
  shown f = Some (Digits false (fixed_of_ord (ord f) 6) (-6)).
Proof.
  intros Hv Nf Hlt. pose proof (proj2 ten_pow_21_ord) as Htop.
  destruct f as [s | s | | s m e]; cbn [nonneg] in Nf.
  - cbn [shown ord]. now rewrite fixed_of_ord_zero.
  - cbn [ord] in Hlt. lia.
  - contradiction.
  - subst s. cbn [shown]. apply Z.ltb_lt in Hlt. rewrite Hlt.
    destruct (valid_finite false m e Hv) as ([He _] & _).
    now rewrite fixed_int_ord.
Qed.

Lemma millionths_small (f : spec_float) :
  valid f -> nonneg f -> ord f < ord (Prim2SF ten_pow_21) ->
  shown_millionths f = Z.of_N (fixed_of_ord (ord f) 6).
Proof.
  intros Hv Nf Hlt. unfold shown_millionths.
  rewrite (shown_small f Hv Nf Hlt). cbn [millionths]. unfold units.
  change (-6 - -6) with 0. change (10 ^ 0) with 1. lia.
Qed.

Lemma millionths_large (s : bool) (m : positive) (e : Z) (p : positive)
  (q : Z) :
  ord (Prim2SF ten_pow_21) <= ord (S754_finite s m e) ->
  shortest m e = (p, q) -> 0 <= q ->
  shown (S754_finite s m e) = Some (Digits s (Npos p) q)
  /\ shown_millionths (S754_finite false m e) = Zpos p * 10 ^ q * 10 ^ 6.
Proof.
  intros Hlarge Hs Hq. unfold shown_millionths. cbn [shown].
  change (ord (S754_finite false m e)) with (ord (S754_finite s m e)).
  apply Z.ltb_ge in Hlarge. rewrite Hlarge, Hs. split; [reflexivity |].
  cbn [millionths]. unfold units. cbn [Z.of_N].
  replace (q - -6) with (q + 6) by lia.
  rewrite Z.pow_add_r by lia. lia.
Qed.

Lemma millionths_sign (m : positive) (e : Z) :
  shown_millionths (S754_finite true m e)
  = - shown_millionths (S754_finite false m e).
Proof.
  unfold shown_millionths. cbn [shown].
  change (ord (S754_finite true m e)) with (ord (S754_finite false m e)).
  destruct (ord (S754_finite false m e) <? ord (Prim2SF ten_pow_21)).
  - cbn [millionths]. unfold units. lia.
  - destruct (shortest m e) as [p q]. cbn [millionths]. unfold units. lia.
Qed.

Lemma millionths_nonneg (f : spec_float) :
  nonneg f -> 0 <= shown_millionths f.
Proof.
  intros Nf. unfold shown_millionths.
  destruct f as [s | s | | s m e]; cbn [nonneg] in Nf; cbn [shown millionths];
    try lia; try contradiction.
  - unfold units. cbn. lia.
  - subst s.
    destruct (ord (S754_finite false m e) <? ord (Prim2SF ten_pow_21)).
    + cbn [millionths]. unfold units.
      apply Z.mul_nonneg_nonneg; [lia | apply Z.pow_nonneg; lia].
    + destruct (shortest m e) as [p q]. cbn [millionths]. unfold units.
      apply Z.mul_nonneg_nonneg; [lia | apply Z.pow_nonneg; lia].
Qed.

(** A double from [10^21] on is a finite one or the infinity. *)
Lemma large_is_finite (f : spec_float) :
  nonneg f -> ord f < top -> ord (Prim2SF ten_pow_21) <= ord f ->
  exists m e, f = S754_finite false m e.
Proof.
  intros Nf Hf Hlarge. rewrite ten_pow_21_value in Hlarge.
  destruct f as [s | s | | s m e]; cbn [nonneg] in Nf.
  - exfalso. cbn [ord] in Hlarge. clear Hf.
    assert (H : 0 < 2 ^ 1091) by (apply pow2_pos; lia).
    remember (2 ^ 1091) as P eqn:EP. clear EP. lia.
  - exfalso. cbn [ord] in Hf. clear Hlarge. lia.
  - exfalso. exact Nf.
  - subst s. eauto.
Qed.

Lemma millionths_above (m : positive) (e : Z) :
  valid (S754_finite false m e) ->
  ord (Prim2SF ten_pow_21) <= ord (S754_finite false m e) ->
  10 ^ 27 <= shown_millionths (S754_finite false m e).
Proof.
  intros Hv Hlarge.
  destruct (shown_large m e Hv Hlarge) as (p & q & Hs & Hq & H21 & _).
  destruct (millionths_large false m e p q Hlarge Hs Hq) as [_ ->].
  change (10 ^ 27) with (10 ^ 21 * 10 ^ 6). lia.
Qed.

Lemma millionths_nonneg_order (f1 f2 : spec_float) :
  valid f1 -> valid f2 -> nonneg f1 -> nonneg f2 -> ord f2 < top ->
  ord f1 <= ord f2 ->
  shown_millionths f1 <= shown_millionths f2
  /\ (2 ^ 1074 <= 10 ^ 6 * (ord f2 - ord f1) ->
      shown_millionths f1 < shown_millionths f2).
Proof.
  intros V1 V2 N1 N2 F2 Hle.
  destruct (Z.lt_ge_cases (ord f2) (ord (Prim2SF ten_pow_21))) as [S2 | L2].
  - (* both are printed with six decimals *)
    rewrite (millionths_small f1 V1 N1 ltac:(lia)).
    rewrite (millionths_small f2 V2 N2 S2). split.
    + pose proof (fixed_of_ord_mono _ _ 6 (ord_nonneg f1) Hle). lia.
    + intros Hgap.
      pose proof (fixed_of_ord_gap _ _ (ord_nonneg f1) Hgap). lia.
  - destruct (large_is_finite f2 N2 F2 L2) as (m2 & e2 & ->).
    pose proof (millionths_above m2 e2 V2 L2) as H2.
    destruct (Z.lt_ge_cases (ord f1) (ord (Prim2SF ten_pow_21))) as [S1 | L1].
    + rewrite (millionths_small f1 V1 N1 S1).
      pose proof (fixed_below f1 V1 S1). lia.
    + destruct (large_is_finite f1 N1 ltac:(lia) L1) as (m1 & e1 & ->).
      destruct (shown_large m1 e1 V1 L1) as (p1 & q1 & Hs1 & Hq1 & _).
      destruct (shown_large m2 e2 V2 L2) as (p2 & q2 & Hs2 & Hq2 & _).
      destruct (millionths_large false m1 e1 p1 q1 L1 Hs1 Hq1) as [_ E1].
      destruct (millionths_large false m2 e2 p2 q2 L2 Hs2 Hq2) as [_ E2].
      destruct (Z.eq_dec (ord (S754_finite false m1 e1))
                  (ord (S754_finite false m2 e2))) as [Heq | Hne].
      * destruct (ord_inj _ _ _ _ V1 V2 Heq) as [-> ->].
        split; [lia |]. intros Hgap. rewrite Z.sub_diag in Hgap.
        assert (0 < 2 ^ 1074) by (apply pow2_pos; lia). lia.
      * pose proof (large_order m1 m2 e1 e2 p1 p2 q1 q2 V1 V2 L1
                      ltac:(lia) Hs1 Hs2) as Hlt.
        rewrite E1, E2. lia.
Qed.

Lemma millionths_half (f : spec_float) :
  valid f -> nonneg f -> ord f < top -> 2 ^ 1074 <= 2 * 10 ^ 6 * ord f ->
  1 <= shown_millionths f.
Proof.
  intros Hv Nf Ff Hhalf.
  destruct (Z.lt_ge_cases (ord f) (ord (Prim2SF ten_pow_21))) as [S | L].
  - rewrite (millionths_small f Hv Nf S).
    exact (fixed_of_ord_half _ (ord_nonneg f) Hhalf).
  - destruct (large_is_finite f Nf Ff L) as (m & e & ->).
    pose proof (millionths_above m e Hv L). lia.
Qed.

(** The millionths shown for a finite double, in terms of the one that
    is not negative. *)
Lemma millionths_signed (f : spec_float) :
  valid f ->
  shown_millionths f
  = if signed f <? 0 then - shown_millionths (magnitude f)
    else shown_millionths (magnitude f).
Proof.
  intros Hv.
  destruct f as [s | s | | s m e].
  - reflexivity.
  - destruct s; cbn [signed magnitude]; destruct (_ <? 0); reflexivity.
  - reflexivity.
  - destruct (valid_ord s m e Hv) as ([Hpos _] & _).
    destruct s; cbn [signed magnitude].
    + rewrite millionths_sign.
      destruct (- ord (S754_finite true m e) <? 0) eqn:E; [reflexivity |].
      apply Z.ltb_ge in E. lia.
    + destruct (ord (S754_finite false m e) <? 0) eqn:E; [| reflexivity].
      apply Z.ltb_lt in E. lia.
Qed.

Lemma signed_cases (f : spec_float) :
  signed f = if signed f <? 0 then - ord f else ord f.
Proof.
  assert (Hneg : forall o, 0 <= o -> - o = if - o <? 0 then - o else o).
  { intros o Ho. destruct (- o <? 0) eqn:E; [reflexivity |].
    apply Z.ltb_ge in E. lia. }
  assert (Hpos : forall o, 0 <= o -> o = if o <? 0 then - o else o).
  { intros o Ho. destruct (o <? 0) eqn:E; [| reflexivity].
    apply Z.ltb_lt in E. lia. }
  pose proof (ord_nonneg f) as Ho.
  destruct f as [s | [|] | | [|] m e]; cbn [signed];
    first [exact (Hneg _ Ho) | exact (Hpos _ Ho)].
Qed.

(** The millionths shown follow the signed values. *)
Lemma millionths_order (f1 f2 : spec_float) :
  valid f1 -> valid f2 -> f1 <> S754_nan -> f2 <> S754_nan ->
  ord f1 < top -> ord f2 < top ->
  signed f1 <= signed f2 ->
  shown_millionths f1 <= shown_millionths f2
  /\ (2 ^ 1074 <= 10 ^ 6 * (signed f2 - signed f1) ->
      shown_millionths f1 < shown_millionths f2).
Proof.
  intros V1 V2 N1 N2 F1 F2 Hle.
  assert (HP : 0 < 2 ^ 1074) by (apply pow2_pos; lia).
  pose proof (magnitude_valid f1 V1) as W1.
  pose proof (magnitude_valid f2 V2) as W2.
  pose proof (magnitude_nonneg f1 N1) as P1.
  pose proof (magnitude_nonneg f2 N2) as P2.
  pose proof (millionths_nonneg _ P1) as K1.
  pose proof (millionths_nonneg _ P2) as K2.
  rewrite (millionths_signed f1 V1), (millionths_signed f2 V2).
  pose proof (signed_cases f1) as S1. pose proof (signed_cases f2) as S2.
  rewrite <- (magnitude_ord f1) in S1, F1.
  rewrite <- (magnitude_ord f2) in S2, F2.
  pose proof (ord_nonneg (magnitude f1)) as O1.
  pose proof (ord_nonneg (magnitude f2)) as O2.
  set (b1 := signed f1 <? 0) in *. set (b2 := signed f2 <? 0) in *.
  clearbody b1 b2.
  revert Hle. rewrite S1, S2. clear S1 S2.
  revert W1 W2 P1 P2 K1 K2 F1 F2 O1 O2.
  generalize (magnitude f1) (magnitude f2).
  intros g1 g2 W1 W2 P1 P2 K1 K2 F1 F2 O1 O2.
  destruct b1, b2; intros Hle.
  - assert (Hle' : ord g2 <= ord g1) by (clear - Hle; lia).
    destruct (millionths_nonneg_order g2 g1 W2 W1 P2 P1 F1 Hle') as [Hm Hs].
    split; [clear - Hm; lia |]. intros Hgap.
    assert (Hgap' : 2 ^ 1074 <= 10 ^ 6 * (ord g1 - ord g2)).
    { replace (ord g1 - ord g2) with (- ord g2 - - ord g1) by (clear; lia).
      exact Hgap. }
    specialize (Hs Hgap'). clear - Hs. lia.
  - split; [clear - K1 K2; lia |]. intros Hgap.
    destruct (Z.le_gt_cases (2 ^ 1074) (2 * 10 ^ 6 * ord g1)) as [H1 | H1].
    + pose proof (millionths_half g1 W1 P1 F1 H1) as Hh.
      clear - Hh K2. lia.
    + assert (H2 : 2 ^ 1074 <= 2 * 10 ^ 6 * ord g2).
      { clear - Hgap H1. remember (2 ^ 1074) as P eqn:EP. clear EP. lia. }
      pose proof (millionths_half g2 W2 P2 F2 H2) as Hh.
      clear - Hh K1. lia.
  - assert (E1 : ord g1 = 0) by (clear - Hle O1 O2; lia).
    assert (E2 : ord g2 = 0) by (clear - Hle O1 O2; lia).
    assert (Z21 : 0 < ord (Prim2SF ten_pow_21))
      by (rewrite ten_pow_21_value; reflexivity).
    assert (Z1 : shown_millionths g1 = 0).
    { rewrite (millionths_small g1 W1 P1) by (rewrite E1; exact Z21).
      rewrite E1, fixed_of_ord_zero. reflexivity. }
    assert (Z2 : shown_millionths g2 = 0).
    { rewrite (millionths_small g2 W2 P2) by (rewrite E2; exact Z21).
      rewrite E2, fixed_of_ord_zero. reflexivity. }
    rewrite Z1, Z2. split; [discriminate |]. intros Hgap. exfalso.
    rewrite E1, E2 in Hgap. clear - Hgap HP.
    remember (2 ^ 1074) as P eqn:EP. clear EP. lia.
  - destruct (millionths_nonneg_order g1 g2 W1 W2 P1 P2 F2 Hle) as [Hm Hs].
    split; [exact Hm |]. exact Hs.
Qed.

Lemma shown_digits (f : spec_float) :
  valid f -> f <> S754_nan -> ord f < top ->
  exists s n e, shown f = Some (Digits s n e) /\ -6 <= e.
Proof.
  intros Hv Hn Hf. destruct f as [s | s | | s m e].
  - exists false, 0%N, (-6). split; [reflexivity | lia].
  - exfalso. cbn [ord] in Hf. lia.
  - congruence.
  - destruct (Z.lt_ge_cases (ord (S754_finite s m e))
                (ord (Prim2SF ten_pow_21))) as [S | L].
    + exists s, (fixed_int m e 6), (-6). split; [| lia].
      cbn [shown]. apply Z.ltb_lt in S. now rewrite S.
    + destruct (shown_large m e (valid_sign s false m e Hv) L)
        as (p & q & Hs & Hq & _).
      destruct (millionths_large s m e p q L Hs Hq) as [E _].
      exists s, (Npos p), q. split; [exact E | lia].
Qed.

Lemma infinite_cases (f : spec_float) :
  valid f -> f <> S754_nan ->
  ord f < top \/ f = S754_infinity true \/ f = S754_infinity false.
Proof.
  intros Hv Hn. pose proof top_pos as Htop.
  destruct f as [s | [|] | | s m e].
  - left. exact Htop.
  - right. left. reflexivity.
  - right. right. reflexivity.
  - congruence.
  - left. now destruct (valid_ord s m e Hv) as ([_ H] & _).
Qed.

Lemma signed_below_top (f : spec_float) :
  ord f < top -> - top < signed f < top.
Proof.
  intros Hf. pose proof (ord_nonneg f) as Ho. pose proof top_pos as Htop.
  rewrite (signed_cases f). destruct (signed f <? 0); lia.
Qed.

(** What [toFixed(6)] shows follows the order of the doubles, and
    strictly so for doubles that are [10^-6] or more apart. *)
Lemma shown_order (f1 f2 : spec_float) :
  valid f1 -> valid f2 -> f1 <> S754_nan -> f2 <> S754_nan ->
  signed f1 <= signed f2 ->
  exists w1 w2,
    shown f1 = Some w1 /\ shown f2 = Some w2 /\ le w1 w2
    /\ (2 ^ 1074 <= 10 ^ 6 * (signed f2 - signed f1) -> lt w1 w2).
Proof.
  intros V1 V2 N1 N2 Hle. pose proof top_pos as Htop.
  assert (HP : 0 < 2 ^ 1074) by (apply pow2_pos; lia).
  assert (Hzero : ~ 2 ^ 1074 <= 10 ^ 6 * 0) by (clear - HP; lia).
  destruct (infinite_cases f1 V1 N1) as [F1 | [-> | ->]];
    destruct (infinite_cases f2 V2 N2) as [F2 | [-> | ->]].
  - (* two finite doubles *)
    destruct (shown_digits f1 V1 N1 F1) as (s1 & n1 & e1 & E1 & B1).
    destruct (shown_digits f2 V2 N2 F2) as (s2 & n2 & e2 & E2 & B2).
    destruct (millionths_order f1 f2 V1 V2 N1 N2 F1 F2 Hle) as [Hm Hs].
    unfold shown_millionths in Hm, Hs. rewrite E1, E2 in Hm, Hs.
    cbn [millionths] in Hm, Hs.
    exists (Digits s1 n1 e1), (Digits s2 n2 e2).
    split; [exact E1 |]. split; [exact E2 |]. split.
    + apply le_millionths; assumption.
    + intros Hgap. apply lt_millionths; auto.
  - exfalso. pose proof (signed_below_top f1 F1) as B.
    change (signed (S754_infinity true)) with (- top) in Hle. lia.
  - destruct (shown_digits f1 V1 N1 F1) as (s1 & n1 & e1 & E1 & _).
    exists (Digits s1 n1 e1), (Unbounded false).
    split; [exact E1 |]. split; [reflexivity |]. split; [exact I | exact (fun _ => I)].
  - destruct (shown_digits f2 V2 N2 F2) as (s2 & n2 & e2 & E2 & _).
    exists (Unbounded true), (Digits s2 n2 e2).
    split; [reflexivity |]. split; [exact E2 |]. split; [exact I | exact (fun _ => I)].
  - exists (Unbounded true), (Unbounded true).
    split; [reflexivity |]. split; [reflexivity |]. split; [exact I |].
    change (signed (S754_infinity true)) with (- top).
    rewrite Z.sub_diag. intros H. elim (Hzero H).
  - exists (Unbounded true), (Unbounded false).
    split; [reflexivity |]. split; [reflexivity |]. split; [exact I | exact (fun _ => I)].
  - exfalso. pose proof (signed_below_top f2 F2) as B.
    change (signed (S754_infinity false)) with top in Hle. lia.
  - exfalso. change (signed (S754_infinity false)) with top in Hle.
    change (signed (S754_infinity true)) with (- top) in Hle. lia.
  - exists (Unbounded false), (Unbounded false).
    split; [reflexivity |]. split; [reflexivity |]. split; [exact I |].
    change (signed (S754_infinity false)) with top.
    rewrite Z.sub_diag. intros H. elim (Hzero H).
Qed.

(** *** The strings of [toFixed(6)] *)

Lemma toFixed_order (z1 z2 : number) :
  (z1 <=? z2)%float = true ->
  below (toFixed z1 6) (toFixed z2 6)
  /\ (apart z1 z2 -> strictly_below (toFixed z1 6) (toFixed z2 6)).
Proof.
  intros H. apply leb_signed in H. destruct H as (N1 & N2 & Hle).
  destruct (shown_order _ _ (number_valid z1) (number_valid z2) N1 N2 Hle)
    as (w1 & w2 & E1 & E2 & Hl & Hs).
  unfold below, strictly_below. rewrite !read_toFixed. split.
  - exists w1, w2. auto.
  - intros Hgap. exists w1, w2. auto.
Qed.

Lemma printed_is_number (z : number) :
  toFixed z 6 <> "NaN" -> ~ not_a_number z.
Proof.
  unfold not_a_number, toFixed. intros H E. rewrite E in H. now apply H.
Qed.

End ShownFacts.

(** ** The order of the mock quotes *)

Module QuoteOrderFacts.

Import JSNumber JS Soroswap NumberTerms QuoteTerms OrderTerms PrintTerms
  QuoteFacts NumberOrderFacts ShownFacts.
Local Open Scope float_scope.

(** What a quote leaves can be no number: of an infinite amount at a
    slippage of 100, and of nothing at an infinite slippage,
    [minimumReceived] is ["NaN"]. *)
Lemma quote_can_be_no_number :
  (exists q, offline_quote "Infinity" "100" = Ok q
             /\ amountOut q = "Infinity" /\ minimumReceived q = "NaN")
  /\ (exists q, offline_quote "0" "-Infinity" = Ok q
                /\ amountOut q = "0.000000" /\ minimumReceived q = "NaN").
Proof.
  split; eexists; repeat split; vm_compute; reflexivity.
Qed.

(** C6, amended: on the mock path the strings of a quote, read as the
    decimal numbers they write, follow the order of the inputs. For
    amounts [a1 <= a2], [amountOut] for [a1] is at most [amountOut] for
    [a2], and at a slippage of at most 100 so is [minimumReceived]. For
    an amount that is not negative and slippages [s1 <= s2],
    [minimumReceived] at [s2] is at most [minimumReceived] at [s1]. The
    two orders of [minimumReceived] are those of strings other than
    ["NaN"]. Each order is strict when the two doubles that [toFixed(6)]
    prints are [10^-6] or more apart. *)
Theorem mock_quote_follows_the_inputs net tokenIn tokenOut :
  (forall amount slippage, exists err,
      api_quote net tokenIn tokenOut (Some amount) slippage = Throw err) ->
  (forall a1 a2 s,
      (parseFloat a1 <=? parseFloat a2) = true ->
      exists q1 q2,
        getSwapQuote net tokenIn tokenOut (Some a1) (Some s) = Ok q1
        /\ getSwapQuote net tokenIn tokenOut (Some a2) (Some s) = Ok q2
        /\ below (amountOut q1) (amountOut q2)
        /\ (apart (wanted a1) (wanted a2) ->
            strictly_below (amountOut q1) (amountOut q2))
        /\ ((parseFloat s <=? 100) = true ->
            minimumReceived q1 <> "NaN" -> minimumReceived q2 <> "NaN" ->
            below (minimumReceived q1) (minimumReceived q2)
            /\ (apart (wanted a1 * kept s) (wanted a2 * kept s) ->
                strictly_below (minimumReceived q1) (minimumReceived q2))))
  /\ (forall a s1 s2,
         (0 <=? parseFloat a) = true ->
         (parseFloat s1 <=? parseFloat s2) = true ->
         exists q1 q2,
           getSwapQuote net tokenIn tokenOut (Some a) (Some s1) = Ok q1
           /\ getSwapQuote net tokenIn tokenOut (Some a) (Some s2) = Ok q2
           /\ (minimumReceived q1 <> "NaN" -> minimumReceived q2 <> "NaN" ->
               below (minimumReceived q2) (minimumReceived q1)
               /\ (apart (wanted a * kept s2) (wanted a * kept s1) ->
                   strictly_below (minimumReceived q2)
                     (minimumReceived q1)))).
Proof.
  intros Hfail. split.
  - intros a1 a2 s Ha.
    destruct (quote_falls_back net tokenIn tokenOut a1 s (Hfail _ _))
      as (q1 & Hq1 & Hout1 & Hlow1).
    destruct (quote_falls_back net tokenIn tokenOut a2 s (Hfail _ _))
      as (q2 & Hq2 & Hout2 & Hlow2).
    exists q1, q2. split; [exact Hq1 |]. split; [exact Hq2 |].
    rewrite Hout1, Hout2, Hlow1, Hlow2.
    pose proof (wanted_mono a1 a2 Ha) as Hw.
    split; [exact (proj1 (toFixed_order _ _ Hw)) |].
    split; [exact (proj2 (toFixed_order _ _ Hw)) |].
    intros H100 N1 N2. apply toFixed_order.
    apply product_mono_l;
      [exact Hw | exact (kept_nonneg s H100)
       | exact (printed_is_number _ N1) | exact (printed_is_number _ N2)].
  - intros a s1 s2 H0 Hs.
    destruct (quote_falls_back net tokenIn tokenOut a s1 (Hfail _ _))
      as (q1 & Hq1 & _ & Hlow1).
    destruct (quote_falls_back net tokenIn tokenOut a s2 (Hfail _ _))
      as (q2 & Hq2 & _ & Hlow2).
    exists q1, q2. split; [exact Hq1 |]. split; [exact Hq2 |].
    rewrite Hlow1, Hlow2.
    intros N1 N2. apply toFixed_order.
    apply product_mono_r;
      [exact (wanted_nonneg a H0) | exact (kept_anti s1 s2 Hs)
       | exact (printed_is_number _ N2) | exact (printed_is_number _ N1)].
Qed.

Lemma mock_quote_follows_the_inputs_witness :
  (exists q1 q2,
      offline_quote "1" "0.5" = Ok q1 /\ offline_quote "2" "0.5" = Ok q2
      /\ strictly_below (amountOut q1) (amountOut q2)
      /\ strictly_below (minimumReceived q1) (minimumReceived q2))
  /\ (exists q1 q2,
         offline_quote "1" "0.5" = Ok q1 /\ offline_quote "1" "1" = Ok q2
         /\ strictly_below (minimumReceived q2) (minimumReceived q1)).
Proof.
  destruct (mock_quote_follows_the_inputs Offline.soroswap (Some "native")
              (Some "USDC")
              (fun _ _ => ex_intro _ (Error "Network Error") eq_refl))
    as [Hamount Hslip].
  split.
  - destruct (Hamount "1" "2" "0.5" eq_refl)
      as (q1 & q2 & Hq1 & Hq2 & _ & Hout & Hlow).
    exists q1, q2. split; [exact Hq1 |]. split; [exact Hq2 |].
    vm_compute in Hq1, Hq2. injection Hq1 as <-. injection Hq2 as <-.
    split; [apply Hout; vm_compute; discriminate |].
    apply Hlow; [vm_compute; reflexivity | discriminate | discriminate
                 | vm_compute; discriminate].
  - destruct (Hslip "1" "0.5" "1" eq_refl eq_refl)
      as (q1 & q2 & Hq1 & Hq2 & Hlow).
    exists q1, q2. split; [exact Hq1 |]. split; [exact Hq2 |].
    vm_compute in Hq1, Hq2. injection Hq1 as <-. injection Hq2 as <-.
    apply Hlow; [discriminate | discriminate | vm_compute; discriminate].
Defined.

End QuoteOrderFacts.

(** ** Positions read from Horizon *)

Module PositionFacts.

Import JSNumber JS Horizon PositionTerms Server.
Local Open Scope float_scope.

(** X1. [SoroswapClient.getUserPositions] always answers. When Horizon
    fails the answer is the mock positions; when Horizon answers there is
    one position for each balance line of type [liquidity_pool_shares],
    in the order of the account, carrying the pool's id and the balance
    and nothing else: no tokens, no value, no profit. *)
Theorem soroswap_positions_follow_horizon net user :
  exists ps,
    Soroswap.getUserPositions net user = Ok ps
    /\ (forall e, Soroswap.loadAccount net user = Throw e ->
        ps = Soroswap.getMockUserPositions user)
    /\ (forall balances, Soroswap.loadAccount net user = Ok balances ->
        map (fun p => (Soroswap.pos_pairAddress p, Soroswap.lpTokenBalance p)) ps
        = map (fun b => (liquidity_pool_id b, Some (balance b)))
            (filter is_lp_share balances)
        /\ Forall bare ps).
Proof.
  unfold Soroswap.getUserPositions.
  destruct (Soroswap.loadAccount net user) as [balances | e]; cbn [bind try_catch].
  - eexists. split; [reflexivity |]. split; [intros e H; discriminate |].
    intros l H. injection H as <-. fold is_lp_share. split.
    + rewrite map_map. reflexivity.
    + apply Forall_forall. intros p Hp. apply in_map_iff in Hp.
      destruct Hp as (b & <- & _). repeat split.
  - eexists. split; [reflexivity |]. split; [reflexivity |].
    intros l H. discriminate.
Qed.

(** What the swap adapter makes of an account that Horizon returns. *)
Lemma horizon_positions_are_bare net user balances :
  Soroswap.loadAccount net user = Ok balances ->
  exists sp,
    Soroswap.getUserPositions net user = Ok sp
    /\ List.length sp = List.length (filter is_lp_share balances)
    /\ Forall bare sp.
Proof.
  intros H. unfold Soroswap.getUserPositions. rewrite H.
  cbn [bind try_catch]. fold is_lp_share.
  eexists. split; [reflexivity |]. split; [apply length_map |].
  apply Forall_forall. intros p Hp. apply in_map_iff in Hp.
  destruct Hp as (b & <- & _). repeat split.
Qed.

Lemma bare_worth_nothing (ps : list Soroswap.Position) (start : number) :
  Forall bare ps ->
  fold_left
    (fun sum pos => sum + parseFloat (or_default (Soroswap.value pos) "0"))
    ps start
  = fold_left (fun sum _ => sum + 0) ps start
  /\ fold_left
       (fun sum pos => sum + parseFloat (or_default (Soroswap.pnl pos) "0"))
       ps start
     = fold_left (fun sum _ => sum + 0) ps start.
Proof.
  intros H. revert start. induction H as [| p ps Hp _ IH]; intros start.
  - split; reflexivity.
  - destruct Hp as (_ & _ & _ & _ & _ & Hv & Hpnl & _).
    cbn [fold_left]. rewrite Hv, Hpnl. cbn [or_default].
    change (parseFloat "0") with 0. apply IH.
Qed.

Lemma zeros_add_up {A : Type} (l : list A) :
  fold_left (fun sum _ => sum + 0) l 0 = 0.
Proof.
  induction l as [| x l IH]; [reflexivity |].
  cbn [fold_left]. change (0 + 0) with 0. exact IH.
Qed.

(** Adding to zero leaves the printed number as it is: only the sign of
    a negative zero is lost, which [toString] does not print. *)
Lemma toString_zero_plus (x : number) : toString (0 + x) = toString x.
Proof.
  unfold toString. rewrite add_spec.
  change (Prim2SF 0) with (S754_zero false).
  destruct (Prim2SF x) as [[|] | [|] | | [|] m e]; reflexivity.
Qed.

(** X2. When Horizon returns the user's account, the combined portfolio
    summary counts the Soroswap positions for nothing, however many pool
    shares the account holds: [soroswapValue] is ["0"], [totalValue] is
    the DeFindex value and [totalPnl] is the DeFindex profit alone. *)
Theorem horizon_positions_are_valued_at_zero net user balances
  (dp : list Defindex.DefindexPosition) :
  Soroswap.loadAccount net user = Ok balances ->
  exists sp,
    Soroswap.getUserPositions net user = Ok sp
    /\ List.length sp = List.length (filter is_lp_share balances)
    /\ soroswapValue (summarize sp dp) = "0"
    /\ totalValue (summarize sp dp) = defindexValue (summarize sp dp)
    /\ totalPnl (summarize sp dp)
       = toString (fold_left
                     (fun sum pos => sum + parseFloat (Defindex.pnl pos)) dp 0).
Proof.
  intros Hload.
  destruct (horizon_positions_are_bare net user balances Hload)
    as (sp & Hsp & Hlen & Hbare).
  exists sp. split; [exact Hsp |]. split; [exact Hlen |].
  destruct (bare_worth_nothing sp 0 Hbare) as [Hv Hp].
  rewrite zeros_add_up in Hv, Hp.
  unfold summarize.
  cbn [soroswapValue totalValue defindexValue totalPnl].
  rewrite Hv, Hp. rewrite !toString_zero_plus.
  repeat split; reflexivity.
Qed.

Lemma horizon_positions_are_valued_at_zero_witness :
  exists sp,
    Soroswap.getUserPositions horizon_only (Some "GUSER") = Ok sp
    /\ List.length sp = 1%nat
    /\ soroswapValue (summarize sp []) = "0"
    /\ totalValue (summarize sp []) = defindexValue (summarize sp [])
    /\ totalPnl (summarize sp []) = toString 0.
Proof.
  exact (horizon_positions_are_valued_at_zero horizon_only (Some "GUSER")
           [lp_line; usd_line] [] eq_refl).
Defined.


(** What the vault adapter makes of an account that Horizon returns, the
    DeFindex API being down. *)
Lemma horizon_vault_positions_are_at_par net now user e tokens :
  Defindex.api_positions net user = Throw e ->
  Defindex.loadAccount net user = Ok tokens ->
  exists dp,
    Defindex.getUserPositions net now user = Ok dp /\ Forall (at_par now) dp.
Proof.
  intros Hapi Hload. unfold Defindex.getUserPositions.
  rewrite Hapi. cbn [bind try_catch]. rewrite Hload. cbn [bind try_catch].
  eexists. split; [reflexivity |].
  apply Forall_forall. intros p Hp. apply in_map_iff in Hp.
  destruct Hp as (b & <- & _). repeat split.
Qed.

Lemma at_par_no_profit (now : string) (dp : list Defindex.DefindexPosition)
  (start : number) :
  Forall (at_par now) dp ->
  fold_left (fun sum pos => sum + parseFloat (Defindex.pnl pos)) dp start
  = fold_left (fun sum _ => sum + 0) dp start.
Proof.
  intros H. revert start. induction H as [| p dp Hp _ IH]; intros start.
  - reflexivity.
  - destruct Hp as (_ & _ & _ & Hpnl & _).
    cbn [fold_left]. rewrite Hpnl. change (parseFloat "0") with 0. apply IH.
Qed.

(** No profit over a positive value is printed ["0.00"]. *)
Lemma zero_percent (value : number) :
  (0 <? value) = true -> toFixed (0 / value * 100) 2%nat = "0.00".
Proof.
  intros Hpos.
  assert (Hz : Prim2SF (0 / value * 100) = S754_zero false).
  { rewrite mul_spec, div_spec. rewrite ltb_spec in Hpos.
    change (Prim2SF 0) with (S754_zero false) in *.
    destruct (Prim2SF value) as [s | [|] | | [|] m e];
      try discriminate; reflexivity. }
  unfold toFixed. rewrite Hz. reflexivity.
Qed.

(** X4. When both adapters read the user's positions from Horizon (the
    DeFindex API being down), the combined portfolio shows no profit
    whatever the account holds: [totalPnl] is ["0"] and
    [totalPnlPercent] is ["0.00"], or ["0"] when the total value is not
    positive. *)
Theorem horizon_tier_shows_no_profit env net user lp e tokens :
  Soroswap.loadAccount (soroswap net) user = Ok lp ->
  Defindex.api_positions (defindex net) user = Throw e ->
  Defindex.loadAccount (defindex net) user = Ok tokens ->
  exists sp dp,
    Soroswap.getUserPositions (soroswap net) user = Ok sp
    /\ Defindex.getUserPositions (defindex net) (now env) user = Ok dp
    /\ totalPnl (summarize sp dp) = "0"
    /\ (totalPnlPercent (summarize sp dp) = "0.00"
        \/ totalPnlPercent (summarize sp dp) = "0").
Proof.
  intros Hlp Hapi Htokens.
  destruct (horizon_positions_are_bare (soroswap net) user lp Hlp)
    as (sp & Hsp & _ & Hbare).
  destruct (horizon_vault_positions_are_at_par (defindex net) (now env) user
              e tokens Hapi Htokens) as (dp & Hdp & Hpar).
  exists sp, dp. split; [exact Hsp |]. split; [exact Hdp |].
  destruct (bare_worth_nothing sp 0 Hbare) as [_ Hp].
  rewrite zeros_add_up in Hp.
  pose proof (at_par_no_profit (now env) dp 0 Hpar) as Hd.
  rewrite zeros_add_up in Hd.
  unfold summarize. cbn [totalPnl totalPnlPercent].
  rewrite Hp, Hd. change (0 + 0) with 0. split; [reflexivity |].
  match goal with
  | |- context [if 0 <? ?v then _ else _] => destruct (0 <? v) eqn:Hv
  end.
  - left. now apply zero_percent.
  - right. reflexivity.
Qed.

Lemma horizon_tier_shows_no_profit_witness :
  exists sp dp,
    Soroswap.getUserPositions (soroswap horizon_up) (Some "GUSER") = Ok sp
    /\ Defindex.getUserPositions (defindex horizon_up) (now Offline.env)
         (Some "GUSER") = Ok dp
    /\ totalPnl (summarize sp dp) = "0"
    /\ (totalPnlPercent (summarize sp dp) = "0.00"
        \/ totalPnlPercent (summarize sp dp) = "0").
Proof.
  exact (horizon_tier_shows_no_profit Offline.env horizon_up (Some "GUSER")
           [lp_line; usd_line] (Error "Network Error") [lp_line; usd_line]
           eq_refl eq_refl eq_refl).
Defined.

End PositionFacts.

(** ** Numbers that are not numbers *)

Module NotANumberFacts.

Import JSNumber NumberTerms.
Local Open Scope float_scope.

Lemma nan_mul_l (x y : number) : not_a_number x -> not_a_number (x * y).
Proof.
  unfold not_a_number. intros H. rewrite mul_spec, H. reflexivity.
Qed.

Lemma nan_mul_r (x y : number) : not_a_number y -> not_a_number (x * y).
Proof.
  unfold not_a_number. intros H. rewrite mul_spec, H.
  destruct (Prim2SF x); reflexivity.
Qed.

Lemma nan_div_l (x y : number) : not_a_number x -> not_a_number (x / y).
Proof.
  unfold not_a_number. intros H. rewrite div_spec, H. reflexivity.
Qed.

Lemma nan_sub_r (x y : number) : not_a_number y -> not_a_number (x - y).
Proof.
  unfold not_a_number. intros H. rewrite sub_spec, H.
  destruct (Prim2SF x); reflexivity.
Qed.

Lemma nan_add_l (x y : number) : not_a_number x -> not_a_number (x + y).
Proof.
  unfold not_a_number. intros H. rewrite add_spec, H. reflexivity.
Qed.

Lemma nan_add_r (x y : number) : not_a_number y -> not_a_number (x + y).
Proof.
  unfold not_a_number. intros H. rewrite add_spec, H.
  destruct (Prim2SF x); reflexivity.
Qed.

Lemma nan_toString (x : number) : not_a_number x -> toString x = "NaN".
Proof. unfold not_a_number, toString. now intros ->. Qed.

Lemma nan_toFixed (x : number) (f : nat) :
  not_a_number x -> toFixed x f = "NaN".
Proof. unfold not_a_number, toFixed. now intros ->. Qed.

Lemma nan_is_below_nothing (x y : number) :
  not_a_number x -> (x <=? y) = false.
Proof.
  unfold not_a_number. intros H. rewrite leb_spec, H. reflexivity.
Qed.

Lemma nan_is_not_positive (x : number) : not_a_number x -> (0 <? x) = false.
Proof.
  unfold not_a_number. intros H. rewrite ltb_spec, H. reflexivity.
Qed.

(** A sum that is not a number stays so whatever is added. *)
Lemma sum_stays_nan {A : Type} (f : A -> number) (l : list A) (start : number) :
  not_a_number start ->
  not_a_number (fold_left (fun sum x => sum + f x) l start).
Proof.
  revert start. induction l as [| x l IH]; intros start H; [exact H |].
  cbn [fold_left]. apply IH. now apply nan_add_l.
Qed.

Lemma sum_meets_nan {A : Type} (f : A -> number) (l : list A) (start : number)
  (x : A) :
  In x l -> not_a_number (f x) ->
  not_a_number (fold_left (fun sum x => sum + f x) l start).
Proof.
  revert start. induction l as [| y l IH]; intros start Hin Hnan; [easy |].
  cbn [fold_left]. destruct Hin as [-> | Hin].
  - apply sum_stays_nan. now apply nan_add_r.
  - now apply IH.
Qed.

End NotANumberFacts.

(** ** Filtering the mock vaults *)

Module VaultFilterFacts.

Import JSNumber JS Defindex NumberTerms NotANumberFacts.
Local Open Scope float_scope.

Lemma vaults_fall_back net risk minApy' e :
  api_vaults net (param risk) (param minApy') = Throw e ->
  getAvailableVaults net risk minApy' = Ok (getMockVaults risk minApy').
Proof.
  intros H. unfold getAvailableVaults. rewrite H. reflexivity.
Qed.

Lemma strict_eq_some (a : string) (b : option string) :
  strict_eq a b = true <-> b = Some a.
Proof.
  destruct b as [t |]; cbn [strict_eq].
  - rewrite String.eqb_eq. split; [intros -> | intros [= ->]]; reflexivity.
  - split; discriminate.
Qed.

Lemma filter_nothing {A : Type} (f : A -> bool) (l : list A) :
  (forall x, In x l -> f x = false) -> filter f l = [].
Proof.
  induction l as [| x l IH]; intros H; [reflexivity |].
  cbn [filter]. rewrite (H x (or_introl eq_refl)).
  apply IH. intros y Hy. apply H. now right.
Qed.

(** A threshold that compares with a number is a number, and so was
    given. *)
Lemma compared_is_given (minApy' : option string) (y : number) :
  (parseFloat_arg minApy' <=? y) = true
  \/ (y <=? parseFloat_arg minApy') = true ->
  truthy minApy' = true.
Proof.
  destruct minApy' as [[| c r] |]; [| reflexivity |];
    intros [H | H]; exfalso; revert H; rewrite leb_spec;
    match goal with
    | |- context [Prim2SF (parseFloat_arg ?a)] =>
        change (Prim2SF (parseFloat_arg a)) with S754_nan
    end;
    destruct (Prim2SF y); discriminate.
Qed.

(** X5. When the DeFindex API fails, [getAvailableVaults] answers with
    exactly the vaults of the mock catalog that pass the filters given:
    the risk level, when one is given and not empty, must be the vault's,
    and the minimum APY, when one is given and not empty, must be at most
    the vault's APY, both read by [parseFloat]. With neither filter the
    whole catalog is returned. *)
Theorem mock_vaults_are_the_matching_ones net risk minApy' e :
  api_vaults net (param risk) (param minApy') = Throw e ->
  exists vaults,
    getAvailableVaults net risk minApy' = Ok vaults
    /\ (forall v,
          In v vaults <->
          In v mockVaults
          /\ (truthy risk = true -> risk = Some (risk_string (riskLevel v)))
          /\ (truthy minApy' = true ->
              (parseFloat_arg minApy' <=? parseFloat (apy v)) = true))
    /\ (truthy risk = false -> truthy minApy' = false -> vaults = mockVaults).
Proof.
  intros Hfail. exists (getMockVaults risk minApy').
  split; [now apply (vaults_fall_back net risk minApy' e) |].
  unfold getMockVaults. split.
  - intros v.
    destruct (truthy risk), (truthy minApy');
      rewrite ?filter_In, ?strict_eq_some; intuition congruence.
  - intros -> ->. reflexivity.
Qed.

Lemma mock_vaults_are_the_matching_ones_witness :
  exists vaults,
    getAvailableVaults Offline.defindex (Some "medium") (Some "10") = Ok vaults
    /\ (forall v,
          In v vaults <->
          In v mockVaults
          /\ (truthy (Some "medium") = true ->
              Some "medium" = Some (risk_string (riskLevel v)))
          /\ (truthy (Some "10") = true ->
              (parseFloat_arg (Some "10") <=? parseFloat (apy v)) = true))
    /\ (truthy (Some "medium") = false -> truthy (Some "10") = false ->
        vaults = mockVaults).
Proof.
  exact (mock_vaults_are_the_matching_ones Offline.defindex (Some "medium")
           (Some "10") (Error "Network Error") eq_refl).
Defined.

(** X6. When the DeFindex API fails, a filter that nothing can match is
    not reported: a risk level that is not exactly ["low"], ["medium"] or
    ["high"], or a minimum APY that [parseFloat] does not read as a
    number, makes [getAvailableVaults] answer with the empty list. *)
Theorem unmatched_vault_filters_give_nothing net risk minApy' e :
  api_vaults net (param risk) (param minApy') = Throw e ->
  (truthy risk = true /\ ~ In risk [Some "low"; Some "medium"; Some "high"])
  \/ (truthy minApy' = true /\ not_a_number (parseFloat_arg minApy')) ->
  getAvailableVaults net risk minApy' = Ok [].
Proof.
  intros Hfail Hcase.
  rewrite (vaults_fall_back net risk minApy' e Hfail). f_equal.
  unfold getMockVaults.
  destruct Hcase as [[Hr Hout] | [Hm Hnan]].
  - rewrite Hr.
    assert (Hnone : filter (fun vault =>
                              strict_eq (risk_string (riskLevel vault)) risk)
                      mockVaults = []).
    { apply filter_nothing. intros v _.
      destruct (strict_eq (risk_string (riskLevel v)) risk) eqn:E;
        [| reflexivity].
      apply strict_eq_some in E. exfalso. apply Hout. rewrite E.
      destruct (riskLevel v); cbn; auto. }
    rewrite Hnone. destruct (truthy minApy'); reflexivity.
  - rewrite Hm. apply filter_nothing. intros v _.
    now apply nan_is_below_nothing.
Qed.

Lemma unmatched_vault_filters_give_nothing_witness :
  getAvailableVaults Offline.defindex (Some "Low") None = Ok []
  /\ getAvailableVaults Offline.defindex None (Some "ten") = Ok [].
Proof.
  split.
  - apply (unmatched_vault_filters_give_nothing Offline.defindex (Some "Low")
             None (Error "Network Error") eq_refl).
    left. split; [reflexivity |].
    cbn. intros [H | [H | [H | []]]]; discriminate.
  - apply (unmatched_vault_filters_give_nothing Offline.defindex None
             (Some "ten") (Error "Network Error") eq_refl).
    right. split; [reflexivity | vm_compute; reflexivity].
Defined.

(** X7. When the DeFindex API fails, raising the minimum APY never adds
    a vault: for the same risk filter and two minimum APYs read as the
    numbers [low <= high], every vault that [getAvailableVaults] returns
    for [high] is among those it returns for [low]. *)
Theorem a_higher_minimum_never_adds_vaults net risk low high e e' :
  api_vaults net (param risk) (param low) = Throw e ->
  api_vaults net (param risk) (param high) = Throw e' ->
  (parseFloat_arg low <=? parseFloat_arg high) = true ->
  exists more fewer,
    getAvailableVaults net risk low = Ok more
    /\ getAvailableVaults net risk high = Ok fewer
    /\ incl fewer more.
Proof.
  intros Hlow Hhigh Hle.
  rewrite (vaults_fall_back net risk low e Hlow).
  rewrite (vaults_fall_back net risk high e' Hhigh).
  do 2 eexists. split; [reflexivity |]. split; [reflexivity |].
  unfold getMockVaults.
  rewrite (compared_is_given low _ (or_introl Hle)).
  rewrite (compared_is_given high _ (or_intror Hle)).
  intros v Hv. apply filter_In in Hv. destruct Hv as [Hin Hv].
  apply filter_In. split; [exact Hin |].
  exact (OrderFacts.leb_trans _ _ _ Hle Hv).
Qed.

Lemma a_higher_minimum_never_adds_vaults_witness :
  exists more fewer,
    getAvailableVaults Offline.defindex (Some "medium") (Some "5") = Ok more
    /\ getAvailableVaults Offline.defindex (Some "medium") (Some "12.5")
       = Ok fewer
    /\ incl fewer more.
Proof.
  apply (a_higher_minimum_never_adds_vaults Offline.defindex (Some "medium")
           (Some "5") (Some "12.5") (Error "Network Error")
           (Error "Network Error")); [reflexivity | reflexivity |].
  vm_compute. reflexivity.
Defined.

End VaultFilterFacts.

(** ** Deposits that the mock path does not refuse *)

Module DepositEdgeFacts.

Import JSNumber JS Defindex NumberTerms NotANumberFacts.
Local Open Scope float_scope.

Lemma deposit_falls_back net a d t e :
  api_calculate net a d (default_param t "1y") = Throw e ->
  calculateVaultDeposit net a d t
  = getMockDepositCalculation a d (default_param t "1y").
Proof.
  intros H. unfold calculateVaultDeposit. rewrite H. reflexivity.
Qed.

(** X8. When the DeFindex API fails, a deposit amount that [parseFloat]
    does not read as a number is not rejected: [calculateVaultDeposit]
    answers with the amount as given, and with ["NaN"] for the expected
    shares, the projected value, the projected yield and the management
    and performance fees; the deposit fee stays ["0"]. *)
Theorem unreadable_deposit_is_not_rejected net a d t e :
  api_calculate net a d (default_param t "1y") = Throw e ->
  not_a_number (parseFloat_arg d) ->
  exists calc,
    calculateVaultDeposit net a d t = Ok calc
    /\ depositAmount calc = d
    /\ expectedShares calc = "NaN"
    /\ projectedValue calc = "NaN"
    /\ projectedYield calc = "NaN"
    /\ depositFee (fees calc) = "0"
    /\ fee_management (fees calc) = "NaN"
    /\ fee_performance (fees calc) = "NaN".
Proof.
  intros Hfail Hnan.
  rewrite (deposit_falls_back net a d t e Hfail).
  destruct (DepositFacts.mock_vault_found a) as (vault & Hvault & _).
  unfold getMockDepositCalculation. rewrite Hvault.
  eexists. split; [reflexivity |].
  cbn [depositAmount expectedShares projectedValue projectedYield fees
       depositFee fee_management fee_performance].
  repeat split; try reflexivity; apply nan_toString;
    repeat (first [ exact Hnan | apply nan_mul_l | apply nan_div_l ]).
Qed.

Lemma unreadable_deposit_is_not_rejected_witness :
  exists calc,
    calculateVaultDeposit Offline.defindex (Some stable_address)
      (Some "a lot") (Some "6m") = Ok calc
    /\ depositAmount calc = Some "a lot"
    /\ expectedShares calc = "NaN"
    /\ projectedValue calc = "NaN"
    /\ projectedYield calc = "NaN"
    /\ depositFee (fees calc) = "0"
    /\ fee_management (fees calc) = "NaN"
    /\ fee_performance (fees calc) = "NaN".
Proof.
  apply (unreadable_deposit_is_not_rejected Offline.defindex
           (Some stable_address) (Some "a lot") (Some "6m")
           (Error "Network Error"));
    [reflexivity | vm_compute; reflexivity].
Defined.

(** X9. When the DeFindex API fails, a deposit into a vault whose address
    is not in the mock catalog is projected with the figures of the
    catalog's first vault: the answer names the address asked for, and
    its shares, projected value, projected yield and fees are those of
    the same deposit into the first vault. *)
Theorem unknown_vault_is_projected_as_the_first net a d t e e0 :
  api_calculate net a d (default_param t "1y") = Throw e ->
  api_calculate net (Some stable_address) d (default_param t "1y") = Throw e0 ->
  (forall v, In v mockVaults -> a <> Some (address v)) ->
  exists calc first,
    calculateVaultDeposit net a d t = Ok calc
    /\ calculateVaultDeposit net (Some stable_address) d t = Ok first
    /\ calc_vaultAddress calc = a
    /\ expectedShares calc = expectedShares first
    /\ projectedValue calc = projectedValue first
    /\ projectedYield calc = projectedYield first
    /\ fees calc = fees first.
Proof.
  intros Hfail Hfail0 Hunknown.
  rewrite (deposit_falls_back net a d t e Hfail).
  rewrite (deposit_falls_back net _ d t e0 Hfail0).
  assert (Ha : getMockVaultDetails a = getMockVaultDetails (Some stable_address)).
  { unfold getMockVaultDetails at 1.
    change (getMockVaults None None) with mockVaults.
    rewrite (VaultFacts.find_absent a); [reflexivity |].
    intros v Hv H. apply (Hunknown v Hv). now symmetry. }
  unfold getMockDepositCalculation. rewrite Ha.
  change (getMockVaultDetails (Some stable_address))
    with (nth_error mockVaults 0).
  cbn [nth_error mockVaults].
  do 2 eexists. repeat split; reflexivity.
Qed.

Lemma unknown_vault_is_projected_as_the_first_witness :
  exists calc first,
    calculateVaultDeposit Offline.defindex (Some "nowhere") (Some "1000")
      (Some "1y") = Ok calc
    /\ calculateVaultDeposit Offline.defindex (Some stable_address)
         (Some "1000") (Some "1y") = Ok first
    /\ calc_vaultAddress calc = Some "nowhere"
    /\ expectedShares calc = expectedShares first
    /\ projectedValue calc = projectedValue first
    /\ projectedYield calc = projectedYield first
    /\ fees calc = fees first.
Proof.
  apply (unknown_vault_is_projected_as_the_first Offline.defindex
           (Some "nowhere") (Some "1000") (Some "1y")
           (Error "Network Error") (Error "Network Error"));
    [reflexivity | reflexivity |].
  intros v [<- | [<- | [<- | []]]]; discriminate.
Defined.

End DepositEdgeFacts.

(** ** The ends of the mock quote *)

Module QuoteEdgeFacts.

Import JSNumber JS Soroswap NumberTerms NotANumberFacts.
Import Rounding RoundingFacts QuoteTerms QuoteFacts.
Local Open Scope float_scope.

(** X10. When the Soroswap API fails, an amount or a slippage that
    [parseFloat] does not read as a number is not rejected:
    [getSwapQuote] answers with a quote whose [minimumReceived] is
    ["NaN"], and whose [amountOut] is ["NaN"] too when it is the amount
    that is unreadable. *)
Theorem unreadable_amount_is_quoted_as_nan net tokenIn' tokenOut' amount slip :
  (exists err, api_quote net tokenIn' tokenOut' (Some amount) slip = Throw err) ->
  not_a_number (parseFloat amount) \/ not_a_number (parseFloat slip) ->
  exists q,
    getSwapQuote net tokenIn' tokenOut' (Some amount) (Some slip) = Ok q
    /\ minimumReceived q = "NaN"
    /\ (not_a_number (parseFloat amount) -> amountOut q = "NaN").
Proof.
  intros Hfail Hnan.
  destruct (quote_falls_back net tokenIn' tokenOut' amount slip Hfail)
    as (q & Hq & Hout & Hlow).
  exists q. split; [exact Hq |]. split.
  - rewrite Hlow. apply nan_toFixed. unfold wanted, kept.
    destruct Hnan as [Ha | Hs].
    + now do 3 apply nan_mul_l.
    + apply nan_mul_r, nan_sub_r. now apply nan_div_l.
  - intros Ha. rewrite Hout. apply nan_toFixed. unfold wanted.
    now do 2 apply nan_mul_l.
Qed.

Lemma unreadable_amount_is_quoted_as_nan_witness :
  exists q,
    getSwapQuote Offline.soroswap (Some "native") (Some "USDC")
      (Some "ten") (Some "0.5") = Ok q
    /\ minimumReceived q = "NaN"
    /\ (not_a_number (parseFloat "ten") -> amountOut q = "NaN").
Proof.
  apply (unreadable_amount_is_quoted_as_nan Offline.soroswap (Some "native")
           (Some "USDC") "ten" "0.5").
  - exists (Error "Network Error"). reflexivity.
  - left. vm_compute. reflexivity.
Defined.

(** With no slippage nothing is taken off: [1 - 0 / 100] is [1]. *)
Lemma nothing_kept_back (s : number) : (s =? 0) = true -> 1 - s / 100 = 1.
Proof.
  intros H. apply Prim2SF_inj. rewrite sub_spec, div_spec.
  rewrite eqb_spec in H.
  change (Prim2SF 0) with (S754_zero false) in H.
  change (Prim2SF 100) with (S754_finite false 7036874417766400 (-46)).
  change (Prim2SF 1) with (S754_finite false 4503599627370496 (-52)).
  destruct (Prim2SF s) as [[|] | [|] | | [|] m e]; try discriminate;
    reflexivity.
Qed.

(** What compares equal to one hundred is one hundred. *)
Lemma is_hundred (s : number) : (s =? 100) = true -> s = 100.
Proof.
  intros H. apply Prim2SF_inj. rewrite eqb_spec in H.
  change (Prim2SF 100) with (S754_finite false 7036874417766400 (-46)) in *.
  unfold SFeqb in H.
  destruct (Prim2SF s) as [[|] | [|] | | [|] m e]; try discriminate.
  cbn [SFcompare] in H.
  destruct (e ?= -46)%Z eqn:He; try discriminate.
  apply Z.compare_eq in He. subst e.
  destruct (Pos.compare_cont Eq m 7036874417766400) eqn:E; try discriminate.
  apply Pos.compare_eq in E. now subst m.
Qed.

(** X11. When the Soroswap API fails and the slippage reads as zero
    (["0"], ["0.0"], ["-0"]), the quote of [getSwapQuote] promises the
    whole amount: [minimumReceived] is the same string as [amountOut],
    whatever the amount, an unreadable one included. *)
Theorem no_slippage_keeps_the_whole_amount net tokenIn' tokenOut' amount slip :
  (exists err, api_quote net tokenIn' tokenOut' (Some amount) slip = Throw err) ->
  (parseFloat slip =? 0) = true ->
  exists q,
    getSwapQuote net tokenIn' tokenOut' (Some amount) (Some slip) = Ok q
    /\ minimumReceived q = amountOut q.
Proof.
  intros Hfail Hzero.
  destruct (quote_falls_back net tokenIn' tokenOut' amount slip Hfail)
    as (q & Hq & Hout & Hlow).
  exists q. split; [exact Hq |].
  rewrite Hlow, Hout. unfold kept.
  now rewrite (nothing_kept_back _ Hzero), FloatFacts.mul_one.
Qed.

Lemma no_slippage_keeps_the_whole_amount_witness :
  exists q,
    getSwapQuote Offline.soroswap (Some "native") (Some "USDC")
      (Some "1000") (Some "0") = Ok q
    /\ minimumReceived q = amountOut q.
Proof.
  apply (no_slippage_keeps_the_whole_amount Offline.soroswap (Some "native")
           (Some "USDC") "1000" "0").
  - exists (Error "Network Error"). reflexivity.
  - vm_compute. reflexivity.
Defined.

(** X12. When the Soroswap API fails and the slippage reads as one
    hundred, the quote of [getSwapQuote] promises nothing:
    [minimumReceived] is ["0.000000"] for every amount whose quoted
    output [parseFloat(amountIn) * 0.12 * 0.997] is finite, a negative
    one included. *)
Theorem full_slippage_guarantees_nothing net tokenIn' tokenOut' amount slip :
  (exists err, api_quote net tokenIn' tokenOut' (Some amount) slip = Throw err) ->
  (parseFloat slip =? 100) = true ->
  is_finite (parseFloat amount * 0.12 * 0.997) = true ->
  exists q,
    getSwapQuote net tokenIn' tokenOut' (Some amount) (Some slip) = Ok q
    /\ minimumReceived q = "0.000000".
Proof.
  intros Hfail Hfull Hfin.
  destruct (quote_falls_back net tokenIn' tokenOut' amount slip Hfail)
    as (q & Hq & _ & Hlow).
  exists q. split; [exact Hq |].
  rewrite Hlow. unfold kept. rewrite (is_hundred _ Hfull).
  change (1 - 100 / 100) with 0.
  apply NumberFacts.is_finite_cases in Hfin. fold (wanted amount) in Hfin.
  unfold toFixed. rewrite mul_spec.
  change (Prim2SF 0) with (S754_zero false).
  destruct (Prim2SF (wanted amount)) as [s | s | | s m e];
    try contradiction; reflexivity.
Qed.

Lemma full_slippage_guarantees_nothing_witness :
  exists q,
    getSwapQuote Offline.soroswap (Some "native") (Some "USDC")
      (Some "1000") (Some "100") = Ok q
    /\ minimumReceived q = "0.000000".
Proof.
  apply (full_slippage_guarantees_nothing Offline.soroswap (Some "native")
           (Some "USDC") "1000" "100").
  - exists (Error "Network Error"). reflexivity.
  - vm_compute. reflexivity.
  - vm_compute. reflexivity.
Defined.

(** X13. When the Soroswap API fails, the quote of [getSwapQuote] never
    promises more than it quotes: for an amount that is not negative and
    whose quoted output stays below [10^21], and a slippage between 0 and
    100, [amountOut] and [minimumReceived] are printed with six decimals
    and, read as numbers of millionths, [minimumReceived] is at most
    [amountOut]. *)
Theorem minimum_received_is_at_most_amount_out
  net tokenIn' tokenOut' amount slip :
  (exists err, api_quote net tokenIn' tokenOut' (Some amount) slip = Throw err) ->
  (0 <=? parseFloat amount) = true ->
  (parseFloat amount * 0.12 * 0.997 <? 1e21) = true ->
  (0 <=? parseFloat slip) = true ->
  (parseFloat slip <=? 100) = true ->
  exists out low : N,
    quote_gives net tokenIn' tokenOut' amount slip out low /\ (low <= out)%N.
Proof.
  intros Hfail Ha0 Hbelow Hs0 Hs100.
  destruct hundred_ord as (Nh & _).
  pose proof unit_below_top as Hunit.
  pose proof (proj2 ten_pow_21_ord) as Hten.
  pose proof (zero_le_nonneg _ Ha0) as Nx.
  destruct (wanted_ord _ Nx Hbelow) as (_ & _ & _ & Nz & Hz).
  fold (wanted amount) in Nz, Hz.
  pose proof (zero_le_nonneg _ Hs0) as Nt.
  pose proof (proj1 (leb_ord _ _ Nt Nh) Hs100) as Ot100.
  destruct (share_mono _ _ Nt Nt (Z.le_refl _) Ot100) as (Nv & _ & _ & Ov).
  fold (kept slip) in Nv, Ov.
  assert (Fz : (ord (Prim2SF (wanted amount)) < top)%Z) by lia.
  destruct (mul_mono (wanted amount) (wanted amount) (kept slip) (kept slip)
              Nz Nz Nv Nv (Z.le_refl _) Fz (Z.le_refl _) ltac:(lia))
    as (Nw & _ & _).
  pose proof (share_below _ _ Nz Nv Fz Ov) as Hle.
  destruct (quote_falls_back net tokenIn' tokenOut' amount slip Hfail)
    as (q & Hq & Hout & Hlow).
  rewrite printed in Hout, Hlow by (assumption || lia).
  exists (fixed_of_ord (ord (Prim2SF (wanted amount))) 6),
         (fixed_of_ord (ord (Prim2SF (wanted amount * kept slip))) 6).
  split; [exists q; auto |].
  apply fixed_of_ord_mono; [apply ord_nonneg | exact Hle].
Qed.

Lemma minimum_received_is_at_most_amount_out_witness :
  exists out low : N,
    quote_gives Offline.soroswap (Some "native") (Some "USDC")
      "1000" "0.5" out low
    /\ (low <= out)%N.
Proof.
  apply (minimum_received_is_at_most_amount_out Offline.soroswap
           (Some "native") (Some "USDC") "1000" "0.5");
    [exists (Error "Network Error"); reflexivity | ..];
    vm_compute; reflexivity.
Defined.

End QuoteEdgeFacts.

(** ** The liquidity pools *)

Module PoolFacts.

Import JSNumber JS JSON Server PoolTerms.

(** X14. The pools document of the combined server
    ([getSoroswapLiquidityPools]) takes one of three shapes. Without a
    pair address, or with an empty one, [pools] is the array of the two
    mock pools. With the address of a mock pool, [pools] is that pool
    itself, an object and not an array of one. With any other address
    the document has no [pools] key at all, only the message: [find]
    gives [undefined], which [JSON.stringify] leaves out. *)
Theorem pools_document_takes_three_shapes (pairAddress' : option string) :
  (truthy pairAddress' = false ->
   getSoroswapLiquidityPools pairAddress'
   = Ok (stringify (Obj [ ("pools", Arr (map pool_value mockPools));
                          pools_message ])))
  /\ (forall pool, In pool mockPools ->
      pairAddress' = Some (pool_address pool) ->
      getSoroswapLiquidityPools pairAddress'
      = Ok (stringify (Obj [ ("pools", pool_value pool); pools_message ])))
  /\ (truthy pairAddress' = true ->
      (forall pool, In pool mockPools ->
                    pairAddress' <> Some (pool_address pool)) ->
      getSoroswapLiquidityPools pairAddress'
      = Ok (stringify (Obj [ pools_message ]))).
Proof.
  unfold getSoroswapLiquidityPools. split; [| split].
  - intros ->. reflexivity.
  - intros pool [<- | [<- | []]] ->; reflexivity.
  - intros -> Hnone.
    assert (Hfind : find (fun pool => strict_eq (pool_address pool) pairAddress')
                      mockPools = None).
    { destruct (find _ mockPools) as [pool |] eqn:E; [| reflexivity].
      apply find_some in E. destruct E as [Hin Heq].
      apply VaultFilterFacts.strict_eq_some in Heq.
      now apply Hnone in Hin. }
    rewrite Hfind. reflexivity.
Qed.

End PoolFacts.

Module SoroswapPoolFacts.

Import JS Soroswap SoroswapPools.

Lemma pools_fall_back api_pools a e :
  api_pools (if truthy a then a else None) = Throw e ->
  getLiquidityPools api_pools a = Ok (getMockLiquidityPools a).
Proof.
  intros H. unfold getLiquidityPools. rewrite H. reflexivity.
Qed.

(** X15. When the Soroswap API fails, [SoroswapClient.getLiquidityPools]
    answers with mock pairs only: all of them without a pair address (or
    with an empty one), and otherwise exactly those whose [pairAddress]
    is the one asked for, which is at most one pair and none for an
    unknown address. *)
Theorem mock_pools_are_found_by_address api_pools a e :
  api_pools (if truthy a then a else None) = Throw e ->
  exists pools,
    getLiquidityPools api_pools a = Ok pools
    /\ incl pools mockPairs
    /\ (truthy a = false -> pools = mockPairs)
    /\ (truthy a = true ->
        (forall pool, In pool pools <->
                      In pool mockPairs /\ a = Some (pairAddress pool))
        /\ (List.length pools <= 1)%nat).
Proof.
  intros Hfail. exists (getMockLiquidityPools a).
  split; [now apply (pools_fall_back api_pools a e) |].
  unfold getMockLiquidityPools.
  change (getMockTokenPairs None) with mockPairs.
  destruct (truthy a) eqn:Ha.
  - split; [apply incl_filter |]. split; [discriminate |]. intros _. split.
    + intros pool. rewrite filter_In, VaultFilterFacts.strict_eq_some.
      reflexivity.
    + destruct a as [t |]; [| discriminate].
      cbn [mockPairs filter strict_eq pairAddress].
      destruct (String.eqb_spec
                  "CDLZFC3SYJYDZT7K67VZ75HPJVIEUVNIXF47ZG2FB2RMQQAHHAGHJMUOB" t)
        as [<- | _]; [cbn; lia |].
      destruct (String.eqb _ t); cbn; lia.
  - split; [apply incl_refl |]. split; [reflexivity | discriminate].
Qed.

Lemma mock_pools_are_found_by_address_witness :
  exists pools,
    getLiquidityPools (fun _ => Offline.refused) (Some "nowhere") = Ok pools
    /\ incl pools mockPairs
    /\ (truthy (Some "nowhere") = false -> pools = mockPairs)
    /\ (truthy (Some "nowhere") = true ->
        (forall pool, In pool pools <->
                      In pool mockPairs /\ Some "nowhere" = Some (pairAddress pool))
        /\ (List.length pools <= 1)%nat).
Proof.
  exact (mock_pools_are_found_by_address (fun _ => Offline.refused)
           (Some "nowhere") (Error "Network Error") eq_refl).
Defined.

End SoroswapPoolFacts.

(** ** The failure documents that are never written *)

Module EnvelopeFacts.

Import JSNumber JS JSON Server EnvelopeTerms.

Lemma failure_first_letter what error :
  first_letter (stringify (failure_value what error)) = Some "e"%char.
Proof. reflexivity. Qed.

Lemma pairs_first_letter env net token' :
  exists t, getSoroswapTokenPairs env net token' = Ok t
            /\ first_letter t = Some "p"%char.
Proof.
  unfold getSoroswapTokenPairs, Soroswap.getTokenPairs.
  destruct (Soroswap.api_pairs _ _) as [[l |] | e]; cbn [bind try_catch];
    eexists; split; reflexivity.
Qed.

Lemma quote_first_letter env net tin tout amount slip :
  exists t, getSoroswapSwapQuote env net tin tout amount slip = Ok t
            /\ first_letter t = Some "q"%char.
Proof.
  unfold getSoroswapSwapQuote, Soroswap.getSwapQuote.
  destruct (Soroswap.api_quote _ _ _ _ _) as [q | e]; cbn [bind try_catch];
    eexists; split; reflexivity.
Qed.

Lemma pools_first_letter a :
  exists t, getSoroswapLiquidityPools a = Ok t
            /\ (first_letter t = Some "p"%char
                \/ first_letter t = Some "m"%char).
Proof.
  unfold getSoroswapLiquidityPools.
  destruct (truthy a); [destruct (find _ mockPools) |];
    eexists; (split; [reflexivity |]); [left | right | left]; reflexivity.
Qed.

Lemma price_first_letter env a base :
  exists t, getSoroswapTokenPrice env a base = Ok t
            /\ (first_letter t = Some "t"%char
                \/ first_letter t = Some "p"%char).
Proof.
  unfold getSoroswapTokenPrice.
  destruct a as [key |]; [destruct (mock_price (Some key)) |];
    eexists; (split; [reflexivity |]);
    first [left; reflexivity | right; reflexivity].
Qed.

Lemma vaults_first_letter env net risk minApy' :
  exists t, getDefindexVaults env net risk minApy' = Ok t
            /\ first_letter t = Some "v"%char.
Proof.
  unfold getDefindexVaults, Defindex.getAvailableVaults.
  destruct (Defindex.api_vaults _ _ _) as [[l |] | e]; cbn [bind try_catch];
    eexists; split; reflexivity.
Qed.

Lemma vault_first_letter a :
  exists t, getDefindexVaultDetails a = Ok t
            /\ first_letter t = Some "v"%char.
Proof. eexists; split; reflexivity. Qed.

Lemma optimization_first_letter total risk horizon :
  exists t, optimizeDefindexAllocation total risk horizon = Ok t
            /\ first_letter t = Some "o"%char.
Proof. eexists; split; reflexivity. Qed.

Lemma positions_always_come env net user :
  exists sp dp,
    Soroswap.getUserPositions (soroswap net) user = Ok sp
    /\ Defindex.getUserPositions (defindex net) (now env) user = Ok dp.
Proof.
  unfold Soroswap.getUserPositions, Defindex.getUserPositions.
  destruct (Soroswap.loadAccount _ _); cbn [bind try_catch];
    destruct (Defindex.api_positions _ _); cbn [bind try_catch];
    try destruct (Defindex.loadAccount _ _); cbn [bind try_catch];
    do 2 eexists; split; reflexivity.
Qed.

Lemma analysis_first_letter env net user recommend :
  exists t, getCombinedPortfolioAnalysis env net user recommend = Ok t
            /\ first_letter t = Some "a"%char.
Proof.
  destruct (positions_always_come env net user) as (sp & dp & Hsp & Hdp).
  unfold getCombinedPortfolioAnalysis. rewrite Hsp. cbn [bind].
  rewrite Hdp. cbn [bind try_catch]. eexists; split; reflexivity.
Qed.

Lemma other_first_letter (t : string) (c : ascii) :
  first_letter t = Some c -> c <> "e"%char ->
  forall what error, t <> stringify (failure_value what error).
Proof.
  intros Ht Hc what error Heq. rewrite Heq, failure_first_letter in Ht.
  injection Ht as <-. now apply Hc.
Qed.

Ltac not_the_envelope H :=
  first [ destruct H as [H | H] | idtac ];
  (eapply other_first_letter; [exact H | discriminate]).

(** X16. When every answer of the network has the type that the clients
    declare for it, the failure documents that the handlers of the
    combined server write in their [catch] blocks ([error], [details],
    [fallback]) are not returned: whatever the tool name and the
    arguments, and whether the network answers or fails, [invoke]
    returns one text, and this text is not such a document for any
    failure title and any error. The clients catch every failure of the
    network themselves and answer with mock data. The oracles of [net]
    answer with typed data only: an answer of another shape, say a list
    of pairs that is no array, over which a handler's own [reduce]
    throws, is outside this statement. *)
Theorem typed_answers_never_give_the_failure_envelope env net name args :
  exists r t,
    invoke env net name args = Ok r
    /\ content r = [ {| type := "text"; text := t |} ]
    /\ forall what error, t <> stringify (failure_value what error).
Proof.
  unfold invoke, dispatch.
  repeat match goal with
  | |- context [if String.eqb name ?s then _ else _] =>
      destruct (String.eqb name s)
  end.
  - destruct (pairs_first_letter env net (arg args token)) as (t & -> & H).
    exists (text_result t), t. repeat split. not_the_envelope H.
  - destruct (quote_first_letter env net (arg args tokenIn)
                (arg args tokenOut) (arg args amountIn)
                (or_default (arg args slippage) "0.5")) as (t & -> & H).
    exists (text_result t), t. repeat split. not_the_envelope H.
  - destruct (pools_first_letter (arg args pairAddress)) as (t & -> & H).
    exists (text_result t), t. repeat split. not_the_envelope H.
  - destruct (price_first_letter env (arg args tokenAddress)
                (or_default (arg args baseCurrency) "USD")) as (t & -> & H).
    exists (text_result t), t. repeat split. not_the_envelope H.
  - destruct (vaults_first_letter env net (arg args riskLevel)
                (arg args minApy)) as (t & -> & H).
    exists (text_result t), t. repeat split. not_the_envelope H.
  - destruct (vault_first_letter (arg args vaultAddress)) as (t & -> & H).
    exists (text_result t), t. repeat split. not_the_envelope H.
  - destruct (optimization_first_letter (arg args totalAmount)
                (arg args riskTolerance)
                (or_default (arg args timeHorizon) "1y")) as (t & -> & H).
    exists (text_result t), t. repeat split. not_the_envelope H.
  - destruct (analysis_first_letter env net (arg args userAddress)
                (match arg args includeRecommendations with
                 | Some false => false
                 | _ => true
                 end)) as (t & -> & H).
    exists (text_result t), t. repeat split. not_the_envelope H.
  - cbn [bind try_catch]. do 2 eexists. split; [reflexivity |].
    split; [reflexivity |].
    apply (other_first_letter _ ":"%char); [reflexivity | discriminate].
Qed.

End EnvelopeFacts.

(** ** The network that the constructors select *)

Module SetupFacts.

Import JS Setup SetupTerms.

(** X17. The combined server builds both clients on the same Horizon
    URL, and only the exact word [testnet] selects the test network:
    with [STELLAR_NETWORK] unset, empty or ["testnet"] both clients use
    [horizon-testnet.stellar.org] and the DeFindex client the network
    [TESTNET]; with any other value, ["mainnet"], ["Testnet"] or a
    misspelling alike, both use [horizon.stellar.org] and the DeFindex
    client the network [PUBLIC]. *)
Theorem only_the_word_testnet_selects_the_test_network (env : ProcessEnv) :
  let server := newStellarSwapMCPServer env in
  sc_horizonClient (soroswapClient server)
  = dc_horizonClient (defindexClient server)
  /\ sc_horizonUrl (soroswapClient server)
     = sc_horizonClient (soroswapClient server)
  /\ (names_testnet (env_STELLAR_NETWORK env) ->
      sc_horizonClient (soroswapClient server) = horizon_testnet
      /\ dc_network (defindexClient server) = TESTNET)
  /\ (~ names_testnet (env_STELLAR_NETWORK env) ->
      sc_horizonClient (soroswapClient server) = horizon_mainnet
      /\ dc_network (defindexClient server) = PUBLIC).
Proof.
  intros server. subst server.
  unfold newStellarSwapMCPServer, newSoroswapClient, newDefindexClient,
    names_testnet.
  cbn [soroswapClient defindexClient sc_horizonClient sc_horizonUrl
       dc_horizonClient dc_network default_param].
  split; [reflexivity |]. split; [reflexivity |].
  destruct (env_STELLAR_NETWORK env) as [[| c r] |]; cbn [or_default].
  - split; [intros _; split; reflexivity |]. intros H. exfalso. auto.
  - destruct (String.eqb_spec (String c r) "testnet") as [-> | Hne].
    + split; [intros _; split; reflexivity |]. intros H. exfalso. auto.
    + split; [| intros _; split; reflexivity].
      intros [H | [H | H]]; try discriminate.
      exfalso. apply Hne. congruence.
  - split; [intros _; split; reflexivity |]. intros H. exfalso. auto.
Qed.

End SetupFacts.

(** ** Totals of the combined portfolio that are not numbers *)

Module PortfolioEdgeFacts.

Import JSNumber JS Server NumberTerms NotANumberFacts PositionTerms.
Local Open Scope float_scope.

(** X18. One DeFindex position whose [underlyingValue] is not read as a
    number by [parseFloat] spoils the totals of the combined portfolio,
    whatever the other positions are worth: [defindexValue] and
    [totalValue] are ["NaN"], and [totalPnlPercent] is ["0"], since
    [NaN > 0] is false. *)
Theorem one_unreadable_value_spoils_the_totals
  (sp : list Soroswap.Position) (dp : list Defindex.DefindexPosition)
  (p : Defindex.DefindexPosition) :
  In p dp -> not_a_number (parseFloat (Defindex.underlyingValue p)) ->
  defindexValue (summarize sp dp) = "NaN"
  /\ totalValue (summarize sp dp) = "NaN"
  /\ totalPnlPercent (summarize sp dp) = "0".
Proof.
  intros Hin Hnan.
  pose proof (sum_meets_nan
                (fun pos => parseFloat (Defindex.underlyingValue pos))
                dp 0 p Hin Hnan) as Hsum.
  unfold summarize. cbn [defindexValue totalValue totalPnlPercent].
  split; [now apply nan_toString |].
  split; [apply nan_toString; now apply nan_add_r |].
  rewrite nan_is_not_positive; [reflexivity | now apply nan_add_r].
Qed.

Lemma one_unreadable_value_spoils_the_totals_witness :
  defindexValue (summarize [] [ServerTerms.thirds; unpriced]) = "NaN"
  /\ totalValue (summarize [] [ServerTerms.thirds; unpriced]) = "NaN"
  /\ totalPnlPercent (summarize [] [ServerTerms.thirds; unpriced]) = "0".
Proof.
  apply (one_unreadable_value_spoils_the_totals
           [] [ServerTerms.thirds; unpriced] unpriced);
    [right; left; reflexivity | vm_compute; reflexivity].
Defined.

End PortfolioEdgeFacts.

(** ** The expected APY of a mock plan *)

Module PlanFacts.

Import JSNumber JS Defindex.
Local Open Scope float_scope.

(** X19. The expected portfolio APY of a mock allocation plan
    ([getMockOptimization]) depends on the risk tolerance alone, not on
    the amount or the time horizon: ["10.51"] for [conservative],
    ["11.85"] for [moderate] and ["16.34"] for anything else, a missing
    tolerance included. *)
Theorem plan_apy_depends_on_the_tolerance_alone
  (total risk : option string) (horizon : string) :
  expectedPortfolioApy (getMockOptimization total risk horizon)
  = if strict_eq "conservative" risk then "10.51"
    else if strict_eq "moderate" risk then "11.85"
    else "16.34".
Proof.
  unfold getMockOptimization. cbn [expectedPortfolioApy].
  destruct (strict_eq "conservative" risk);
    [| destruct (strict_eq "moderate" risk)];
    cbn [fold_left allot allocation expectedApy]; vm_compute; reflexivity.
Qed.

End PlanFacts.
